(** * Guardian: a shallow embedding of the rule engine and the governance core

    The development follows the Go sources of guardian-cli:
    - [internal/engine]: diff parsing, glob matching, the three rule
      checkers, the engine with its exception filter;
    - [internal/governance]: eligible voters, quorum arithmetic, tally.

    Go strings are byte strings and are modelled by [string]; Go [int] is a
    64-bit two's complement integer, modelled by [Z] with the wrap-around
    written out; [float64] is the IEEE 754 binary64 format of the Standard
    Library's [SpecFloat]; Go maps are [gmap]s. *)

From Stdlib Require Import ZArith Ascii String List Bool Lia.
From Stdlib Require Import Floats.SpecFloat.
From stdpp Require Import base option gmap strings list.

Import ListNotations.
Local Open Scope string_scope.
Local Open Scope list_scope.

(** ** The fragment of Go's [strings] package used by the engine *)

Module GoStrings.

(** [len(s) > 0 && s[0] == c]-style tests are done on the constructors. *)

(** strings.HasPrefix(s, prefix) *)
Fixpoint HasPrefix (s prefix : string) {struct prefix} : bool :=
  match prefix with
  | EmptyString => true
  | String p prefix' =>
      match s with
      | EmptyString => false
      | String c s' => if Ascii.eqb c p then HasPrefix s' prefix' else false
      end
  end.

(** [s[n:]] for [n <= len(s)] *)
Fixpoint drop_bytes (n : nat) (s : string) : string :=
  match n with
  | O => s
  | S n' => match s with
            | EmptyString => EmptyString
            | String _ s' => drop_bytes n' s'
            end
  end.

(** strings.TrimPrefix(s, prefix) *)
Definition TrimPrefix (s prefix : string) : string :=
  if HasPrefix s prefix then drop_bytes (String.length prefix) s else s.

(** strings.Contains(s, substr) *)
Fixpoint Contains (s substr : string) : bool :=
  if HasPrefix s substr then true
  else match s with
       | EmptyString => false
       | String _ s' => Contains s' substr
       end.

(** membership of a byte in a cutset *)
Fixpoint in_cutset (c : ascii) (cutset : string) : bool :=
  match cutset with
  | EmptyString => false
  | String d cutset' => if Ascii.eqb c d then true else in_cutset c cutset'
  end.

(** strings.TrimLeft(s, cutset) *)
Fixpoint TrimLeft (s cutset : string) : string :=
  match s with
  | EmptyString => EmptyString
  | String c s' => if in_cutset c cutset then TrimLeft s' cutset else s
  end.

(** strings.TrimRight(s, cutset) *)
Fixpoint TrimRight (s cutset : string) : string :=
  match s with
  | EmptyString => EmptyString
  | String c s' =>
      match TrimRight s' cutset with
      | EmptyString => if in_cutset c cutset then EmptyString else String c EmptyString
      | t => String c t
      end
  end.

(** strings.Split(s, sep) for a one-byte separator (the engine only splits
    on a newline and on a slash): it always returns at least one field. *)
Fixpoint Split (s : string) (sep : ascii) : list string :=
  match s with
  | EmptyString => [EmptyString]
  | String c s' =>
      if Ascii.eqb c sep then EmptyString :: Split s' sep
      else match Split s' sep with
           | [] => [String c EmptyString]
           | f :: fs => String c f :: fs
           end
  end.

(** strings.SplitN(s, sep, 2) for a non-empty separator: the text before
    the first occurrence of [sep] and the text after it, or [s] alone. *)
Fixpoint SplitN2 (s sep : string) : list string :=
  if HasPrefix s sep then [EmptyString; drop_bytes (String.length sep) s]
  else match s with
       | EmptyString => [EmptyString]
       | String c s' =>
           match SplitN2 s' sep with
           | [before; after] => [String c before; after]
           | _ => [s]
           end
       end.

(** strings.Join(elems, sep) *)
Fixpoint Join (elems : list string) (sep : string) : string :=
  match elems with
  | [] => EmptyString
  | [e] => e
  | e :: rest => e ++ sep ++ Join rest sep
  end.

End GoStrings.

Import GoStrings.

Definition newline : ascii := Ascii.ascii_of_nat 10.
Definition slash : ascii := "/"%char.

(** ** internal/engine/diff.go *)

Record FileDiff := mkFileDiff {
  Path : string;
  AddedLines : list string
}.

Definition emptyFileDiff : FileDiff := mkFileDiff "" [].

(** The parser state of [ParseDiff]: the slice [result] and the pointer
    [current] ([None] is the nil pointer). *)
Definition parse_state : Type := (list FileDiff * option FileDiff)%type.

(** One iteration of the loop over the lines. *)
Definition parseLine (st : parse_state) (line : string) : parse_state :=
  let '(result, current) := st in
  if HasPrefix line "diff --git " then
    (match current with
     | Some cur => result ++ [cur]
     | None => result
     end, Some emptyFileDiff)
  else if HasPrefix line "+++ b/" then
    (result,
     match current with
     | Some cur => Some (mkFileDiff (TrimPrefix line "+++ b/") (AddedLines cur))
     | None => None
     end)
  else if HasPrefix line "--- " then st
  else if HasPrefix line "@@" then st
  else if HasPrefix line "+" then
    match current with
    | Some cur =>
        (result, Some (mkFileDiff (Path cur) (AddedLines cur ++ [drop_bytes 1 line])))
    | None => st
    end
  else st.

Definition parseLines (lines : list string) (st : parse_state) : parse_state :=
  fold_left parseLine lines st.

(** The flush after the loop. *)
Definition flush (st : parse_state) : list FileDiff :=
  match snd st with
  | Some cur => fst st ++ [cur]
  | None => fst st
  end.

Definition ParseDiff (diffContent : string) : list FileDiff :=
  if String.eqb diffContent "" then []
  else flush (parseLines (Split diffContent newline) ([], None)).

(** ** Go's [unicode/utf8] and [path/filepath] (Unix), as far as
    [filepath.Match] needs them

    [filepath.Match] belongs to the Go standard library; the engine calls it
    from [globMatch] and [isExcepted].  Runes are numbers. *)

Module Filepath.

Definition byte (c : ascii) : N := N_of_ascii c.

Definition RuneError : N := 65533%N.

(** The entries of utf8's table [first]: the low three bits are the size of
    the encoding, the high four bits index [acceptRanges]. *)
Definition first (b : N) : N :=
  (if b <? 128 then 240          (* as *)
   else if b <? 194 then 241     (* xx *)
   else if b <? 224 then 2       (* s1 *)
   else if b =? 224 then 19      (* s2 *)
   else if b <? 237 then 3       (* s3 *)
   else if b =? 237 then 35      (* s4 *)
   else if b <? 240 then 3       (* s3 *)
   else if b =? 240 then 52      (* s5 *)
   else if b <? 244 then 4       (* s6 *)
   else if b =? 244 then 68      (* s7 *)
   else 241)%N.

Definition acceptRanges (i : N) : N * N :=
  (if i =? 0 then (128, 191)
   else if i =? 1 then (160, 191)
   else if i =? 2 then (128, 159)
   else if i =? 3 then (144, 191)
   else if i =? 4 then (128, 143)
   else (0, 0))%N.

Definition continuation (b : N) : bool := ((128 <=? b) && (b <=? 191))%N.

(** utf8.DecodeRuneInString: the rune and the number of bytes it takes. *)
Definition DecodeRuneInString (s : string) : N * nat :=
  match s with
  | EmptyString => (RuneError, 0)
  | String c0 t0 =>
      let s0 := byte c0 in
      let x := first s0 in
      if (240 <=? x)%N then
        (if (x =? 241)%N then RuneError else s0, 1)
      else
        let sz := N.land x 7 in
        let accept := acceptRanges (N.shiftr x 4) in
        if (N.of_nat (String.length s) <? sz)%N then (RuneError, 1)
        else match t0 with
        | EmptyString => (RuneError, 1)
        | String c1 t1 =>
            let s1 := byte c1 in
            if ((s1 <? fst accept) || (snd accept <? s1))%N then (RuneError, 1)
            else if (sz <=? 2)%N then
              (N.lor (N.shiftl (N.land s0 31) 6) (N.land s1 63), 2)
            else match t1 with
            | EmptyString => (RuneError, 1)
            | String c2 t2 =>
                let s2 := byte c2 in
                if negb (continuation s2) then (RuneError, 1)
                else if (sz <=? 3)%N then
                  (N.lor (N.lor (N.shiftl (N.land s0 15) 12)
                                (N.shiftl (N.land s1 63) 6))
                         (N.land s2 63), 3)
                else match t2 with
                | EmptyString => (RuneError, 1)
                | String c3 _ =>
                    let s3 := byte c3 in
                    if negb (continuation s3) then (RuneError, 1)
                    else
                      (N.lor (N.lor (N.lor (N.shiftl (N.land s0 7) 18)
                                           (N.shiftl (N.land s1 63) 12))
                                    (N.shiftl (N.land s2 63) 6))
                             (N.land s3 63), 4)
                end
            end
        end
  end.

(** The scan of [scanChunk] after the leading stars: the chunk up to the
    first star outside a bracket and what is left of the pattern. *)
Fixpoint scanBody (pattern : string) (inrange : bool) : string * string :=
  match pattern with
  | EmptyString => (EmptyString, EmptyString)
  | String c rest =>
      if Ascii.eqb c "\" then
        match rest with
        | EmptyString => (String c EmptyString, EmptyString)
        | String d rest' =>
            let '(chunk, pat) := scanBody rest' inrange in
            (String c (String d chunk), pat)
        end
      else if Ascii.eqb c "[" then
        let '(chunk, pat) := scanBody rest true in (String c chunk, pat)
      else if Ascii.eqb c "]" then
        let '(chunk, pat) := scanBody rest false in (String c chunk, pat)
      else if Ascii.eqb c "*" then
        if inrange then
          let '(chunk, pat) := scanBody rest inrange in (String c chunk, pat)
        else (EmptyString, pattern)
      else
        let '(chunk, pat) := scanBody rest inrange in (String c chunk, pat)
  end.

(** scanChunk: is the chunk preceded by a star, the chunk, the rest. *)
Definition scanChunk (pattern : string) : bool * string * string :=
  let stripped := TrimLeft pattern "*" in
  let star := negb (String.eqb stripped pattern) in
  let '(chunk, rest) := scanBody stripped false in
  (star, chunk, rest).

(** getEsc: [None] is ErrBadPattern. *)
Definition getEsc (chunk : string) : option (N * string) :=
  match chunk with
  | EmptyString => None
  | String c rest =>
      if Ascii.eqb c "-" || Ascii.eqb c "]" then None
      else
        let chunk1 := if Ascii.eqb c "\" then rest else chunk in
        match chunk1 with
        | EmptyString => None
        | _ =>
            let '(r, n) := DecodeRuneInString chunk1 in
            if (r =? RuneError)%N && Nat.eqb n 1 then None
            else
              let nchunk := drop_bytes n chunk1 in
              match nchunk with
              | EmptyString => None
              | _ => Some (r, nchunk)
              end
        end
  end.

(** [len(s) > 0 && s[0] == c] *)
Definition startsWith (c : ascii) (s : string) : bool :=
  match s with
  | EmptyString => false
  | String d _ => Ascii.eqb d c
  end.

(** The loop that parses the ranges of a character class; it returns what
    follows the closing bracket and whether the rune [r] was in a range.
    Every round takes at least one byte of [chunk], so a number of rounds
    above its length is enough. *)
Fixpoint classRanges (rounds : nat) (chunk : string) (r : N) (matched : bool)
         (nrange : nat) : option (string * bool) :=
  match rounds with
  | O => None
  | S rounds' =>
      if startsWith "]" chunk && Nat.ltb 0 nrange then
        Some (drop_bytes 1 chunk, matched)
      else
        match getEsc chunk with
        | None => None
        | Some (lo, chunk1) =>
            if startsWith "-" chunk1 then
              match getEsc (drop_bytes 1 chunk1) with
              | None => None
              | Some (hi, chunk2) =>
                  classRanges rounds' chunk2 r
                    (matched || ((lo <=? r) && (r <=? hi))%N) (S nrange)
              end
            else
              classRanges rounds' chunk1 r
                (matched || ((lo <=? r) && (r <=? lo))%N) (S nrange)
        end
  end.

Inductive chunk_result :=
| ChunkBad                    (* err = ErrBadPattern *)
| ChunkNo                     (* ok = false, err = nil *)
| ChunkYes (rest : string).   (* ok = true *)

(** The loop of matchChunk, with its flag [failed]. *)
Fixpoint matchChunkLoop (rounds : nat) (chunk s : string) (failed : bool)
  : chunk_result :=
  match chunk with
  | EmptyString => if failed then ChunkNo else ChunkYes s
  | String c chunk' =>
      match rounds with
      | O => ChunkBad
      | S rounds' =>
          let failed := failed || String.eqb s "" in
          if Ascii.eqb c "[" then
            let '(r, s1) :=
              if failed then (0%N, s)
              else let '(r, n) := DecodeRuneInString s in (r, drop_bytes n s) in
            let '(negated, chunk1) :=
              if startsWith "^" chunk' then (true, drop_bytes 1 chunk')
              else (false, chunk') in
            match classRanges (S (String.length chunk1)) chunk1 r false 0 with
            | None => ChunkBad
            | Some (chunk2, matched) =>
                matchChunkLoop rounds' chunk2 s1
                  (failed || Bool.eqb matched negated)
            end
          else if Ascii.eqb c "?" then
            if failed then matchChunkLoop rounds' chunk' s failed
            else
              let failed' := startsWith "/" s in
              let '(_, n) := DecodeRuneInString s in
              matchChunkLoop rounds' chunk' (drop_bytes n s) failed'
          else
            let lit :=
              if Ascii.eqb c "\" then
                match chunk' with
                | EmptyString => None
                | String d chunk'' => Some (d, chunk'')
                end
              else Some (c, chunk') in
            match lit with
            | None => ChunkBad
            | Some (d, chunk1) =>
                if failed then matchChunkLoop rounds' chunk1 s failed
                else
                  match s with
                  | EmptyString => matchChunkLoop rounds' chunk1 s true
                  | String e s' =>
                      matchChunkLoop rounds' chunk1 s' (negb (Ascii.eqb d e))
                  end
            end
      end
  end.

Definition matchChunk (chunk s : string) : chunk_result :=
  matchChunkLoop (String.length chunk) chunk s false.

Inductive star_result :=
| StarBad
| StarNone
| StarFound (rest : string).

(** The inner loop of Match after a star: skip [i+1] bytes of [name], never
    a separator, until the chunk matches. *)
Fixpoint starLoop (chunk : string) (lastChunk : bool) (name : string)
  : star_result :=
  match name with
  | EmptyString => StarNone
  | String c name' =>
      if Ascii.eqb c "/" then StarNone
      else
        match matchChunk chunk name' with
        | ChunkYes t =>
            if lastChunk && negb (String.eqb t "") then starLoop chunk lastChunk name'
            else StarFound t
        | ChunkBad => StarBad
        | ChunkNo => starLoop chunk lastChunk name'
        end
  end.

(** The loop of Match over the chunks of the pattern; [None] is
    ErrBadPattern.  Every chunk takes at least one byte of the pattern. *)
Fixpoint MatchLoop (rounds : nat) (pattern name : string) : option bool :=
  match pattern with
  | EmptyString => Some (String.eqb name "")
  | _ =>
      match rounds with
      | O => None
      | S rounds' =>
          let '(star, chunk, rest) := scanChunk pattern in
          if star && String.eqb chunk "" then
            Some (negb (Contains name "/"))
          else
            let lastChunk := String.eqb rest "" in
            let afterFirst :=
              match matchChunk chunk name with
              | ChunkYes t =>
                  if String.eqb t "" || negb lastChunk then inl t
                  else inr false
              | ChunkBad => inr true
              | ChunkNo => inr false
              end in
            match afterFirst with
            | inl t => MatchLoop rounds' rest t
            | inr true => None
            | inr false =>
                if star then
                  match starLoop chunk lastChunk name with
                  | StarFound t => MatchLoop rounds' rest t
                  | StarBad => None
                  | StarNone => Some false
                  end
                else Some false
            end
      end
  end.

(** filepath.Match(pattern, name) *)
Definition Match (pattern name : string) : option bool :=
  MatchLoop (String.length pattern) pattern name.

End Filepath.

(** ** Go's [int]: 64-bit two's complement *)

Definition min_int : Z := (- 2 ^ 63)%Z.
Definition max_int : Z := (2 ^ 63 - 1)%Z.

(** The value an arithmetic result has once it is stored in an [int]. *)
Definition wrap_int (z : Z) : Z :=
  ((z + 2 ^ 63) mod 2 ^ 64 - 2 ^ 63)%Z.

(** ** Shared types of [internal/config] and [internal/engine] *)

(** A [time.Time] is the instant it denotes, in nanoseconds; [Before] and
    [After] compare instants. *)
Definition Time : Type := Z.
Definition Before (t u : Time) : bool := (t <? u)%Z.
Definition After (t u : Time) : bool := (u <? t)%Z.

(** The dynamic values of a [map[string]interface{}] read from YAML. *)
#[warnings="-register-all"]
Inductive value :=
| VNil
| VBool (b : bool)
| VInt (z : Z)
| VString (s : string)
| VSlice (items : list value)       (* []interface{} *)
| VStrings (items : list string)    (* []string *)
| VMap (fields : list (string * value)).

(** Go [error] values, as the engine builds them with [fmt.Errorf]. *)
Inductive error :=
| ErrMissingKey (key : string)
| ErrStringElements (key : string)
| ErrStringSlice (key : string)
| ErrInvalidRegex (pattern : string)
| ErrUnknownRuleType (ruleType ruleID : string)
| ErrWrap (context : string) (cause : error).

(** A Go result pair [(v, err)]. *)
Inductive result (A : Type) :=
| Ok (v : A)
| Err (e : error).
Arguments Ok {A} v.
Arguments Err {A} e.

Definition bind {A B : Type} (r : result A) (k : A -> result B) : result B :=
  match r with
  | Ok v => k v
  | Err e => Err e
  end.

Definition wrapErr {A : Type} (context : string) (r : result A) : result A :=
  match r with
  | Ok v => Ok v
  | Err e => Err (ErrWrap context e)
  end.

Notation "x <- r ;; k" := (bind r (fun x => k))
  (at level 100, r at next level, right associativity).

Definition is_Err {A : Type} (r : result A) : bool :=
  match r with
  | Ok _ => false
  | Err _ => true
  end.

Module Rule.
Record t := mk {
  ID : string;
  Description : string;
  Type' : string;
  Config : gmap string value;
  Severity : string
}.
End Rule.

Module Exception.
Record t := mk {
  ID : string;
  RuleID : string;
  Paths : list string;
  Reason : string;
  CreatedBy : string;
  CreatedAt : Time;
  ExpiresAt : option Time
}.
End Exception.

Module CheckContext.
Record t := mk {
  ChangedFiles : list string;
  DiffContent : string;
  RuleConfig : gmap string value;
  Severity : string;
  RuleID : string;
  RuleDesc : string
}.
End CheckContext.

Module Violation.
Record t := mk {
  RuleID : string;
  Severity : string;
  Description : string;
  FilePath : string;
  DiffSnippet : string;
  LLMExplanation : string
}.
End Violation.

(** ** internal/engine/imports_forbidden.go: globs and config access *)

(** The value of [m[k]] for a [map[string]bool]: [false] when absent. *)
Definition lookup_bool (m : gmap string bool) (k : string) : bool :=
  default false (m !! k).

(** The tail-subpaths [strings.Join(pathParts[i:], "/")] for [i = 0, 1, ...];
    the loop of [globMatch] tries them in this order. *)
Fixpoint tailSubpaths (pathParts : list string) : list string :=
  match pathParts with
  | [] => []
  | _ :: rest => Join pathParts "/" :: tailSubpaths rest
  end.

(** [matched, _ := filepath.Match(pattern, name)]: an error counts as no
    match. *)
Definition matchOrFalse (pattern name : string) : bool :=
  default false (Filepath.Match pattern name).

Definition globMatch (path pattern : string) : bool :=
  if Contains pattern "**" then
    let parts := SplitN2 pattern "**" in
    let prefix := nth 0 parts "" in
    let suffix :=
      match parts with
      | _ :: after :: _ => TrimLeft after "/"
      | _ => ""
      end in
    let prefix' := if String.eqb prefix "" then prefix else TrimRight prefix "/" in
    if negb (String.eqb prefix "") && negb (HasPrefix path prefix') then false
    else if negb (String.eqb suffix "") then
      let remaining :=
        if negb (String.eqb prefix' "")
        then TrimLeft (TrimPrefix path prefix') "/"
        else path in
      existsb (matchOrFalse suffix) (tailSubpaths (Split remaining slash))
    else true
  else matchOrFalse pattern path.

Definition matchesAnyGlob (file : string) (globs : list string) : bool :=
  existsb (globMatch file) globs.

(** internal/engine/diff_pattern_forbidden.go *)
Definition filterFilesByGlobs (files globs : list string) : list string :=
  List.filter (fun f => matchesAnyGlob f globs) files.

Fixpoint extractPathSegments (globs : list string) : list string :=
  match globs with
  | [] => []
  | g :: rest =>
      let s := TrimRight (TrimRight g "*") "/" in
      if String.eqb s "" then extractPathSegments rest
      else s :: extractPathSegments rest
  end.

Definition containsSegment (line segment : string) : bool :=
  Contains line (segment ++ "/") || Contains line (segment ++ ".").

(** The loop of [getStringSlice] over a [[]interface{}]. *)
Fixpoint stringElements (key : string) (items : list value) : result (list string) :=
  match items with
  | [] => Ok []
  | VString s :: rest => l <- stringElements key rest ;; Ok (s :: l)
  | _ :: _ => Err (ErrStringElements key)
  end.

Definition getStringSlice (cfg : gmap string value) (key : string)
  : result (list string) :=
  match cfg !! key with
  | None => Err (ErrMissingKey key)
  | Some (VSlice items) => stringElements key items
  | Some (VStrings items) => Ok items
  | Some _ => Err (ErrStringSlice key)
  end.

(** The violation a checker reports for [file], with snippet [snippet]. *)
Definition violationOf (ctx : CheckContext.t) (file snippet : string) : Violation.t :=
  Violation.mk (CheckContext.RuleID ctx) (CheckContext.Severity ctx)
               (CheckContext.RuleDesc ctx) file snippet "".

(** The map from a path to its diff: a later diff of the same path replaces
    an earlier one. *)
Definition buildDiffMap (fileDiffs : list FileDiff) : gmap string FileDiff :=
  fold_left (fun m fd => <[Path fd := fd]> m) fileDiffs ∅.

(** The inner loops of ImportsForbiddenChecker.Check over the added lines of
    one file: a line is reported at its first matching segment, once. *)
Definition importViolations (ctx : CheckContext.t) (file : string)
           (forbidSegments addedLines : list string) : list Violation.t :=
  flat_map (fun addedLine =>
              if existsb (containsSegment addedLine) forbidSegments
              then [violationOf ctx file ("+" ++ addedLine)]
              else [])
           addedLines.

Definition ImportsForbidden_Check (ctx : CheckContext.t) : result (list Violation.t) :=
  fromGlobs <- wrapErr "imports_forbidden"
                 (getStringSlice (CheckContext.RuleConfig ctx) "from_globs") ;;
  forbidGlobs <- wrapErr "imports_forbidden"
                   (getStringSlice (CheckContext.RuleConfig ctx) "forbid_globs") ;;
  let fileDiffs := ParseDiff (CheckContext.DiffContent ctx) in
  let diffMap := buildDiffMap fileDiffs in
  let forbidSegments := extractPathSegments forbidGlobs in
  Ok (flat_map (fun file =>
                  if negb (matchesAnyGlob file fromGlobs) then []
                  else match diffMap !! file with
                       | None => []
                       | Some fd => importViolations ctx file forbidSegments (AddedLines fd)
                       end)
               (CheckContext.ChangedFiles ctx)).

(** ** The pattern checkers and the engine

    Go's [regexp] package is outside the repository: the engine is
    parametrised by the type of compiled expressions, by [regexp.Compile]
    ([None] when the pattern is invalid) and by the method [MatchString]. *)

Section Engine.

Variable Regexp : Type.
Variable regexp_Compile : string -> option Regexp.
Variable MatchString : Regexp -> string -> bool.

(** The loop that compiles the patterns, failing at the first bad one. *)
Fixpoint compileAll (checker : string) (patterns : list string)
  : result (list Regexp) :=
  match patterns with
  | [] => Ok []
  | pattern :: rest =>
      match regexp_Compile pattern with
      | None => Err (ErrWrap checker (ErrInvalidRegex pattern))
      | Some re => compiled <- compileAll checker rest ;; Ok (re :: compiled)
      end
  end.

Definition matchesAnyRegexp (compiled : list Regexp) (line : string) : bool :=
  existsb (fun re => MatchString re line) compiled.

Definition buildFileSet (filesToCheck : list string) : gmap string bool :=
  fold_left (fun m f => <[f := true]> m) filesToCheck ∅.

(** internal/engine/diff_pattern_forbidden.go *)
Definition DiffPatternForbidden_Check (ctx : CheckContext.t)
  : result (list Violation.t) :=
  forbiddenRegexes <- wrapErr "diff_pattern_forbidden"
                        (getStringSlice (CheckContext.RuleConfig ctx) "forbidden_regexes") ;;
  compiled <- compileAll "diff_pattern_forbidden" forbiddenRegexes ;;
  let onlyInPaths :=
    match getStringSlice (CheckContext.RuleConfig ctx) "only_in_paths" with
    | Ok l => l
    | Err _ => []
    end in
  let filesToCheck :=
    match onlyInPaths with
    | [] => CheckContext.ChangedFiles ctx
    | _ :: _ => filterFilesByGlobs (CheckContext.ChangedFiles ctx) onlyInPaths
    end in
  match onlyInPaths, filesToCheck with
  | _ :: _, [] => Ok []
  | _, _ =>
      let fileSet := buildFileSet filesToCheck in
      let fileDiffs := ParseDiff (CheckContext.DiffContent ctx) in
      Ok (flat_map
            (fun fd =>
               if negb (lookup_bool fileSet (Path fd)) then []
               else
                 flat_map (fun addedLine =>
                             if matchesAnyRegexp compiled addedLine
                             then [violationOf ctx (Path fd) ("+" ++ addedLine)]
                             else [])
                          (AddedLines fd))
            fileDiffs)
  end.

(** internal/engine/diff_pattern_requires.go *)
Definition DiffPatternRequires_Check (ctx : CheckContext.t)
  : result (list Violation.t) :=
  requiredRegexes <- wrapErr "diff_pattern_requires"
                       (getStringSlice (CheckContext.RuleConfig ctx) "required_regexes") ;;
  onlyInPaths <- wrapErr "diff_pattern_requires"
                   (getStringSlice (CheckContext.RuleConfig ctx) "only_in_paths") ;;
  match filterFilesByGlobs (CheckContext.ChangedFiles ctx) onlyInPaths with
  | [] => Ok []
  | firstMatched :: _ =>
      compiled <- compileAll "diff_pattern_requires" requiredRegexes ;;
      let fileDiffs := ParseDiff (CheckContext.DiffContent ctx) in
      if existsb (fun fd => existsb (matchesAnyRegexp compiled) (AddedLines fd))
                 fileDiffs
      then Ok []
      else Ok [violationOf ctx firstMatched ""]
  end.

(** internal/engine/checker.go: the interface and the registry *)
Record RuleChecker := mkRuleChecker {
  Check : CheckContext.t -> result (list Violation.t);
  CheckerType : string
}.

Definition RegisterChecker (c : RuleChecker) (registry : gmap string RuleChecker)
  : gmap string RuleChecker :=
  <[CheckerType c := c]> registry.

(** The registry after the package's [init]. *)
Definition Registry : gmap string RuleChecker :=
  RegisterChecker (mkRuleChecker DiffPatternRequires_Check "diff_pattern_requires")
    (RegisterChecker (mkRuleChecker DiffPatternForbidden_Check "diff_pattern_forbidden")
       (RegisterChecker (mkRuleChecker ImportsForbidden_Check "imports_forbidden") ∅)).

(** internal/engine/engine.go *)
Record Engine := NewEngine {
  Rules : list Rule.t;
  Exceptions : list Exception.t
}.

Record EngineResult := mkEngineResult {
  Violations : list Violation.t;
  Errors : Z;
  Warnings : Z
}.

Definition contextOf (rule : Rule.t) (changedFiles : list string)
           (diffContent : string) : CheckContext.t :=
  CheckContext.mk changedFiles diffContent (Rule.Config rule)
                  (Rule.Severity rule) (Rule.ID rule) (Rule.Description rule).

(** The loop of [Run] over the rules: it returns at the first error. *)
Fixpoint runRules (rules : list Rule.t) (changedFiles : list string)
         (diffContent : string) (allViolations : list Violation.t)
  : result (list Violation.t) :=
  match rules with
  | [] => Ok allViolations
  | rule :: rest =>
      match Registry !! Rule.Type' rule with
      | None => Err (ErrUnknownRuleType (Rule.Type' rule) (Rule.ID rule))
      | Some checker =>
          match Check checker (contextOf rule changedFiles diffContent) with
          | Err e => Err (ErrWrap ("checking rule " ++ Rule.ID rule) e)
          | Ok violations =>
              runRules rest changedFiles diffContent (allViolations ++ violations)
          end
      end
  end.

(** An exception matches a violation when the rule is the same and one of
    its paths matches the file; a bad pattern is skipped. *)
Definition isExcepted (v : Violation.t) (exceptions : list Exception.t) : bool :=
  existsb (fun exc =>
             if negb (String.eqb (Exception.RuleID exc) (Violation.RuleID v))
             then false
             else existsb (fun pattern =>
                             match Filepath.Match pattern (Violation.FilePath v) with
                             | None => false
                             | Some matched => matched
                             end)
                          (Exception.Paths exc))
          exceptions.

Definition isExpired (now : Time) (exc : Exception.t) : bool :=
  match Exception.ExpiresAt exc with
  | Some expiresAt => Before expiresAt now
  | None => false
  end.

(** [now] is the value of [time.Now()] read at the start. *)
Definition applyExceptions (now : Time) (e : Engine)
           (violations : list Violation.t) : list Violation.t :=
  let activeExceptions :=
    List.filter (fun exc => negb (isExpired now exc)) (Exceptions e) in
  match activeExceptions with
  | [] => violations
  | _ :: _ => List.filter (fun v => negb (isExcepted v activeExceptions)) violations
  end.

Definition countSeverity (severity : string) (violations : list Violation.t) : Z :=
  fold_left (fun n v =>
               if String.eqb (Violation.Severity v) severity
               then wrap_int (n + 1) else n)
            violations 0%Z.

Definition Run (now : Time) (e : Engine) (changedFiles : list string)
           (diffContent : string) : result EngineResult :=
  allViolations <- runRules (Rules e) changedFiles diffContent [] ;;
  let filtered := applyExceptions now e allViolations in
  Ok (mkEngineResult filtered
                     (countSeverity "error" filtered)
                     (countSeverity "warning" filtered)).

End Engine.

(** ** Go's [float64] and the two functions of [math] the quorum uses *)

Module Float64.

Definition prec : Z := 53.
Definition emax : Z := 1024.

Definition t : Type := spec_float.

Definition mul (x y : t) : t := SFmul prec emax x y.
Definition div (x y : t) : t := SFdiv prec emax x y.

(** The conversion [float64(n)] of an integer: the nearest float, ties to
    even. *)
Definition of_int (n : Z) : t := binary_normalize prec emax n 0 false.

(** The constants [2.0] and [3.0]. *)
Definition two : t := of_int 2.
Definition three : t := of_int 3.

(** math.Ceil: the least integer value not below [x]; zeros, infinities and
    NaN are returned as they are, and a value in (-1, 0) gives -0. *)
Definition Ceil (x : t) : t :=
  match x with
  | S754_finite s m e =>
      if (0 <=? e)%Z then x
      else
        let d := (2 ^ (- e))%Z in
        if s then
          let q := (Z.pos m / d)%Z in
          if (q =? 0)%Z then S754_zero true
          else binary_normalize prec emax (- q) 0 false
        else binary_normalize prec emax ((Z.pos m + d - 1) / d) 0 false
  | _ => x
  end.

(** The integer part of a finite float, towards zero; [None] for an
    infinity and for NaN. *)
Definition truncate (x : t) : option Z :=
  match x with
  | S754_zero _ => Some 0%Z
  | S754_finite s m e =>
      let a := if (0 <=? e)%Z then (Z.pos m * 2 ^ e)%Z
               else (Z.pos m / 2 ^ (- e))%Z in
      Some (if s then (- a)%Z else a)
  | _ => None
  end.

(** The conversion [int(x)]: the value truncated towards zero when it is an
    [int]; otherwise the result depends on the implementation, and
    [indefinite] gives it. *)
Definition to_int (indefinite : t -> Z) (x : t) : Z :=
  match truncate x with
  | Some z =>
      if ((min_int <=? z) && (z <=? max_int))%Z then z
      else wrap_int (indefinite x)
  | None => wrap_int (indefinite x)
  end.

End Float64.

(** ** internal/config: the constitution, proposals and votes

    The records keep the fields that the engine and the governance code read;
    [Constitution.Identity], [Constitution.LLM], [Governance.Exceptions] and
    [Proposal.Change] only matter to the command line and are left out. *)

Module QuorumConfig.
Record t := mk {
  Type' : string;
  Threshold : Float64.t
}.
End QuorumConfig.

Module RoleMember.
Record t := mk { Email : string }.
End RoleMember.

Module Role.
Record t := mk { Members : list RoleMember.t }.
End Role.

Module VoterRef.
Record t := mk { Role : string }.
End VoterRef.

Module RuleOverride.
Record t := mk { Quorum : QuorumConfig.t }.
End RuleOverride.

Module Governance.
Record t := mk {
  Voters : list VoterRef.t;
  Quorum : QuorumConfig.t;
  ForbidSelfApproval : bool;
  AllowVoteChange : bool;
  ProposalTTLDays : Z;
  PerRuleOverrides : gmap string RuleOverride.t
}.
End Governance.

Module Constitution.
Record t := mk {
  Governance : Governance.t;
  Roles : gmap string Role.t
}.
End Constitution.

Module Proposal.
Record t := mk {
  ID : string;
  RuleID : string;
  ProposalType : string;
  Reason : string;
  Impact : string;
  CreatedBy : string;
  CreatedAt : Time;
  Status : string
}.
End Proposal.

Module Vote.
Record t := mk {
  ProposalID : string;
  VoterEmail : string;
  Decision : string;
  Comment : string;
  VotedAt : Time
}.
End Vote.

(** ** internal/governance *)

Module QuorumResult.
Record t := mk {
  Required : Z;
  YesVotes : Z;
  NoVotes : Z;
  TotalEligible : Z;
  Result : string
}.
End QuorumResult.

(** internal/governance/roles.go: the state of the loops is the map [seen]
    and the slice [voters]. *)
Definition addMember (st : gmap string bool * list string) (member : RoleMember.t)
  : gmap string bool * list string :=
  let '(seen, voters) := st in
  if negb (lookup_bool seen (RoleMember.Email member))
  then (<[RoleMember.Email member := true]> seen, voters ++ [RoleMember.Email member])
  else st.

Definition addVoterRef (roles : gmap string Role.t)
           (st : gmap string bool * list string) (voterRef : VoterRef.t)
  : gmap string bool * list string :=
  match roles !! VoterRef.Role voterRef with
  | None => st
  | Some role => fold_left addMember (Role.Members role) st
  end.

Definition GetEligibleVoters (constitution : Constitution.t) : list string :=
  snd (fold_left (addVoterRef (Constitution.Roles constitution))
                 (Governance.Voters (Constitution.Governance constitution))
                 (∅, [])).

Module TallyResult.
Record t := mk {
  ProposalID : string;
  RuleID : string;
  EligibleVoters : list string;
  Votes : list Vote.t;
  QuorumResult : QuorumResult.t;
  QuorumConfig : QuorumConfig.t;
  IsExpired : bool
}.
End TallyResult.

Section Quorum.

(** What [int(x)] gives on this platform for a float that is no [int]. *)
Variable indefinite : Float64.t -> Z.

(** internal/governance/quorum.go; [/] on [int] truncates towards zero. *)
Definition calculateRequired (qc : QuorumConfig.t) (totalEligible : Z) : Z :=
  if String.eqb (QuorumConfig.Type' qc) "majority" then
    wrap_int (Z.quot totalEligible 2 + 1)
  else if String.eqb (QuorumConfig.Type' qc) "two_thirds" then
    Float64.to_int indefinite
      (Float64.Ceil
         (Float64.div (Float64.mul (Float64.of_int totalEligible) Float64.two)
                      Float64.three))
  else if String.eqb (QuorumConfig.Type' qc) "unanimous" then
    totalEligible
  else if String.eqb (QuorumConfig.Type' qc) "custom" then
    Float64.to_int indefinite
      (Float64.Ceil
         (Float64.mul (Float64.of_int totalEligible) (QuorumConfig.Threshold qc)))
  else
    wrap_int (Z.quot totalEligible 2 + 1).

Definition CalculateQuorum (qc : QuorumConfig.t)
           (totalEligible yesVotes noVotes : Z) : QuorumResult.t :=
  let required := calculateRequired qc totalEligible in
  let result :=
    if (yesVotes >=? required)%Z then "ACCEPTED"
    else if (noVotes >? wrap_int (totalEligible - required))%Z then "REJECTED"
    else "PENDING" in
  QuorumResult.mk required yesVotes noVotes totalEligible result.

(** internal/governance/tally.go *)

(** [time.Hour], in nanoseconds. *)
Definition Hour : Z := 3600000000000.

(** The whole days a [time.Duration] (an [int64] of nanoseconds) can hold. *)
Definition max_ttl_days : Z := 106751.

(** [time.Duration(ttlDays) * 24 * time.Hour], computed in [int64]. *)
Definition ttlDuration (ttlDays : Z) : Z :=
  wrap_int (wrap_int (ttlDays * 24) * Hour).

(** [t.Add(d)] *)
Definition Add (t : Time) (d : Z) : Time := (t + d)%Z.

(** The loop that counts the votes of eligible voters. *)
Definition countVote (eligibleSet : gmap string bool) (counts : Z * Z)
           (vote : Vote.t) : Z * Z :=
  let '(yesVotes, noVotes) := counts in
  if negb (lookup_bool eligibleSet (Vote.VoterEmail vote)) then counts
  else if String.eqb (Vote.Decision vote) "yes" then (wrap_int (yesVotes + 1), noVotes)
  else if String.eqb (Vote.Decision vote) "no" then (yesVotes, wrap_int (noVotes + 1))
  else counts.

(** [now] is the value of [time.Now()]. *)
Definition ComputeTally (now : Time) (proposal : Proposal.t)
           (votes : list Vote.t) (constitution : Constitution.t) : TallyResult.t :=
  let eligibleVoters := GetEligibleVoters constitution in
  let eligibleSet :=
    fold_left (fun m email => <[email := true]> m) eligibleVoters ∅ in
  let governance := Constitution.Governance constitution in
  let qc :=
    match Governance.PerRuleOverrides governance !! Proposal.RuleID proposal with
    | Some override => RuleOverride.Quorum override
    | None => Governance.Quorum governance
    end in
  let '(yesVotes, noVotes) := fold_left (countVote eligibleSet) votes (0%Z, 0%Z) in
  let ttlDays := Governance.ProposalTTLDays governance in
  let isExpired :=
    if (ttlDays >? 0)%Z
    then After now (Add (Proposal.CreatedAt proposal) (ttlDuration ttlDays))
    else false in
  let quorumResult :=
    CalculateQuorum qc (Z.of_nat (length eligibleVoters)) yesVotes noVotes in
  let quorumResult' :=
    if isExpired
    then QuorumResult.mk (QuorumResult.Required quorumResult)
                         (QuorumResult.YesVotes quorumResult)
                         (QuorumResult.NoVotes quorumResult)
                         (QuorumResult.TotalEligible quorumResult)
                         "EXPIRED"
    else quorumResult in
  TallyResult.mk (Proposal.ID proposal) (Proposal.RuleID proposal)
                eligibleVoters votes quorumResult' qc isExpired.

End Quorum.

(** * Definitions that follow the specification

    They are what the functions above are compared with. *)

(** ** Eligible voters *)

(** The value of [seen] agrees with the slice built so far. *)
Definition seen_agrees (st : gmap string bool * list string) : Prop :=
  forall email, lookup_bool (fst st) email = true <-> email ∈ snd st.

(** What the specification says: go through the emails in order and keep an
    email when it has not been kept before. *)
Fixpoint dedup_onto (kept emails : list string) : list string :=
  match emails with
  | [] => kept
  | email :: rest =>
      if bool_decide (email ∈ kept) then dedup_onto kept rest
      else dedup_onto (kept ++ [email]) rest
  end.

(** The member emails of the declared voter roles, in order, unknown roles
    skipped. *)
Definition voterEmails (constitution : Constitution.t) : list string :=
  flat_map (fun voterRef =>
              match Constitution.Roles constitution !! VoterRef.Role voterRef with
              | Some role => map RoleMember.Email (Role.Members role)
              | None => []
              end)
           (Governance.Voters (Constitution.Governance constitution)).


(** ** Exceptions *)

(** An exception is active at [now] when it has no expiry or its expiry is not
    before [now]. *)
Definition active_at (now : Time) (exc : Exception.t) : Prop :=
  match Exception.ExpiresAt exc with
  | None => True
  | Some expiresAt => (now <= expiresAt)%Z
  end.

(** The stricter reading: an expiry has to be after [now]. *)
Definition active_strictly_at (now : Time) (exc : Exception.t) : Prop :=
  match Exception.ExpiresAt exc with
  | None => True
  | Some expiresAt => (now < expiresAt)%Z
  end.

(** The exception names the rule of the violation and one of its paths
    matches the file of the violation under [filepath.Match]. *)
Definition covers (exc : Exception.t) (v : Violation.t) : Prop :=
  Exception.RuleID exc = Violation.RuleID v /\
  exists pattern,
    In pattern (Exception.Paths exc) /\
    Filepath.Match pattern (Violation.FilePath v) = Some true.

(** The rule [domain_no_infra] reports [domain/legacy/OldAdapter.kt]; the
    exception below expires at the very instant of the check. *)
Definition boundaryException : Exception.t :=
  Exception.mk "exc-1" "domain_no_infra" ["domain/legacy/*.kt"] "legacy" "a@x.io"
               0%Z (Some 100%Z).

Definition legacyViolation : Violation.t :=
  Violation.mk "domain_no_infra" "error" "no infra in domain"
               "domain/legacy/OldAdapter.kt" "+import infra.Db" "".

(** ** Rule configuration *)

(** A value that [getStringSlice] accepts: a [[]string], or a
    [[]interface{}] of strings. *)
Definition isStringSlice (v : value) : bool :=
  match v with
  | VStrings _ => true
  | VSlice items =>
      forallb (fun item => match item with VString _ => true | _ => false end) items
  | _ => false
  end.

(** The context of a rule whose configuration has lost the key [key]. *)
Definition withoutKey (key : string) (ctx : CheckContext.t) : CheckContext.t :=
  CheckContext.mk (CheckContext.ChangedFiles ctx) (CheckContext.DiffContent ctx)
                  (delete key (CheckContext.RuleConfig ctx))
                  (CheckContext.Severity ctx) (CheckContext.RuleID ctx)
                  (CheckContext.RuleDesc ctx).

(** The violations of the forbidden patterns in the added lines of one file:
    one for each line that some pattern matches. *)
Definition forbiddenIn {Regexp : Type} (MatchString : Regexp -> string -> bool)
           (compiled : list Regexp) (ctx : CheckContext.t) (fd : FileDiff)
  : list Violation.t :=
  map (fun addedLine => violationOf ctx (Path fd) ("+" ++ addedLine))
      (List.filter (matchesAnyRegexp Regexp MatchString compiled) (AddedLines fd)).

(** The diff that [diffMap] holds for [file]: the last one of that path. *)
Definition lastDiffOf (file : string) (fileDiffs : list FileDiff) : option FileDiff :=
  List.find (fun fd => String.eqb (Path fd) file) (rev fileDiffs).

(** A glob without its trailing stars and, after that, its trailing
    slashes. *)
Definition stripGlob (glob : string) : string :=
  TrimRight (TrimRight glob "*") "/".

(** [sub] occurs in [s]. *)
Definition substring (sub s : string) : Prop :=
  exists before after, s = (before ++ sub ++ after)%string.

(** ** A small expression engine for the examples

    Patterns are texts without an opening parenthesis and match the lines
    that contain them; on the patterns used below (words, and the lone
    parenthesis that Go's [regexp.Compile] rejects) it agrees with Go. *)
Definition literal_Compile (pattern : string) : option string :=
  if Contains pattern "(" then None else Some pattern.

Definition literal_MatchString (re line : string) : bool := Contains line re.

(** ** Errors of the engine *)

(** The error of a rule, if it has one: its type is not registered, or its
    checker fails. *)
Definition ruleError {Regexp : Type} (regexp_Compile : string -> option Regexp)
           (MatchString : Regexp -> string -> bool)
           (changedFiles : list string) (diffContent : string)
           (rule : Rule.t) : option error :=
  match Registry Regexp regexp_Compile MatchString !! Rule.Type' rule with
  | None => Some (ErrUnknownRuleType (Rule.Type' rule) (Rule.ID rule))
  | Some checker =>
      match Check checker (contextOf rule changedFiles diffContent) with
      | Err e => Some (ErrWrap ("checking rule " ++ Rule.ID rule) e)
      | Ok _ => None
      end
  end.

(** When a rule makes the run fail: its type is unknown; or a key that its
    checker requires is missing or is no slice of strings; or a pattern does
    not compile, which diff_pattern_requires only finds out when a changed
    file matches [only_in_paths]. *)
Definition ruleFails {Regexp : Type} (regexp_Compile : string -> option Regexp)
           (changedFiles : list string) (rule : Rule.t) : Prop :=
  let cfg := Rule.Config rule in
  let bad key := is_Err (getStringSlice cfg key) = true in
  let badRegex key :=
    exists patterns pattern,
      getStringSlice cfg key = Ok patterns /\
      In pattern patterns /\ regexp_Compile pattern = None in
  if String.eqb (Rule.Type' rule) "imports_forbidden" then
    bad "from_globs" \/ bad "forbid_globs"
  else if String.eqb (Rule.Type' rule) "diff_pattern_forbidden" then
    bad "forbidden_regexes" \/ badRegex "forbidden_regexes"
  else if String.eqb (Rule.Type' rule) "diff_pattern_requires" then
    bad "required_regexes" \/ bad "only_in_paths" \/
    (badRegex "required_regexes" /\
     exists paths,
       getStringSlice cfg "only_in_paths" = Ok paths /\
       filterFilesByGlobs changedFiles paths <> [])
  else True.

(** ** Example rules *)

(** A diff_pattern_forbidden rule whose [only_in_paths] is a string, not a
    list. *)
Definition ruleWithMalformedPaths : Rule.t :=
  Rule.mk "no_todo" "no TODO in new code" "diff_pattern_forbidden"
          (<["forbidden_regexes" := VSlice [VString "TODO"]]>
             (<["only_in_paths" := VString "src"]> ∅))
          "warning".

(** A diff_pattern_requires rule whose pattern does not compile. *)
Definition ruleWithBadRegex : Rule.t :=
  Rule.mk "needs_test" "changes need a test" "diff_pattern_requires"
          (<["required_regexes" := VSlice [VString "("]]>
             (<["only_in_paths" := VSlice [VString "*.md"]]> ∅))
          "error".

Definition todoDiffBody : string :=
  ("diff --git a/main.go b/main.go" ++ String newline
   ("--- a/main.go" ++ String newline
   ("+++ b/main.go" ++ String newline
   ("@@ -1 +1,2 @@" ++ String newline
   (" package main" ++ String newline
    "+// TODO later")))))%string.

Definition todoDiff : string := (todoDiffBody ++ String newline "")%string.

Definition importDiff : string :=
  ("diff --git a/domain/service/User.kt b/domain/service/User.kt" ++ String newline
   ("--- a/domain/service/User.kt" ++ String newline
   ("+++ b/domain/service/User.kt" ++ String newline
   ("@@ -1,2 +1,4 @@" ++ String newline
   (" package domain.service" ++ String newline
   ("+import com.myapp.infra.database.UserRepository" ++ String newline
    "+import com.myapp.domain.model.User"))))))%string.

(** An imports_forbidden rule: the domain must not import the
    infrastructure. *)
Definition ruleDomainNoInfra : Rule.t :=
  Rule.mk "domain_no_infra" "no infra in domain" "imports_forbidden"
          (<["from_globs" := VSlice [VString "domain/**"]]>
             (<["forbid_globs" := VSlice [VString "infra/**"]]> ∅))
          "error".

(** A diff_pattern_requires rule: a change of a Go file needs a test. *)
Definition ruleNeedsTest : Rule.t :=
  Rule.mk "needs_test" "changes need a test" "diff_pattern_requires"
          (<["required_regexes" := VStrings ["func Test"]]>
             (<["only_in_paths" := VStrings ["*.md"; "*.go"]]> ∅))
          "error".

(** ** Quorum arithmetic *)

(** The least integer that is not below [a / b], for a positive [b]. *)
Definition ceiling_quotient (a b : Z) : Z := (- ((- a) / b))%Z.

(** The end of [binary_round_aux]: the second shift and the result. *)
Definition round_finish (m e : Z) : spec_float :=
  let '(mrs, e') := shr_fexp Float64.prec Float64.emax m e loc_Exact in
  match shr_m mrs with
  | Z0 => S754_zero false
  | Zpos m' =>
      if (e' <=? Float64.emax - Float64.prec)%Z then S754_finite false m' e'
      else S754_infinity false
  | _ => S754_nan
  end.

(** ** The segments of the specification *)

(** What the specification says of a forbidden glob: strip its trailing
    stars and slashes. *)
Definition stripTrailing (glob : string) : string := TrimRight glob "*/".

(** A glob that ends, at most, in slashes followed by stars, as [infra/**]
    and [data/models/*] do: a directory, slashes, stars. *)
Definition slashesThenStars (glob : string) : Prop :=
  exists dir slashes stars,
    glob = (dir ++ slashes ++ stars)%string /\
    TrimLeft slashes "/" = "" /\ TrimLeft stars "*" = "" /\
    stripTrailing dir = dir.

(** ** Inputs on which the imports_forbidden checker is tried *)

(** A rule whose forbidden glob is all stars, and one whose forbidden glob
    has a star between its slashes. *)
Definition ruleDomainNoStars : Rule.t :=
  Rule.mk "domain_no_stars" "nothing from anywhere" "imports_forbidden"
          (<["from_globs" := VSlice [VString "domain/**"]]>
             (<["forbid_globs" := VSlice [VString "**"]]> ∅))
          "error".

Definition ruleDomainNoInfraNested : Rule.t :=
  Rule.mk "domain_no_infra" "no infra in domain" "imports_forbidden"
          (<["from_globs" := VSlice [VString "domain/**"]]>
             (<["forbid_globs" := VSlice [VString "infra/*/*"]]> ∅))
          "error".

(** A diff with two sections for one file: the import is added in the
    first. *)
Definition twoSectionDiff : string :=
  ("diff --git a/domain/service/User.kt b/domain/service/User.kt" ++ String newline
   ("+++ b/domain/service/User.kt" ++ String newline
   ("+import infra.Db" ++ String newline
   ("diff --git a/domain/service/User.kt b/domain/service/User.kt" ++ String newline
   ("+++ b/domain/service/User.kt" ++ String newline
    "+class User")))))%string.

(** A diff that adds an import written with slashes. *)
Definition slashImportDiff : string :=
  ("diff --git a/domain/service/User.kt b/domain/service/User.kt" ++ String newline
   ("+++ b/domain/service/User.kt" ++ String newline
    "+import infra/db/Repo"))%string.

(** * More of the code

    The functions below are the neighbours of the ones above in the same
    source files, and their callers. *)

(** ** internal/governance/roles.go *)

(** [member.Email == email] for some member of the role: the inner loop of
    [IsVoter] and of [GetUserRoles]. *)
Definition hasMember (role : Role.t) (email : string) : bool :=
  existsb (fun member => String.eqb (RoleMember.Email member) email)
          (Role.Members role).

Definition IsVoter (constitution : Constitution.t) (email : string) : bool :=
  existsb (fun voterRef =>
             match Constitution.Roles constitution !! VoterRef.Role voterRef with
             | None => false
             | Some role => hasMember role email
             end)
          (Governance.Voters (Constitution.Governance constitution)).

(** [GetUserRoles] ranges over the map of roles, and Go does not fix the
    order of that: [rangeOrder] is the order of one run, some enumeration of
    the entries of the map. *)
Definition GetUserRoles (rangeOrder : gmap string Role.t -> list (string * Role.t))
           (constitution : Constitution.t) (email : string) : list string :=
  flat_map (fun entry =>
              if hasMember (snd entry) email then [fst entry] else [])
           (rangeOrder (Constitution.Roles constitution)).

(** The votes of [decision] that [ComputeTally] counts: those of eligible
    voters. *)
Definition countedVotes (constitution : Constitution.t) (decision : string)
           (votes : list Vote.t) : list Vote.t :=
  List.filter (fun vote =>
                 bool_decide (Vote.VoterEmail vote ∈ GetEligibleVoters constitution)
                 && String.eqb (Vote.Decision vote) decision)
              votes.

(** A constitution with two roles that share a member, for the examples. *)
Definition exampleConstitution : Constitution.t :=
  Constitution.mk
    (Governance.mk [VoterRef.mk "techlead"; VoterRef.mk "ghost"; VoterRef.mk "architect"]
                   (QuorumConfig.mk "majority" (S754_zero false))
                   false false 30 ∅)
    (<["techlead" := Role.mk [RoleMember.mk "ann@x.io"; RoleMember.mk "bob@x.io"]]>
       (<["architect" := Role.mk [RoleMember.mk "bob@x.io"; RoleMember.mk "cy@x.io"]]>
          (<["intern" := Role.mk [RoleMember.mk "dan@x.io"]]> ∅))).

(** ** internal/engine/diff.go: the sections of a diff

    What [ParseDiff] computes, told by sections: a section is made of the
    lines between one line that starts with [diff --git ] and the next. *)

Definition isHeader (line : string) : bool := HasPrefix line "diff --git ".

Fixpoint untilHeader (lines : list string) : list string :=
  match lines with
  | [] => []
  | line :: rest => if isHeader line then [] else line :: untilHeader rest
  end.

Fixpoint sections (lines : list string) : list (list string) :=
  match lines with
  | [] => []
  | line :: rest =>
      if isHeader line then untilHeader rest :: sections rest else sections rest
  end.

(** The path of a section is taken from its last [+++ b/] line. *)
Definition sectionPath (path : string) (section : list string) : string :=
  fold_left (fun path line =>
               if HasPrefix line "+++ b/" then TrimPrefix line "+++ b/" else path)
            section path.

Definition isAdded (line : string) : bool :=
  HasPrefix line "+" && negb (HasPrefix line "+++ b/").

Definition sectionAdded (section : list string) : list string :=
  map (drop_bytes 1) (List.filter isAdded section).

Definition fileOfSection (section : list string) : FileDiff :=
  mkFileDiff (sectionPath "" section) (sectionAdded section).

(** A file under construction, after the lines of a section. *)
Definition extendFile (cur : FileDiff) (section : list string) : FileDiff :=
  mkFileDiff (sectionPath (Path cur) section) (AddedLines cur ++ sectionAdded section).

(** ** internal/engine: what the checkers and the engine report *)

(** A violation that carries the rule of the context and names one of its
    changed files. *)
Definition stamped (ctx : CheckContext.t) (v : Violation.t) : Prop :=
  exists file snippet,
    v = violationOf ctx file snippet /\ In file (CheckContext.ChangedFiles ctx).

(** The number of violations of a severity. *)
Definition severityCount (severity : string) (violations : list Violation.t) : Z :=
  Z.of_nat (length (List.filter (fun v => String.eqb (Violation.Severity v) severity)
                                violations)).

(** ** Patterns without special characters *)

(** The bytes [filepath.Match] gives a meaning to (on Unix). *)
Definition isMeta (c : ascii) : bool :=
  Ascii.eqb c "*" || Ascii.eqb c "?" || Ascii.eqb c "[" || Ascii.eqb c "\".

Fixpoint literal (pattern : string) : bool :=
  match pattern with
  | EmptyString => true
  | String c rest => negb (isMeta c) && literal rest
  end.

(** ** The files a diff_pattern_forbidden rule looks at *)

(** A changed file that [only_in_paths] lets through; an empty list lets
    every file through. *)
Definition inScope (changedFiles onlyInPaths : list string) (path : string) : bool :=
  bool_decide (path ∈ changedFiles) &&
  match onlyInPaths with
  | [] => true
  | _ :: _ => matchesAnyGlob path onlyInPaths
  end.

(** A diff_pattern_forbidden rule for the Go files. *)
Definition ruleNoTodoInGo : Rule.t :=
  Rule.mk "no_todo" "no TODO in new code" "diff_pattern_forbidden"
          (<["forbidden_regexes" := VStrings ["TODO"]]>
             (<["only_in_paths" := VSlice [VString "*.go"]]> ∅))
          "warning".

(** ** internal/engine, [MetaChecker]: changes of the governance files

    The checker reads the directory of the proposals.  The operating system
    and the functions of the standard library that are not embedded are
    parameters: [os.ReadDir] (the entries, or an error that is or is not
    "does not exist"), [os.ReadFile] ([None] when it fails),
    [filepath.Join] and [strings.ToLower]. *)

Definition protectedFiles : list string :=
  [".agreements/constitution.yml"; ".agreements/rules.yml"].

(** [filepath.ToSlash] on Unix, where the separator is the slash. *)
Definition ToSlash (path : string) : string := path.

Definition isProtectedFile (file : string) : bool :=
  let normalized := ToSlash file in
  existsb (fun p => String.eqb normalized p) protectedFiles.

(** The loop of [filepath.Ext], from the last byte backwards, on the
    reversed path: [seen] is the suffix passed so far. *)
Fixpoint extLoop (reversed : list ascii) (seen : string) : string :=
  match reversed with
  | [] => ""
  | c :: before =>
      if Ascii.eqb c "/" then ""
      else if Ascii.eqb c "." then String c seen
      else extLoop before (String c seen)
  end.

(** [filepath.Ext(path)] *)
Definition Ext (path : string) : string :=
  extLoop (rev (list_ascii_of_string path)) "".

Module DirEntry.
Record t := mk {
  Name : string;
  IsDir : bool
}.
End DirEntry.

Inductive readDir (PathError : Type) :=
| DirEntries (entries : list DirEntry.t)
| DirNotExist (err : PathError)     (* os.IsNotExist(err) *)
| DirError (err : PathError).
Arguments DirEntries {PathError} entries.
Arguments DirNotExist {PathError} err.
Arguments DirError {PathError} err.

(** A Go result pair [(v, err)] whose error comes from the system. *)
Inductive attempt (PathError A : Type) :=
| Success (v : A)
| Failure (err : PathError).
Arguments Success {PathError A} v.
Arguments Failure {PathError A} err.

Section MetaChecker.

Variable PathError : Type.
Variable ReadDir : string -> readDir PathError.
Variable ReadFile : string -> option string.
Variable Join : string -> string -> string.
Variable ToLower : string -> string.

(** The body of the loop of [hasAcceptedProposal]: does this entry hold an
    accepted proposal? *)
Definition isAcceptedEntry (proposalsDir : string) (entry : DirEntry.t) : bool :=
  if DirEntry.IsDir entry then false
  else
    let ext := ToLower (Ext (DirEntry.Name entry)) in
    if negb (String.eqb ext ".yml") && negb (String.eqb ext ".yaml") then false
    else
      match ReadFile (Join proposalsDir (DirEntry.Name entry)) with
      | None => false
      | Some content => Contains content "status: accepted"
      end.

Definition hasAcceptedProposal (proposalsDir : string) : attempt PathError bool :=
  match ReadDir proposalsDir with
  | DirNotExist _ => Success false
  | DirError err => Failure err
  | DirEntries entries => Success (existsb (isAcceptedEntry proposalsDir) entries)
  end.

Definition metaViolation (file : string) : Violation.t :=
  Violation.mk "meta_check" "error"
               ("Changes to " ++ file ++ " require an accepted proposal")
               file "" "".

(** The loop of [MetaChecker.Check] over the changed files. *)
Fixpoint metaLoop (changedFiles : list string) (proposalsDir : string)
         (violations : list Violation.t) : attempt PathError (list Violation.t) :=
  match changedFiles with
  | [] => Success violations
  | file :: rest =>
      if negb (isProtectedFile file) then metaLoop rest proposalsDir violations
      else
        match hasAcceptedProposal proposalsDir with
        | Failure err => Failure err
        | Success hasProposal =>
            metaLoop rest proposalsDir
                     (if negb hasProposal then violations ++ [metaViolation file]
                      else violations)
        end
  end.

Definition MetaChecker_Check (changedFiles : list string) (proposalsDir : string)
  : attempt PathError (list Violation.t) :=
  metaLoop changedFiles proposalsDir [].

End MetaChecker.

(** ** internal/inbox/inbox.go *)

(** [t.Sub(u)]: the duration between two instants, which saturates at the
    ends of [int64]. *)
Definition Sub (t u : Time) : Z := Z.max min_int (Z.min max_int (t - u)).

Module InboxItem.
Record t := mk {
  Proposal : Proposal.t;
  Age : Z;
  IsOld : bool
}.
End InboxItem.

(** [7 * 24 * time.Hour] *)
Definition oldThreshold : Z := 7 * 24 * Hour.

Definition isEligibleVoter (constitution : Constitution.t) (userEmail : string) : bool :=
  existsb (fun voterRef =>
             match Constitution.Roles constitution !! VoterRef.Role voterRef with
             | None => false
             | Some role =>
                 existsb (fun member => String.eqb (RoleMember.Email member) userEmail)
                         (Role.Members role)
             end)
          (Governance.Voters (Constitution.Governance constitution)).

(** A nil pointer in the slice of votes is [None]. *)
Definition hasVoted (votes : list (option Vote.t)) (userEmail : string) : bool :=
  existsb (fun v => match v with
                    | Some vote => String.eqb (Vote.VoterEmail vote) userEmail
                    | None => false
                    end)
          votes.

(** The body of the loop of [GetInbox]: the item of a proposal, if it gets
    one.  [votes[p.ID]] is the nil slice when the map has no such key. *)
Definition inboxItem (now : Time) (votes : gmap string (list (option Vote.t)))
           (constitution : Constitution.t) (userEmail : string)
           (sinceLastCheck : option Time) (p : option Proposal.t)
  : option InboxItem.t :=
  match p with
  | None => None
  | Some p =>
      if negb (String.eqb (Proposal.Status p) "proposed") then None
      else
        let ttlDays :=
          Governance.ProposalTTLDays (Constitution.Governance constitution) in
        if (ttlDays >? 0)%Z && (Sub now (Proposal.CreatedAt p) >? ttlDuration ttlDays)%Z
        then None
        else if match sinceLastCheck with
                | Some since => negb (After (Proposal.CreatedAt p) since)
                | None => false
                end
        then None
        else if hasVoted (default [] (votes !! Proposal.ID p)) userEmail then None
        else
          let age := Sub now (Proposal.CreatedAt p) in
          Some (InboxItem.mk p age (age >? oldThreshold)%Z)
  end.

(** [GetInbox]; [None] is the error "constitution is nil", and [now] is the
    value of [time.Now()]. *)
Definition GetInbox (now : Time) (proposals : list (option Proposal.t))
           (votes : gmap string (list (option Vote.t)))
           (constitution : option Constitution.t) (userEmail : string)
           (sinceLastCheck : option Time) : option (list InboxItem.t) :=
  match constitution with
  | None => None
  | Some constitution =>
      if negb (isEligibleVoter constitution userEmail) then Some []
      else
        Some (flat_map (fun p =>
                          match inboxItem now votes constitution userEmail
                                          sinceLastCheck p with
                          | Some item => [item]
                          | None => []
                          end)
                       proposals)
  end.

(** The example constitution with proposals that live for a week, and a
    proposal, for the examples. *)
Definition weekConstitution : Constitution.t :=
  Constitution.mk
    (Governance.mk (Governance.Voters (Constitution.Governance exampleConstitution))
                   (Governance.Quorum (Constitution.Governance exampleConstitution))
                   false false 7 ∅)
    (Constitution.Roles exampleConstitution).

Definition exampleProposal : Proposal.t :=
  Proposal.mk "p1" "no_todo" "modify" "too noisy" "" "ann@x.io" 1000%Z "proposed".

(** ** internal/config/validation.go

    A validator collects messages in [errs] and returns an error made of
    them when there is one.  A message is kept here as the constructor that
    tells which [fmt.Sprintf] wrote it, with its arguments; the error of a
    validator is the list of its messages, and [None] is the nil error. *)

(** [validSeverities[s]] and [validDecisions[s]] *)
Definition validSeverities (severity : string) : bool :=
  String.eqb severity "error" || String.eqb severity "warning".

Definition validDecisions (decision : string) : bool :=
  String.eqb decision "yes" || String.eqb decision "no".

Module RulesFile.
Record t := mk { Rules : list Rule.t }.
End RulesFile.

Inductive ruleMessage :=
| RuleIDEmpty (i : nat)
| RuleIDDuplicated (i : nat) (id : string)
| RuleDescriptionEmpty (i : nat)
| RuleTypeEmpty (i : nat)
| RuleSeverityEmpty (i : nat)
| RuleSeverityInvalid (i : nat) (severity : string).

Inductive validationError (message : Type) :=
| IsNil                                  (* errors.New("... is nil") *)
| ValidationFailed (errs : list message).
Arguments IsNil {message}.
Arguments ValidationFailed {message} errs.

(** [if len(errs) > 0 { return fmt.Errorf(...) }; return nil] *)
Definition failWith {message : Type} (errs : list message)
  : option (validationError message) :=
  match errs with
  | [] => None
  | _ :: _ => Some (ValidationFailed errs)
  end.

(** One round of the loop of [ValidateRules]; the state is the map
    [seenIDs] and the slice [errs]. *)
Definition validateRule (st : gmap string bool * list ruleMessage)
           (indexed : nat * Rule.t) : gmap string bool * list ruleMessage :=
  let '(seenIDs, errs) := st in
  let '(i, rule) := indexed in
  let '(seenIDs, errs) :=
    if String.eqb (Rule.ID rule) "" then (seenIDs, errs ++ [RuleIDEmpty i])
    else if lookup_bool seenIDs (Rule.ID rule)
         then (seenIDs, errs ++ [RuleIDDuplicated i (Rule.ID rule)])
         else (<[Rule.ID rule := true]> seenIDs, errs) in
  let errs :=
    if String.eqb (Rule.Description rule) "" then errs ++ [RuleDescriptionEmpty i]
    else errs in
  let errs :=
    if String.eqb (Rule.Type' rule) "" then errs ++ [RuleTypeEmpty i] else errs in
  let errs :=
    if String.eqb (Rule.Severity rule) "" then errs ++ [RuleSeverityEmpty i]
    else if negb (validSeverities (Rule.Severity rule))
         then errs ++ [RuleSeverityInvalid i (Rule.Severity rule)]
         else errs in
  (seenIDs, errs).

(** The rules with their indices, as [for i, rule := range] gives them. *)
Definition indexed {A : Type} (l : list A) : list (nat * A) :=
  combine (seq 0 (length l)) l.

Definition ValidateRules (r : option RulesFile.t)
  : option (validationError ruleMessage) :=
  match r with
  | None => Some IsNil
  | Some r =>
      failWith (snd (fold_left validateRule (indexed (RulesFile.Rules r)) (∅, [])))
  end.

(** The zero [time.Time], January 1 of the year 1, 00:00 UTC, as an instant:
    instants are counted from the Unix epoch. *)
Definition zeroTime : Time := (-62135596800 * 1000000000)%Z.

Definition IsZero (t : Time) : bool := (t =? zeroTime)%Z.

Inductive voteMessage :=
| VoteProposalIDEmpty
| VoteVoterEmailEmpty
| VoteDecisionEmpty
| VoteDecisionInvalid (decision : string)
| VoteVotedAtZero.

Definition ValidateVote (v : option Vote.t) : option (validationError voteMessage) :=
  match v with
  | None => Some IsNil
  | Some v =>
      let errs := [] in
      let errs :=
        if String.eqb (Vote.ProposalID v) "" then errs ++ [VoteProposalIDEmpty] else errs in
      let errs :=
        if String.eqb (Vote.VoterEmail v) "" then errs ++ [VoteVoterEmailEmpty] else errs in
      let errs :=
        if String.eqb (Vote.Decision v) "" then errs ++ [VoteDecisionEmpty]
        else if negb (validDecisions (Vote.Decision v))
             then errs ++ [VoteDecisionInvalid (Vote.Decision v)]
             else errs in
      let errs := if IsZero (Vote.VotedAt v) then errs ++ [VoteVotedAtZero] else errs in
      failWith errs
  end.

Inductive exceptionMessage :=
| ExceptionIDEmpty
| ExceptionRuleIDEmpty
| ExceptionPathsEmpty
| ExceptionReasonEmpty
| ExceptionCreatedByEmpty
| ExceptionCreatedAtZero
| ExceptionExpiresBeforeCreated.

Definition ValidateException (e : option Exception.t)
  : option (validationError exceptionMessage) :=
  match e with
  | None => Some IsNil
  | Some e =>
      let errs := [] in
      let errs := if String.eqb (Exception.ID e) "" then errs ++ [ExceptionIDEmpty] else errs in
      let errs :=
        if String.eqb (Exception.RuleID e) "" then errs ++ [ExceptionRuleIDEmpty] else errs in
      let errs :=
        if Nat.eqb (length (Exception.Paths e)) 0 then errs ++ [ExceptionPathsEmpty]
        else errs in
      let errs :=
        if String.eqb (Exception.Reason e) "" then errs ++ [ExceptionReasonEmpty] else errs in
      let errs :=
        if String.eqb (Exception.CreatedBy e) "" then errs ++ [ExceptionCreatedByEmpty]
        else errs in
      let errs :=
        if IsZero (Exception.CreatedAt e) then errs ++ [ExceptionCreatedAtZero] else errs in
      let errs :=
        match Exception.ExpiresAt e with
        | Some expiresAt =>
            if negb (IsZero expiresAt) && Before expiresAt (Exception.CreatedAt e)
            then errs ++ [ExceptionExpiresBeforeCreated]
            else errs
        | None => errs
        end in
      failWith errs
  end.

(** A rule that [ValidateRules] has nothing to say about, given the IDs seen
    before it. *)
Definition ruleInOrder (seenIDs : gmap string bool) (rule : Rule.t) : Prop :=
  Rule.ID rule <> "" /\ lookup_bool seenIDs (Rule.ID rule) = false /\
  Rule.Description rule <> "" /\ Rule.Type' rule <> "" /\
  validSeverities (Rule.Severity rule) = true.

(** A constitution whose only voter role is not defined: nobody can vote. *)
Definition ghostConstitution : Constitution.t :=
  Constitution.mk
    (Governance.mk [VoterRef.mk "ghost"]
                   (QuorumConfig.mk "unanimous" (S754_zero false))
                   false false 0 ∅)
    (<["intern" := Role.mk [RoleMember.mk "dan@x.io"]]> ∅).

(** ** internal/cli/helpers.go: the order of the arguments *)

(** The flags that [reorderArgs] knows to take no value. *)
Definition isBooleanFlag (name : string) : bool :=
  negb (negb (String.eqb name "yes") && negb (String.eqb name "no") &&
        negb (String.eqb name "help") && negb (String.eqb name "json") &&
        negb (String.eqb name "llm") && negb (String.eqb name "force") &&
        negb (String.eqb name "notify") && negb (String.eqb name "since-last-check") &&
        negb (String.eqb name "quiet") && negb (String.eqb name "no-fetch")).

(** The flag [arg] takes the argument [next] as its value. *)
Definition takesValue (arg next : string) : bool :=
  negb (HasPrefix next "-") && Bool.eqb (Contains arg "=") false &&
  negb (isBooleanFlag (TrimLeft arg "-")).

(** The loop of [reorderArgs] over what is left of [args], with the slices
    [flags] and [positional]; a flag with its value takes two arguments. *)
Fixpoint reorderLoop (args flags positional : list string) : list string :=
  match args with
  | [] => flags ++ positional
  | arg :: rest =>
      if HasPrefix arg "-" then
        match rest with
        | next :: rest' =>
            if takesValue arg next
            then reorderLoop rest' ((flags ++ [arg]) ++ [next]) positional
            else reorderLoop rest (flags ++ [arg]) positional
        | [] => reorderLoop rest (flags ++ [arg]) positional
        end
      else reorderLoop rest flags (positional ++ [arg])
  end.

Definition reorderArgs (args : list string) : list string := reorderLoop args [] [].

(** The two slices at the end of the loop of [reorderArgs]. *)
Fixpoint flagsOf (args : list string) : list string :=
  match args with
  | [] => []
  | arg :: rest =>
      if HasPrefix arg "-" then
        match rest with
        | next :: rest' =>
            if takesValue arg next then arg :: next :: flagsOf rest'
            else arg :: flagsOf rest
        | [] => [arg]
        end
      else flagsOf rest
  end.

Fixpoint positionalOf (args : list string) : list string :=
  match args with
  | [] => []
  | arg :: rest =>
      if HasPrefix arg "-" then
        match rest with
        | next :: rest' =>
            if takesValue arg next then positionalOf rest' else positionalOf rest
        | [] => []
        end
      else arg :: positionalOf rest
  end.

(** The shape of the slice [flags]: flags, each followed by its value if it
    takes the next argument as one. *)
Inductive flagShaped : list string -> Prop :=
| shaped_nil : flagShaped []
| shaped_last arg : HasPrefix arg "-" = true -> flagShaped [arg]
| shaped_value arg value rest :
    HasPrefix arg "-" = true -> takesValue arg value = true ->
    flagShaped rest -> flagShaped (arg :: value :: rest)
| shaped_flag arg next rest :
    HasPrefix arg "-" = true -> HasPrefix next "-" = true ->
    flagShaped (next :: rest) -> flagShaped (arg :: next :: rest).

(** The example constitution with proposals that live for 106752 days, one
    day more than a [time.Duration] holds. *)
Definition centuriesConstitution : Constitution.t :=
  Constitution.mk
    (Governance.mk (Governance.Voters (Constitution.Governance exampleConstitution))
                   (Governance.Quorum (Constitution.Governance exampleConstitution))
                   false false 106752 ∅)
    (Constitution.Roles exampleConstitution).

(** The same two slices, told argument by argument: an argument goes with
    the flags when it starts with a dash, or when it comes right after a flag
    that takes it as its value; [previous] is the argument before it. *)
Definition isValueOf (previous : option string) (arg : string) : bool :=
  match previous with
  | Some flag => HasPrefix flag "-" && takesValue flag arg
  | None => false
  end.

Definition withFlags (previous : option string) (arg : string) : bool :=
  HasPrefix arg "-" || isValueOf previous arg.

Fixpoint flagPart (previous : option string) (args : list string) : list string :=
  match args with
  | [] => []
  | arg :: rest =>
      if withFlags previous arg then arg :: flagPart (Some arg) rest
      else flagPart (Some arg) rest
  end.

Fixpoint positionalPart (previous : option string) (args : list string) : list string :=
  match args with
  | [] => []
  | arg :: rest =>
      if withFlags previous arg then positionalPart (Some arg) rest
      else arg :: positionalPart (Some arg) rest
  end.
(** * Properties *)

(** ** Byte strings *)

Lemma Split_nonempty s sep : Split s sep <> [].
Proof.
  destruct s as [|c s]; simpl; [discriminate|].
  destruct (Ascii.eqb c sep); [discriminate|].
  destruct (Split s sep); discriminate.
Qed.

Lemma Split_app_sep a b sep :
  Split (a ++ String sep b)%string sep = Split a sep ++ Split b sep.
Proof.
  induction a as [|c a IH]; simpl.
  - now rewrite Ascii.eqb_refl.
  - destruct (Ascii.eqb c sep); [now rewrite IH|].
    rewrite IH. pose proof (Split_nonempty a sep) as Hne.
    destruct (Split a sep) as [|f fs]; [congruence|reflexivity].
Qed.

Lemma append_snoc a c b :
  ((a ++ String c "") ++ b)%string = (a ++ String c b)%string.
Proof.
  induction a as [|d a IH]; [reflexivity|].
  change (String d ((a ++ String c "") ++ b)%string = String d (a ++ String c b)%string).
  now f_equal.
Qed.

(** The first field of a split text starts like the text, for a prefix
    without the separator. *)
Lemma Split_head_prefix s p sep :
  in_cutset sep p = false -> HasPrefix s p = true ->
  exists f fs, Split s sep = f :: fs /\ HasPrefix f p = true.
Proof.
  revert s; induction p as [|c p IH]; intros s Hsep H.
  - pose proof (Split_nonempty s sep).
    destruct (Split s sep) as [|f fs]; [congruence|]. now exists f, fs.
  - destruct s as [|d s]; simpl in H; [discriminate|].
    destruct (Ascii.eqb d c) eqn:Hdc; [|discriminate].
    apply Ascii.eqb_eq in Hdc; subst d.
    simpl in Hsep. destruct (Ascii.eqb sep c) eqn:Hsc; [discriminate|].
    destruct (IH s Hsep H) as (f & fs & Hs & Hf).
    simpl. rewrite Ascii.eqb_sym, Hsc, Hs.
    exists (String c f), fs. split; [reflexivity|].
    simpl. now rewrite Ascii.eqb_refl.
Qed.

(** ** The diff parser *)

Lemma parseLines_app l1 l2 st :
  parseLines (l1 ++ l2) st = parseLines l2 (parseLines l1 st).
Proof. apply fold_left_app. Qed.

(** The files flushed so far are never touched again. *)
Lemma parseLine_shift r0 r c line :
  parseLine (r0 ++ r, c) line =
  (r0 ++ fst (parseLine (r, c) line), snd (parseLine (r, c) line)).
Proof.
  unfold parseLine.
  repeat match goal with
         | |- context [if ?b then _ else _] => destruct b
         | |- context [match ?o with Some _ => _ | None => _ end] => destruct o
         end; simpl; rewrite ?app_assoc; reflexivity.
Qed.

Lemma parseLines_shift l r0 r c :
  parseLines l (r0 ++ r, c) =
  (r0 ++ fst (parseLines l (r, c)), snd (parseLines l (r, c))).
Proof.
  revert r c; induction l as [|line l IH]; intros r c; [reflexivity|].
  unfold parseLines in *. cbn [fold_left].
  rewrite parseLine_shift.
  destruct (parseLine (r, c) line) as [r' c']. simpl. apply IH.
Qed.

Lemma flush_shift r0 st : flush (r0 ++ fst st, snd st) = r0 ++ flush st.
Proof.
  unfold flush; simpl. destruct (snd st); [now rewrite app_assoc|reflexivity].
Qed.

(** Once a file is open, a file stays open. *)
Lemma parseLine_open r c line :
  exists r' c', parseLine (r, Some c) line = (r', Some c').
Proof.
  unfold parseLine.
  repeat match goal with
         | |- context [if ?b then _ else _] => destruct b
         end; eauto.
Qed.

Lemma parseLines_open l r c :
  exists r' c', parseLines l (r, Some c) = (r', Some c').
Proof.
  revert r c; induction l as [|line l IH]; intros r c; [now exists r, c|].
  unfold parseLines in *. cbn [fold_left].
  destruct (parseLine_open r c line) as (r' & c' & ->). apply IH.
Qed.

Lemma parseLine_header r c line :
  HasPrefix line "diff --git " = true ->
  parseLine (r, c) line =
  (match c with Some cur => r ++ [cur] | None => r end, Some emptyFileDiff).
Proof. intros H. unfold parseLine. now rewrite H. Qed.

Lemma parseLine_empty st : parseLine st "" = st.
Proof. now destruct st. Qed.

Lemma ParseDiff_unfold d :
  ParseDiff d = flush (parseLines (Split d newline) ([], None)).
Proof.
  unfold ParseDiff. destruct (String.eqb_spec d ""); [now subst|reflexivity].
Qed.

Lemma ParseDiff_trailing_newline d :
  ParseDiff (d ++ String newline "")%string = ParseDiff d.
Proof.
  rewrite !ParseDiff_unfold, Split_app_sep, parseLines_app. simpl.
  unfold parseLines at 1. cbn [fold_left Split]. now rewrite parseLine_empty.
Qed.

Lemma parseLines_cons line l st :
  parseLines (line :: l) st = parseLines l (parseLine st line).
Proof. reflexivity. Qed.

(** A text that begins with a header line: its parse is the flush of the
    files found after that line. *)
Lemma parse_after_header d :
  HasPrefix d "diff --git " = true ->
  exists f l r c,
    Split d newline = f :: l /\ HasPrefix f "diff --git " = true /\
    parseLines l ([], Some emptyFileDiff) = (r, Some c) /\
    ParseDiff d = r ++ [c].
Proof.
  intros H.
  destruct (Split_head_prefix d "diff --git " newline eq_refl H)
    as (f & l & Hs & Hf).
  destruct (parseLines_open l [] emptyFileDiff) as (r & c & E).
  exists f, l, r, c. repeat split; try assumption.
  rewrite ParseDiff_unfold, Hs, parseLines_cons, (parseLine_header _ _ _ Hf), E.
  reflexivity.
Qed.

Lemma ParseDiff_join d1 d2 :
  HasPrefix d1 "diff --git " = true -> HasPrefix d2 "diff --git " = true ->
  ParseDiff (d1 ++ String newline d2)%string = ParseDiff d1 ++ ParseDiff d2.
Proof.
  intros H1 H2.
  destruct (parse_after_header d1 H1) as (f1 & l1 & r1 & c1 & S1 & Hf1 & E1 & ->).
  destruct (parse_after_header d2 H2) as (f2 & l2 & r2 & c2 & S2 & Hf2 & E2 & ->).
  rewrite ParseDiff_unfold, Split_app_sep, parseLines_app, S1, S2.
  rewrite (parseLines_cons f1), (parseLine_header _ _ _ Hf1), E1.
  rewrite (parseLines_cons f2), (parseLine_header _ _ _ Hf2).
  rewrite <- (app_nil_r (r1 ++ [c1])), parseLines_shift, E2.
  unfold flush. simpl. now rewrite app_nil_r, app_assoc.
Qed.

Lemma HasPrefix_strip_last d p sep :
  in_cutset sep p = false ->
  HasPrefix (d ++ String sep "")%string p = true -> HasPrefix d p = true.
Proof.
  revert d; induction p as [|c p IH]; intros d Hc H; [reflexivity|].
  simpl in Hc. destruct (Ascii.eqb sep c) eqn:Hn; [discriminate|].
  destruct d as [|e d]; simpl in H |- *.
  - now rewrite Hn in H.
  - destruct (Ascii.eqb e c); [auto|discriminate].
Qed.

(** C9. Parsing the concatenation of two diffs, each of which begins with a
    [diff --git] line and the second of which starts on a fresh line, gives
    the concatenation of the two parses: both when a newline is put between
    the texts and when the first text already ends with one. *)
Theorem ParseDiff_concat (d1 d2 : string) :
  HasPrefix d1 "diff --git " = true ->
  HasPrefix d2 "diff --git " = true ->
  ParseDiff (d1 ++ String newline d2)%string = ParseDiff d1 ++ ParseDiff d2 /\
  (forall d1', d1 = (d1' ++ String newline "")%string ->
     ParseDiff (d1 ++ d2)%string = ParseDiff d1 ++ ParseDiff d2).
Proof.
  intros H1 H2. split; [now apply ParseDiff_join|].
  intros d1' ->.
  rewrite ParseDiff_trailing_newline.
  replace ((d1' ++ String newline "") ++ d2)%string
    with (d1' ++ String newline d2)%string.
  - apply ParseDiff_join; [|assumption].
    now apply (HasPrefix_strip_last d1' _ newline).
  - symmetry. apply append_snoc.
Qed.
(** ** Eligible voters *)

Lemma lookup_bool_insert (m : gmap string bool) k k' :
  lookup_bool (<[k := true]> m) k' = true <-> k = k' \/ lookup_bool m k' = true.
Proof.
  unfold lookup_bool. destruct (decide (k = k')) as [->|Hne].
  - rewrite lookup_insert_eq. simpl. tauto.
  - rewrite lookup_insert_ne by assumption. tauto.
Qed.

Lemma addMember_spec st member :
  seen_agrees st ->
  seen_agrees (addMember st member) /\
  snd (addMember st member) = dedup_onto (snd st) [RoleMember.Email member].
Proof.
  destruct st as [seen voters]. intros Hag. unfold addMember. simpl.
  destruct (lookup_bool seen (RoleMember.Email member)) eqn:Hs; simpl.
  - apply (Hag _) in Hs. simpl in Hs.
    rewrite bool_decide_eq_true_2 by assumption. now split.
  - rewrite bool_decide_eq_false_2.
    2:{ intros Hin. apply (Hag _) in Hin. simpl in Hin. congruence. }
    split; [|reflexivity].
    intros email. simpl. rewrite lookup_bool_insert, elem_of_app, list_elem_of_singleton.
    specialize (Hag email). simpl in Hag. rewrite Hag. intuition congruence.
Qed.

Lemma dedup_onto_app kept l1 l2 :
  dedup_onto kept (l1 ++ l2) = dedup_onto (dedup_onto kept l1) l2.
Proof.
  revert kept; induction l1 as [|x l1 IH]; intros kept; simpl; [reflexivity|].
  destruct (bool_decide (x ∈ kept)); apply IH.
Qed.

Lemma addMembers_spec members st :
  seen_agrees st ->
  seen_agrees (fold_left addMember members st) /\
  snd (fold_left addMember members st) =
    dedup_onto (snd st) (map RoleMember.Email members).
Proof.
  revert st; induction members as [|m members IH]; intros st Hag; simpl.
  - now split.
  - destruct (addMember_spec st m Hag) as [Hag' Hsnd].
    destruct (IH _ Hag') as [Hag'' Hsnd'']. split; [assumption|].
    rewrite Hsnd'', Hsnd. simpl.
    destruct (bool_decide (RoleMember.Email m ∈ st.2)); reflexivity.
Qed.

Lemma addVoterRefs_spec roles voters st :
  seen_agrees st ->
  seen_agrees (fold_left (addVoterRef roles) voters st) /\
  snd (fold_left (addVoterRef roles) voters st) =
    dedup_onto (snd st)
      (flat_map (fun voterRef =>
                   match roles !! VoterRef.Role voterRef with
                   | Some role => map RoleMember.Email (Role.Members role)
                   | None => []
                   end) voters).
Proof.
  revert st; induction voters as [|v voters IH]; intros st Hag; simpl.
  - now split.
  - rewrite dedup_onto_app. unfold addVoterRef at 2 4.
    destruct (roles !! VoterRef.Role v) as [role|].
    + destruct (addMembers_spec (Role.Members role) st Hag) as [Hag' Hsnd].
      destruct (IH _ Hag') as [Hag'' Hsnd'']. split; [assumption|].
      now rewrite Hsnd'', Hsnd.
    + simpl. now apply IH.
Qed.

Lemma dedup_onto_NoDup kept emails : NoDup kept -> NoDup (dedup_onto kept emails).
Proof.
  revert kept; induction emails as [|x l IH]; intros kept Hnd; simpl; [assumption|].
  destruct (bool_decide (x ∈ kept)) eqn:Hx; [now apply IH|].
  apply IH. apply NoDup_app. repeat split; [assumption| |apply NoDup_singleton].
  intros y Hy Hy'. apply list_elem_of_singleton in Hy'. subst y.
  apply bool_decide_eq_false in Hx. contradiction.
Qed.

Lemma dedup_onto_elem kept emails email :
  email ∈ dedup_onto kept emails <-> email ∈ kept \/ email ∈ emails.
Proof.
  revert kept; induction emails as [|x l IH]; intros kept; simpl.
  - rewrite elem_of_nil. tauto.
  - rewrite elem_of_cons. destruct (bool_decide (x ∈ kept)) eqn:Hx; rewrite IH.
    + apply bool_decide_eq_true in Hx. intuition (subst; auto).
    + rewrite elem_of_app, list_elem_of_singleton. intuition.
Qed.

(** C7. [GetEligibleVoters] never lists an email twice: it goes through the
    voter roles in the declared order, skips a reference to a role that is not
    defined, and keeps a member's email only the first time it is met; the
    emails it returns are exactly the members of the defined voter roles. *)
Theorem GetEligibleVoters_dedup (constitution : Constitution.t) :
  NoDup (GetEligibleVoters constitution) /\
  GetEligibleVoters constitution = dedup_onto [] (voterEmails constitution) /\
  (forall email,
     email ∈ GetEligibleVoters constitution <->
     exists voterRef role member,
       voterRef ∈ Governance.Voters (Constitution.Governance constitution) /\
       Constitution.Roles constitution !! VoterRef.Role voterRef = Some role /\
       member ∈ Role.Members role /\ RoleMember.Email member = email).
Proof.
  assert (Hinit : seen_agrees (∅, [])).
  { intros email. unfold lookup_bool. simpl. rewrite lookup_empty, elem_of_nil.
    simpl. intuition discriminate. }
  destruct (addVoterRefs_spec (Constitution.Roles constitution)
              (Governance.Voters (Constitution.Governance constitution))
              (∅, []) Hinit) as [_ Heq].
  assert (Hspec : GetEligibleVoters constitution = dedup_onto [] (voterEmails constitution))
    by exact Heq.
  split; [|split; [exact Hspec|]].
  - rewrite Hspec. apply dedup_onto_NoDup, NoDup_nil_2.
  - intros email. rewrite Hspec, dedup_onto_elem, elem_of_nil.
    unfold voterEmails. rewrite list_elem_of_In, in_flat_map. split.
    + intros [[]|(voterRef & Hv & Hin)].
      destruct (Constitution.Roles constitution !! VoterRef.Role voterRef)
        as [role|] eqn:Hrole; [|destruct Hin].
      apply in_map_iff in Hin. destruct Hin as (member & Hm & Hin).
      exists voterRef, role, member.
      rewrite !list_elem_of_In. auto.
    + intros (voterRef & role & member & Hv & Hrole & Hm & He). right.
      exists voterRef. rewrite <- list_elem_of_In. split; [assumption|].
      rewrite Hrole. apply in_map_iff. exists member.
      rewrite <- list_elem_of_In. auto.
Qed.

(** ** Tally: expiry *)

Lemma wrap_int_small z : (min_int <= z <= max_int)%Z -> wrap_int z = z.
Proof.
  unfold wrap_int, min_int, max_int. intros H.
  rewrite Z.mod_small by lia. lia.
Qed.

Lemma ttlDuration_days ttlDays :
  (0 <= ttlDays <= max_ttl_days)%Z -> ttlDuration ttlDays = (ttlDays * (24 * Hour))%Z.
Proof.
  unfold ttlDuration, max_ttl_days, Hour. intros H.
  rewrite (wrap_int_small (ttlDays * 24)) by (unfold min_int, max_int; lia).
  rewrite wrap_int_small by (unfold min_int, max_int; lia). lia.
Qed.

Lemma ComputeTally_IsExpired indefinite now proposal votes constitution :
  TallyResult.IsExpired (ComputeTally indefinite now proposal votes constitution) =
  let ttlDays := Governance.ProposalTTLDays (Constitution.Governance constitution) in
  if (ttlDays >? 0)%Z
  then After now (Add (Proposal.CreatedAt proposal) (ttlDuration ttlDays))
  else false.
Proof.
  unfold ComputeTally.
  destruct (fold_left _ votes (0%Z, 0%Z)) as [yesVotes noVotes]. reflexivity.
Qed.

Lemma ComputeTally_Result_expired indefinite now proposal votes constitution :
  TallyResult.IsExpired (ComputeTally indefinite now proposal votes constitution) = true ->
  QuorumResult.Result
    (TallyResult.QuorumResult (ComputeTally indefinite now proposal votes constitution))
  = "EXPIRED".
Proof.
  unfold ComputeTally.
  destruct (fold_left _ votes (0%Z, 0%Z)) as [yesVotes noVotes]. simpl.
  intros ->. reflexivity.
Qed.

(** X29. While [ttlDays] is at most the number of whole days a [time.Duration]
    can hold, [ComputeTally] sets [IsExpired] exactly when [ttlDays > 0] and
    [now] is after [proposal.CreatedAt] plus [ttlDays] days, and then the
    result of the quorum is EXPIRED whatever the votes are. *)
Theorem ComputeTally_expiry
        (indefinite : Float64.t -> Z) (now : Time) (proposal : Proposal.t)
        (votes : list Vote.t) (constitution : Constitution.t) :
  let ttlDays := Governance.ProposalTTLDays (Constitution.Governance constitution) in
  let tally := ComputeTally indefinite now proposal votes constitution in
  (ttlDays <= max_ttl_days)%Z ->
  (TallyResult.IsExpired tally = true <->
   (ttlDays > 0 /\ now > Proposal.CreatedAt proposal + ttlDays * (24 * Hour))%Z) /\
  (TallyResult.IsExpired tally = true ->
   QuorumResult.Result (TallyResult.QuorumResult tally) = "EXPIRED").
Proof.
  intros ttlDays tally Hmax. split.
  - unfold tally. rewrite ComputeTally_IsExpired. cbv zeta. fold ttlDays.
    destruct (Z.gtb_spec ttlDays 0) as [Hpos|Hnpos].
    + rewrite ttlDuration_days by lia. unfold After, Add.
      rewrite Z.ltb_lt. lia.
    + split; [discriminate|lia].
  - apply ComputeTally_Result_expired.
Qed.

(** [ComputeTally_expiry] at a proposal that has enough yes votes and is 31
    days old under a 30-day limit. *)
Lemma ComputeTally_expiry_witness :
  let voter := RoleMember.mk "a@x.io" in
  let constitution :=
    Constitution.mk
      (Governance.mk [VoterRef.mk "lead"]
                     (QuorumConfig.mk "majority" (S754_zero false))
                     false false 30 ∅)
      {["lead" := Role.mk [voter]]} in
  let proposal := Proposal.mk "p1" "r1" "modify" "" "" "a@x.io" 0%Z "proposed" in
  let votes := [Vote.mk "p1" "a@x.io" "yes" "" 5%Z] in
  let now := (31 * (24 * Hour))%Z in
  let tally := ComputeTally (fun _ => min_int) now proposal votes constitution in
  TallyResult.IsExpired tally = true /\
  QuorumResult.Result (TallyResult.QuorumResult tally) = "EXPIRED" /\
  QuorumResult.YesVotes (TallyResult.QuorumResult tally) = 1%Z /\
  QuorumResult.Required (TallyResult.QuorumResult tally) = 1%Z.
Proof.
  intros voter constitution proposal votes now tally.
  destruct (ComputeTally_expiry (fun _ => min_int) now proposal votes constitution)
    as [Hiff Hres]; [vm_compute; discriminate|].
  assert (He : TallyResult.IsExpired tally = true)
    by (apply Hiff; split; vm_compute; reflexivity).
  split; [exact He|]. split; [exact (Hres He)|].
  split; vm_compute; reflexivity.
Defined.

Local Open Scope Z_scope.

(** C3, where the code departs from it.  With [proposal_ttl_days = 106752]
    the duration [time.Duration(ttlDays) * 24 * time.Hour] does not fit an
    [int64] and comes out negative, so the expiry lies before the creation.
    A proposal created an hour ago, with the yes of all three voters, is then
    expired and its result is EXPIRED, although [now] is not after the
    creation plus 106752 days. *)
Theorem ComputeTally_expiry_overflow (indefinite : Float64.t -> Z) :
  let votes := [Vote.mk "p1" "ann@x.io" "yes" "" 1500; Vote.mk "p1" "bob@x.io" "yes" "" 1600;
                Vote.mk "p1" "cy@x.io" "yes" "" 1700] in
  let now := Proposal.CreatedAt exampleProposal + Hour in
  let tally := ComputeTally indefinite now exampleProposal votes centuriesConstitution in
  Governance.ProposalTTLDays (Constitution.Governance centuriesConstitution) = 106752 /\
  ttlDuration 106752 = 106752 * (24 * Hour) - 2 ^ 64 /\
  ttlDuration 106752 < 0 /\
  ~ (now > Proposal.CreatedAt exampleProposal + 106752 * (24 * Hour)) /\
  TallyResult.IsExpired tally = true /\
  QuorumResult.Result (TallyResult.QuorumResult tally) = "EXPIRED"%string /\
  QuorumResult.Result
    (CalculateQuorum indefinite (TallyResult.QuorumConfig tally)
                     (QuorumResult.TotalEligible (TallyResult.QuorumResult tally))
                     (QuorumResult.YesVotes (TallyResult.QuorumResult tally))
                     (QuorumResult.NoVotes (TallyResult.QuorumResult tally)))
  = "ACCEPTED"%string.
Proof. repeat split; vm_compute; congruence. Qed.

Local Close Scope Z_scope.

(** ** The exception filter *)

Lemma isExpired_active now exc : isExpired now exc = false <-> active_at now exc.
Proof.
  unfold isExpired, active_at, Before.
  destruct (Exception.ExpiresAt exc) as [t|]; [|tauto].
  rewrite Z.ltb_ge. tauto.
Qed.

Lemma isExcepted_covers v exceptions :
  isExcepted v exceptions = true <->
  exists exc, In exc exceptions /\ covers exc v.
Proof.
  unfold isExcepted, covers. rewrite existsb_exists.
  split; intros (exc & Hin & H); exists exc; (split; [assumption|]).
  - destruct (String.eqb_spec (Exception.RuleID exc) (Violation.RuleID v)) as [Heq|];
      simpl in H; [|discriminate].
    split; [assumption|]. apply existsb_exists in H.
    destruct H as (pattern & Hp & Hm). exists pattern. split; [assumption|].
    destruct (Filepath.Match pattern (Violation.FilePath v)) as [[]|]; congruence.
  - destruct H as (Heq & pattern & Hp & Hm).
    rewrite Heq, String.eqb_refl. simpl. apply existsb_exists.
    exists pattern. split; [assumption|]. now rewrite Hm.
Qed.

Lemma applyExceptions_filter now e violations :
  applyExceptions now e violations =
  List.filter
    (fun v => negb (isExcepted v (List.filter (fun exc => negb (isExpired now exc))
                                              (Exceptions e))))
    violations.
Proof.
  unfold applyExceptions.
  destruct (List.filter _ (Exceptions e)) as [|exc l]; [|reflexivity].
  induction violations as [|v vs IH]; [reflexivity|].
  change (v :: vs = v :: List.filter (fun v => negb (isExcepted v [])) vs).
  f_equal. exact IH.
Qed.

(** C2, as the code has it. After the rules have run, the engine drops a
    violation exactly when some exception that is active at [now] names the
    rule of the violation and has a path that matches its file under
    [filepath.Match]; an exception is active when it has no expiry or its
    expiry is not before [now] (an expiry equal to [now] is still active). The
    other violations are kept in their order. An exception that expired
    before [now], or one for another rule, drops nothing. *)
Theorem applyExceptions_spec (now : Time) (e : Engine) (violations : list Violation.t) :
  (exists keep : Violation.t -> bool,
      applyExceptions now e violations = List.filter keep violations /\
      forall v, keep v = false <->
                exists exc, In exc (Exceptions e) /\ active_at now exc /\ covers exc v) /\
  (forall exc expiresAt,
      Exception.ExpiresAt exc = Some expiresAt -> (expiresAt < now)%Z ->
      ~ active_at now exc) /\
  (forall exc v, Exception.RuleID exc <> Violation.RuleID v -> ~ covers exc v) /\
  (forall Regexp (regexp_Compile : string -> option Regexp) MatchString
          changedFiles diffContent res,
      Run Regexp regexp_Compile MatchString now e changedFiles diffContent = Ok res ->
      exists allViolations,
        runRules Regexp regexp_Compile MatchString (Rules e) changedFiles diffContent []
          = Ok allViolations /\
        Violations res = applyExceptions now e allViolations).
Proof.
  split; [|split; [|split]].
  - eexists. split; [apply applyExceptions_filter|].
    intros v. rewrite negb_false_iff, isExcepted_covers.
    split; intros (exc & Hin & H); exists exc.
    + apply filter_In in Hin. destruct Hin as [Hin Hact].
      apply negb_true_iff, isExpired_active in Hact. auto.
    + destruct H as [Hact Hcov]. split; [|assumption].
      apply filter_In. split; [assumption|].
      now apply negb_true_iff, isExpired_active.
  - intros exc expiresAt Hexp Hlt. unfold active_at. rewrite Hexp. lia.
  - intros exc v Hne [Heq _]. contradiction.
  - intros Regexp regexp_Compile MatchString changedFiles diffContent res.
    unfold Run.
    destruct (runRules _ _ _ _ _ _ _) as [allViolations|err]; simpl; [|discriminate].
    intros [= <-]. now exists allViolations.
Qed.

(** With the strict reading of "active" the claim fails: the violation is
    dropped although no exception is active in that sense. *)
Lemma applyExceptions_boundary_counterexample :
  applyExceptions 100%Z (NewEngine [] [boundaryException]) [legacyViolation] = [] /\
  ~ (exists exc,
        In exc (Exceptions (NewEngine [] [boundaryException])) /\
        active_strictly_at 100%Z exc /\ covers exc legacyViolation).
Proof.
  split; [vm_compute; reflexivity|].
  intros (exc & [<-|[]] & Hact & _). unfold active_strictly_at in Hact.
  simpl in Hact. lia.
Qed.

(** ** Rule configuration and the checkers *)

Lemma stringElements_Ok key items :
  forallb (fun item => match item with VString _ => true | _ => false end) items = true ->
  exists l, stringElements key items = Ok l.
Proof.
  induction items as [|item items IH]; simpl; [now exists []|].
  destruct item; try discriminate. intros H.
  destruct (IH H) as [l ->]. simpl. eauto.
Qed.

Lemma stringElements_Err key items :
  forallb (fun item => match item with VString _ => true | _ => false end) items = false ->
  stringElements key items = Err (ErrStringElements key).
Proof.
  induction items as [|item items IH]; simpl; [discriminate|].
  destruct item; try reflexivity. intros H. now rewrite (IH H).
Qed.

(** [getStringSlice] fails exactly on a missing key and on a value that is
    no slice of strings. *)
Lemma getStringSlice_Err cfg key :
  is_Err (getStringSlice cfg key) = true <->
  cfg !! key = None \/ exists v, cfg !! key = Some v /\ isStringSlice v = false.
Proof.
  unfold getStringSlice.
  destruct (cfg !! key) as [v|]; [|simpl; intuition].
  split.
  - intros H. right. exists v. split; [reflexivity|].
    destruct v; simpl in *; try reflexivity; try discriminate.
    destruct (forallb _ items) eqn:Hall; [|reflexivity].
    destruct (stringElements_Ok key items Hall) as [l Hl].
    rewrite Hl in H. discriminate.
  - intros [Hn|(v' & [= <-] & Hv)]; [discriminate|].
    destruct v; simpl in *; try reflexivity; try discriminate.
    now rewrite (stringElements_Err key items Hv).
Qed.

Lemma getStringSlice_delete cfg key key' :
  key <> key' -> getStringSlice (delete key cfg) key' = getStringSlice cfg key'.
Proof. intros H. unfold getStringSlice. now rewrite lookup_delete_ne. Qed.

Lemma flat_map_filter_map {A B} (p : A -> bool) (f : A -> B) l :
  flat_map (fun x => if p x then [f x] else []) l = map f (List.filter p l).
Proof.
  induction l as [|x l IH]; simpl; [reflexivity|].
  destruct (p x); simpl; now rewrite IH.
Qed.

Section Checkers.

Variable Regexp : Type.
Variable regexp_Compile : string -> option Regexp.
Variable MatchString : Regexp -> string -> bool.

Lemma buildFileSet_In files path :
  lookup_bool (buildFileSet files) path = true <-> In path files.
Proof.
  unfold buildFileSet.
  assert (H : forall m,
             lookup_bool (fold_left (fun m f => <[f := true]> m) files m) path = true
             <-> In path files \/ lookup_bool m path = true).
  { induction files as [|f files IH]; intros m; simpl; [tauto|].
    rewrite IH, lookup_bool_insert. tauto. }
  rewrite H. unfold lookup_bool. rewrite lookup_empty. simpl.
  intuition discriminate.
Qed.

(** C10. When the configuration of a diff_pattern_forbidden rule has an
    [only_in_paths] that is no slice of strings, [Check] does not fail for
    it: the outcome is the one of the rule without the key, and once the
    forbidden patterns are read and compiled, the added lines of every
    changed file are scanned. *)
Theorem DiffPatternForbidden_malformed_only_in_paths
        (ctx : CheckContext.t) (v : value) :
  CheckContext.RuleConfig ctx !! "only_in_paths" = Some v ->
  isStringSlice v = false ->
  DiffPatternForbidden_Check Regexp regexp_Compile MatchString ctx =
    DiffPatternForbidden_Check Regexp regexp_Compile MatchString
                               (withoutKey "only_in_paths" ctx) /\
  (forall forbiddenRegexes compiled,
      getStringSlice (CheckContext.RuleConfig ctx) "forbidden_regexes"
        = Ok forbiddenRegexes ->
      compileAll Regexp regexp_Compile "diff_pattern_forbidden" forbiddenRegexes
        = Ok compiled ->
      DiffPatternForbidden_Check Regexp regexp_Compile MatchString ctx =
        Ok (flat_map
              (fun fd =>
                 if bool_decide (Path fd ∈ CheckContext.ChangedFiles ctx)
                 then forbiddenIn MatchString compiled ctx fd else [])
              (ParseDiff (CheckContext.DiffContent ctx)))).
Proof.
  intros Hv Hbad.
  assert (Herr : exists e,
             getStringSlice (CheckContext.RuleConfig ctx) "only_in_paths" = Err e).
  { assert (H : is_Err (getStringSlice (CheckContext.RuleConfig ctx) "only_in_paths")
                = true) by (apply getStringSlice_Err; eauto).
    destruct (getStringSlice _ "only_in_paths"); [discriminate|eauto]. }
  destruct Herr as [e He].
  assert (Herr' : getStringSlice (delete "only_in_paths" (CheckContext.RuleConfig ctx))
                                 "only_in_paths" = Err (ErrMissingKey "only_in_paths")).
  { unfold getStringSlice. now rewrite lookup_delete_eq. }
  split.
  - unfold DiffPatternForbidden_Check, withoutKey. simpl.
    rewrite He, Herr', getStringSlice_delete by discriminate. reflexivity.
  - intros forbiddenRegexes compiled Hregs Hcomp.
    unfold DiffPatternForbidden_Check. rewrite Hregs. simpl.
    rewrite Hcomp. simpl. rewrite He. f_equal.
    apply flat_map_ext. intros fd.
    destruct (lookup_bool _ (Path fd)) eqn:Hl; simpl.
    + apply buildFileSet_In, list_elem_of_In in Hl.
      rewrite bool_decide_eq_true_2 by assumption.
      apply flat_map_filter_map.
    + rewrite bool_decide_eq_false_2; [reflexivity|].
      intros Hin. apply list_elem_of_In, buildFileSet_In in Hin. congruence.
Qed.

(** Compiling succeeds when every pattern compiles, and then gives the
    compiled patterns. *)
Lemma compileAll_Ok checker patterns :
  (forall pattern, In pattern patterns -> regexp_Compile pattern <> None) ->
  exists compiled,
    compileAll Regexp regexp_Compile checker patterns = Ok compiled /\
    forall re, In re compiled <->
               exists pattern, In pattern patterns /\ regexp_Compile pattern = Some re.
Proof.
  induction patterns as [|pattern patterns IH]; intros Hall.
  - exists []. split; [reflexivity|]. intros re. simpl.
    split; [tauto|]. intros (? & [] & _).
  - destruct IH as (compiled & Hc & Hin).
    { intros p Hp. apply Hall. now right. }
    simpl. destruct (regexp_Compile pattern) as [re0|] eqn:Hp.
    2:{ exfalso. apply (Hall pattern); [now left|assumption]. }
    exists (re0 :: compiled). rewrite Hc. split; [reflexivity|].
    intros re. simpl. rewrite Hin. split.
    + intros [<-|(p & Hp' & Hre)]; [exists pattern; auto|exists p; auto].
    + intros (p & [<-|Hp'] & Hre); [left; congruence|right; eauto].
Qed.

(** Compiling fails exactly when some pattern does not compile. *)
Lemma compileAll_Err checker patterns :
  is_Err (compileAll Regexp regexp_Compile checker patterns) = true <->
  exists pattern, In pattern patterns /\ regexp_Compile pattern = None.
Proof.
  induction patterns as [|pattern patterns IH]; simpl.
  - split; [discriminate|]. intros (? & [] & _).
  - destruct (regexp_Compile pattern) as [re|] eqn:Hp.
    + destruct (compileAll _ _ checker patterns) as [compiled|e]; simpl in *.
      * split; [discriminate|]. intros (p & [<-|Hin] & Hn); [congruence|].
        apply IH. eauto.
      * split; [|reflexivity]. intros _.
        destruct IH as [IH _]. destruct (IH eq_refl) as (p & Hin & Hn). eauto.
    + split; [|reflexivity]. intros _. exists pattern. auto.
Qed.

Lemma filter_first {A} (p : A -> bool) l x rest :
  List.filter p l = x :: rest ->
  exists before after,
    l = before ++ x :: after /\ p x = true /\
    forall y, In y before -> p y = false.
Proof.
  induction l as [|a l IH]; simpl; [discriminate|].
  destruct (p a) eqn:Hpa.
  - intros [= -> _]. exists [], l. repeat split; [assumption|]. intros y [].
  - intros H. destruct (IH H) as (before & after & -> & Hx & Hb).
    exists (a :: before), after. repeat split; [assumption|].
    intros y [<-|Hy]; auto.
Qed.

(** C6. A diff_pattern_requires rule with a well-formed configuration: when
    no changed file matches [only_in_paths] nothing is reported; otherwise,
    when some added line of some file of the diff, whether or not the file
    matches [only_in_paths], matches a required pattern, nothing is
    reported; otherwise one violation is reported, for the first changed
    file that matches [only_in_paths]. *)
Theorem DiffPatternRequires_spec
        (ctx : CheckContext.t) (requiredRegexes onlyInPaths : list string) :
  getStringSlice (CheckContext.RuleConfig ctx) "required_regexes" = Ok requiredRegexes ->
  getStringSlice (CheckContext.RuleConfig ctx) "only_in_paths" = Ok onlyInPaths ->
  (forall pattern, In pattern requiredRegexes -> regexp_Compile pattern <> None) ->
  let matchedFiles := filterFilesByGlobs (CheckContext.ChangedFiles ctx) onlyInPaths in
  let found :=
    exists fd addedLine pattern re,
      In fd (ParseDiff (CheckContext.DiffContent ctx)) /\
      In addedLine (AddedLines fd) /\
      In pattern requiredRegexes /\ regexp_Compile pattern = Some re /\
      MatchString re addedLine = true in
  let outcome := DiffPatternRequires_Check Regexp regexp_Compile MatchString ctx in
  (matchedFiles = [] -> outcome = Ok []) /\
  (matchedFiles <> [] -> found -> outcome = Ok []) /\
  (forall firstMatched rest,
      matchedFiles = firstMatched :: rest ->
      (~ found -> outcome = Ok [violationOf ctx firstMatched ""]) /\
      exists before after,
        CheckContext.ChangedFiles ctx = before ++ firstMatched :: after /\
        matchesAnyGlob firstMatched onlyInPaths = true /\
        forall file, In file before -> matchesAnyGlob file onlyInPaths = false).
Proof.
  intros Hregs Hpaths Hwf matchedFiles found outcome.
  destruct (compileAll_Ok "diff_pattern_requires" requiredRegexes Hwf)
    as (compiled & Hcomp & Hin).
  assert (Hfound :
            existsb (fun fd => existsb (matchesAnyRegexp Regexp MatchString compiled)
                                       (AddedLines fd))
                    (ParseDiff (CheckContext.DiffContent ctx)) = true <-> found).
  { unfold found. rewrite existsb_exists. split.
    - intros (fd & Hfd & H). apply existsb_exists in H.
      destruct H as (line & Hline & H). apply existsb_exists in H.
      destruct H as (re & Hre & Hm). apply Hin in Hre.
      destruct Hre as (pattern & Hp & Hc). exists fd, line, pattern, re. auto.
    - intros (fd & line & pattern & re & Hfd & Hline & Hp & Hc & Hm).
      exists fd. split; [assumption|]. apply existsb_exists.
      exists line. split; [assumption|]. apply existsb_exists.
      exists re. split; [|assumption]. apply Hin. eauto. }
  assert (Hout : outcome =
                 match matchedFiles with
                 | [] => Ok []
                 | firstMatched :: _ =>
                     if existsb (fun fd => existsb (matchesAnyRegexp Regexp MatchString compiled)
                                                   (AddedLines fd))
                                (ParseDiff (CheckContext.DiffContent ctx))
                     then Ok [] else Ok [violationOf ctx firstMatched ""]
                 end).
  { unfold outcome, DiffPatternRequires_Check. rewrite Hregs, Hpaths. simpl.
    fold matchedFiles. destruct matchedFiles; [reflexivity|].
    rewrite Hcomp. reflexivity. }
  split; [|split].
  - intros Hm. now rewrite Hout, Hm.
  - intros Hne Hf. rewrite Hout. destruct matchedFiles; [congruence|].
    apply Hfound in Hf. now rewrite Hf.
  - intros firstMatched rest Hm. split.
    + intros Hnf. rewrite Hout, Hm.
      destruct (existsb _ _) eqn:He; [|reflexivity].
      exfalso. apply Hnf, Hfound. reflexivity.
    + apply (filter_first _ _ _ _ Hm).
Qed.

End Checkers.

(** ** Substrings *)

Lemma append_cons c a b : (String c a ++ b)%string = String c (a ++ b)%string.
Proof. reflexivity. Qed.

Lemma append_nil_l a : ("" ++ a)%string = a.
Proof. reflexivity. Qed.

Lemma HasPrefix_iff s p : HasPrefix s p = true <-> exists after, s = (p ++ after)%string.
Proof.
  revert s; induction p as [|c p IH]; intros s.
  - split; [intros _; now exists s|reflexivity].
  - destruct s as [|d s]; simpl.
    + split; [discriminate|]. intros [after H]. rewrite append_cons in H. discriminate.
    + destruct (Ascii.eqb_spec d c) as [->|Hne].
      * rewrite IH. split; intros [after H]; exists after.
        -- rewrite append_cons. now f_equal.
        -- rewrite append_cons in H. now injection H.
      * split; [discriminate|]. intros [after H]. rewrite append_cons in H.
        injection H as H _. contradiction.
Qed.

Lemma Contains_iff s sub : Contains s sub = true <-> substring sub s.
Proof.
  unfold substring. induction s as [|c s IH].
  - simpl. destruct (HasPrefix "" sub) eqn:Hp.
    + split; [intros _|reflexivity].
      apply HasPrefix_iff in Hp. destruct Hp as [after H]. now exists "", after.
    + split; [discriminate|]. intros (before & after & H).
      destruct before as [|b before]; [|rewrite append_cons in H; discriminate].
      rewrite append_nil_l in H.
      assert (Hp' : HasPrefix "" sub = true) by (apply HasPrefix_iff; eauto).
      congruence.
  - cbn [Contains]. destruct (HasPrefix (String c s) sub) eqn:Hp.
    + split; [intros _|reflexivity].
      apply HasPrefix_iff in Hp. destruct Hp as [after H]. now exists "", after.
    + rewrite IH. split.
      * intros (before & after & ->). exists (String c before), after.
        now rewrite append_cons.
      * intros (before & after & H). destruct before as [|b before].
        -- rewrite append_nil_l in H.
           assert (Hp' : HasPrefix (String c s) sub = true)
             by (apply HasPrefix_iff; eauto).
           congruence.
        -- rewrite append_cons in H. injection H as _ H. eauto.
Qed.

Lemma append_assoc a b c : ((a ++ b) ++ c)%string = (a ++ (b ++ c))%string.
Proof.
  induction a as [|x a IH]; [reflexivity|].
  rewrite !append_cons. now f_equal.
Qed.

Lemma substring_trans a b c : substring a b -> substring b c -> substring a c.
Proof.
  intros (b1 & b2 & ->) (c1 & c2 & ->).
  exists (c1 ++ b1)%string, (b2 ++ c2)%string.
  now rewrite !append_assoc.
Qed.

(** ** The imports_forbidden checker *)

Lemma buildDiffMap_lookup fileDiffs file :
  buildDiffMap fileDiffs !! file = lastDiffOf file fileDiffs.
Proof.
  unfold buildDiffMap, lastDiffOf.
  induction fileDiffs as [|fd l IH] using rev_ind; [apply lookup_empty|].
  rewrite fold_left_app, rev_app_distr. simpl.
  destruct (String.eqb_spec (Path fd) file) as [<-|Hne].
  - apply lookup_insert_eq.
  - rewrite lookup_insert_ne by assumption. apply IH.
Qed.

Lemma extractPathSegments_strip globs :
  extractPathSegments globs =
  List.filter (fun s => negb (String.eqb s "")) (map stripGlob globs).
Proof.
  induction globs as [|g globs IH]; [reflexivity|].
  simpl. unfold stripGlob at 1.
  destruct (String.eqb _ ""); simpl; now rewrite IH.
Qed.

Lemma containsSegment_iff line segment :
  containsSegment line segment = true <->
  substring (segment ++ "/") line \/ substring (segment ++ ".") line.
Proof.
  unfold containsSegment. now rewrite orb_true_iff, !Contains_iff.
Qed.

(** ** Trimming on the right *)

Lemma TrimLeft_all_cons c s cutset :
  TrimLeft (String c s) cutset = "" -> in_cutset c cutset = true /\ TrimLeft s cutset = "".
Proof.
  cbn [TrimLeft]. destruct (in_cutset c cutset); [auto|discriminate].
Qed.

Lemma TrimRight_all s cutset : TrimLeft s cutset = "" -> TrimRight s cutset = "".
Proof.
  induction s as [|c s IH]; [reflexivity|].
  intros H. apply TrimLeft_all_cons in H as [Hc Hs].
  cbn [TrimRight]. now rewrite (IH Hs), Hc.
Qed.

Lemma TrimRight_app a b cutset :
  TrimRight (a ++ b) cutset =
  if String.eqb (TrimRight b cutset) "" then TrimRight a cutset
  else (a ++ TrimRight b cutset)%string.
Proof.
  induction a as [|c a IH].
  - rewrite !append_nil_l. cbn [TrimRight].
    destruct (String.eqb_spec (TrimRight b cutset) ""); congruence.
  - rewrite append_cons. cbn [TrimRight]. rewrite IH.
    destruct (String.eqb_spec (TrimRight b cutset) "") as [Hb|Hb]; [reflexivity|].
    rewrite append_cons.
    destruct (a ++ TrimRight b cutset)%string eqn:Happ; [|reflexivity].
    destruct a; [rewrite append_nil_l in Happ; contradiction|].
    rewrite append_cons in Happ. discriminate.
Qed.

Lemma TrimRight_app_all a b cutset :
  TrimLeft b cutset = "" -> TrimRight (a ++ b) cutset = TrimRight a cutset.
Proof.
  intros H. rewrite TrimRight_app, (TrimRight_all _ _ H). reflexivity.
Qed.

(** Nothing to trim for a larger cutset, nothing to trim for a smaller. *)
Lemma TrimRight_fixed s small large :
  (forall c, in_cutset c small = true -> in_cutset c large = true) ->
  TrimRight s large = s -> TrimRight s small = s.
Proof.
  intros Hsub. induction s as [|c s IH]; [reflexivity|].
  cbn [TrimRight]. destruct (TrimRight s large) as [|d t] eqn:Hlarge.
  - destruct (in_cutset c large) eqn:Hc; [discriminate|].
    intros [= <-]. cbn [TrimRight].
    destruct (in_cutset c small) eqn:Hs; [|reflexivity].
    apply Hsub in Hs. congruence.
  - intros [= <-]. rewrite (IH eq_refl). reflexivity.
Qed.

Lemma TrimLeft_all_larger s small large :
  (forall c, in_cutset c small = true -> in_cutset c large = true) ->
  TrimLeft s small = "" -> TrimLeft s large = "".
Proof.
  intros Hsub. induction s as [|c s IH]; [reflexivity|].
  intros H. apply TrimLeft_all_cons in H as [Hc Hs].
  cbn [TrimLeft]. rewrite (Hsub c Hc). exact (IH Hs).
Qed.

Lemma TrimRight_other s cutset other :
  (forall c, in_cutset c cutset = true -> in_cutset c other = false) ->
  TrimLeft s cutset = "" -> TrimRight s other = s.
Proof.
  intros Hdisjoint. induction s as [|c s IH]; [reflexivity|].
  intros H. apply TrimLeft_all_cons in H as [Hc Hs].
  cbn [TrimRight]. rewrite (IH Hs). destruct s; [|reflexivity].
  now rewrite (Hdisjoint c Hc).
Qed.

Lemma in_star_or_slash small :
  small = "*" \/ small = "/" ->
  forall c, in_cutset c small = true -> in_cutset c "*/" = true.
Proof.
  intros [-> | ->] c; cbn [in_cutset];
    destruct (Ascii.eqb c "*"), (Ascii.eqb c "/"); auto.
Qed.

(** On a glob that ends in slashes followed by stars the code strips what
    the specification strips: the directory is left. *)
Lemma slashesThenStars_strip glob :
  slashesThenStars glob -> stripGlob glob = stripTrailing glob.
Proof.
  intros (dir & slashes & stars & -> & Hslashes & Hstars & Hdir).
  unfold stripGlob, stripTrailing in *.
  assert (Hall : TrimRight (dir ++ slashes ++ stars) "*/" = dir).
  { rewrite <- append_assoc, TrimRight_app_all
      by (apply (TrimLeft_all_larger _ "*"); [apply in_star_or_slash; auto|exact Hstars]).
    rewrite TrimRight_app_all
      by (apply (TrimLeft_all_larger _ "/"); [apply in_star_or_slash; auto|exact Hslashes]).
    exact Hdir. }
  rewrite Hall, <- append_assoc, TrimRight_app_all by exact Hstars.
  rewrite TrimRight_app.
  assert (Hother : forall c, in_cutset c "/" = true -> in_cutset c "*" = false).
  { intros c. cbn [in_cutset].
    destruct (Ascii.eqb_spec c "/") as [->|]; [reflexivity|discriminate]. }
  rewrite (TrimRight_other slashes "/" "*" Hother Hslashes).
  destruct (String.eqb_spec slashes "") as [->|Hne].
  - rewrite (TrimRight_fixed dir "*" "*/") by (try apply in_star_or_slash; auto).
    apply (TrimRight_fixed dir "/" "*/"); [apply in_star_or_slash; auto|exact Hdir].
  - rewrite TrimRight_app_all by exact Hslashes.
    apply (TrimRight_fixed dir "/" "*/"); [apply in_star_or_slash; auto|exact Hdir].
Qed.

(** C5, as the code has it. An imports_forbidden rule with well-formed
    [from_globs] and [forbid_globs], whose forbidden globs end in slashes
    followed by stars at most, reports for every entry of the changed files
    that matches a pattern of [from_globs] and has a diff, one violation for
    each added line of the last section of that file in the diff that
    contains [segment/] or [segment.], for a segment that is not empty: a
    forbidden glob without its trailing stars and slashes.  It reports
    nothing else.  A line that contains
    [com.myapp.infra.database.UserRepository] is reported when [forbid_globs]
    is [infra/**]. *)
Theorem ImportsForbidden_spec
        (ctx : CheckContext.t) (fromGlobs forbidGlobs : list string) :
  getStringSlice (CheckContext.RuleConfig ctx) "from_globs" = Ok fromGlobs ->
  getStringSlice (CheckContext.RuleConfig ctx) "forbid_globs" = Ok forbidGlobs ->
  (forall glob, In glob forbidGlobs -> slashesThenStars glob) ->
  let segments :=
    List.filter (fun s => negb (String.eqb s "")) (map stripTrailing forbidGlobs) in
  let offending (line : string) :=
    exists segment,
      In segment segments /\
      (substring (segment ++ "/") line \/ substring (segment ++ ".") line) in
  exists flagged : string -> bool,
    (forall line, flagged line = true <-> offending line) /\
    ImportsForbidden_Check ctx =
      Ok (flat_map
            (fun file =>
               if matchesAnyGlob file fromGlobs then
                 match lastDiffOf file (ParseDiff (CheckContext.DiffContent ctx)) with
                 | Some fd =>
                     map (fun line => violationOf ctx file ("+" ++ line))
                         (List.filter flagged (AddedLines fd))
                 | None => []
                 end
               else [])
            (CheckContext.ChangedFiles ctx)) /\
    (forbidGlobs = ["infra/**"] ->
     forall line,
       substring "com.myapp.infra.database.UserRepository" line -> flagged line = true).
Proof.
  intros Hfrom Hforbid Hshape segments offending.
  assert (Hsegments : extractPathSegments forbidGlobs = segments).
  { rewrite extractPathSegments_strip. unfold segments. f_equal.
    apply map_ext_in. intros glob Hin. apply slashesThenStars_strip, Hshape, Hin. }
  exists (fun line => existsb (containsSegment line) segments).
  assert (Hflag : forall line,
             existsb (containsSegment line) segments = true <-> offending line).
  { intros line. unfold offending. rewrite existsb_exists.
    split; intros (segment & Hin & H); exists segment;
      (split; [assumption|]); now apply containsSegment_iff. }
  split; [exact Hflag|]. split.
  - unfold ImportsForbidden_Check. rewrite Hfrom, Hforbid. simpl. f_equal.
    apply flat_map_ext. intros file.
    destruct (matchesAnyGlob file fromGlobs); simpl; [|reflexivity].
    rewrite buildDiffMap_lookup.
    destruct (lastDiffOf file _) as [fd|]; [|reflexivity].
    unfold importViolations. rewrite Hsegments.
    apply (flat_map_filter_map
             (fun line => existsb (containsSegment line) segments)
             (fun line => violationOf ctx file ("+" ++ line))).
  - intros Hglobs line Hsub. apply Hflag. exists "infra".
    split; [unfold segments; rewrite Hglobs; now left|]. right.
    apply (substring_trans _ "com.myapp.infra.database.UserRepository"); [|assumption].
    exists "com.myapp.", "database.UserRepository". reflexivity.
Qed.

(** C5 as it is written does not hold of the code.  The glob [**] strips to
    the empty segment, which every line with a dot contains before the dot,
    but the code drops empty segments; of two sections of the diff for one
    file only the last is scanned; a file listed twice among the changed
    files has its lines reported twice; and [infra/*/*], which strips to
    [infra], is only stripped to [infra/*] by the code. *)
Lemma ImportsForbidden_claim_counterexample :
  (stripTrailing "**" = "" /\
   Contains "import com.myapp.infra.database.UserRepository" ("" ++ ".") = true /\
   ImportsForbidden_Check
     (contextOf ruleDomainNoStars ["domain/service/User.kt"] importDiff) = Ok []) /\
  (ParseDiff twoSectionDiff =
     [mkFileDiff "domain/service/User.kt" ["import infra.Db"];
      mkFileDiff "domain/service/User.kt" ["class User"]] /\
   Contains "import infra.Db" ("infra" ++ ".") = true /\
   ImportsForbidden_Check
     (contextOf ruleDomainNoInfra ["domain/service/User.kt"] twoSectionDiff) = Ok []) /\
  (length (List.filter
             (fun line => Contains line ("infra" ++ "/") || Contains line ("infra" ++ "."))
             (flat_map AddedLines (ParseDiff importDiff))) = 1%nat /\
   ImportsForbidden_Check
     (contextOf ruleDomainNoInfra
                ["domain/service/User.kt"; "domain/service/User.kt"] importDiff) =
   Ok [Violation.mk "domain_no_infra" "error" "no infra in domain"
                    "domain/service/User.kt"
                    "+import com.myapp.infra.database.UserRepository" "";
       Violation.mk "domain_no_infra" "error" "no infra in domain"
                    "domain/service/User.kt"
                    "+import com.myapp.infra.database.UserRepository" ""]) /\
  (stripTrailing "infra/*/*" = "infra" /\
   Contains "import infra/db/Repo" ("infra" ++ "/") = true /\
   ImportsForbidden_Check
     (contextOf ruleDomainNoInfraNested ["domain/service/User.kt"] slashImportDiff) = Ok []).
Proof. repeat split; vm_compute; reflexivity. Qed.

(** ** The engine: errors *)

Section RunErrors.

Variable Regexp : Type.
Variable regexp_Compile : string -> option Regexp.
Variable MatchString : Regexp -> string -> bool.

Local Abbreviation registry := (Registry Regexp regexp_Compile MatchString).
Local Abbreviation runAll := (runRules Regexp regexp_Compile MatchString).

Local Abbreviation errorOf := (ruleError regexp_Compile MatchString).

Lemma runRules_Ok rules changedFiles diffContent acc :
  (forall rule, In rule rules -> errorOf changedFiles diffContent rule = None) ->
  exists violations, runAll rules changedFiles diffContent acc = Ok violations.
Proof.
  revert acc; induction rules as [|rule rules IH]; intros acc Hall; simpl.
  - eauto.
  - pose proof (Hall rule (or_introl eq_refl)) as Hr. unfold ruleError in Hr.
    destruct (registry !! Rule.Type' rule) as [checker|]; [|discriminate].
    destruct (Check checker _) as [vs|e]; [|discriminate].
    apply IH. intros r Hin. apply Hall. now right.
Qed.

Lemma runRules_Err rules changedFiles diffContent acc err :
  runAll rules changedFiles diffContent acc = Err err ->
  exists before rule after,
    rules = before ++ rule :: after /\
    (forall r, In r before -> errorOf changedFiles diffContent r = None) /\
    errorOf changedFiles diffContent rule = Some err.
Proof.
  revert acc; induction rules as [|rule rules IH]; intros acc; simpl; [discriminate|].
  destruct (errorOf changedFiles diffContent rule) as [e|] eqn:Hr.
  - unfold ruleError in Hr. intros H.
    exists [], rule, rules. split; [reflexivity|]. split; [intros r []|].
    unfold ruleError.
    destruct (registry !! Rule.Type' rule) as [checker|]; [|congruence].
    destruct (Check checker _) as [vs|e']; [discriminate|congruence].
  - pose proof Hr as Hr0. unfold ruleError in Hr.
    destruct (registry !! Rule.Type' rule) as [checker|]; [|discriminate].
    destruct (Check checker _) as [vs|e']; [|discriminate].
    intros H. destruct (IH _ H) as (before & r & after & -> & Hb & Hr').
    exists (rule :: before), r, after. split; [reflexivity|].
    split; [|assumption]. intros r' [<-|Hin]; [exact Hr0|auto].
Qed.

Lemma runRules_skip before rest changedFiles diffContent acc :
  (forall r, In r before -> errorOf changedFiles diffContent r = None) ->
  exists acc',
    runAll (before ++ rest) changedFiles diffContent acc =
    runAll rest changedFiles diffContent acc'.
Proof.
  revert acc; induction before as [|rule before IH]; intros acc Hall.
  - now exists acc.
  - pose proof (Hall rule (or_introl eq_refl)) as Hr. unfold ruleError in Hr.
    simpl. destruct (registry !! Rule.Type' rule) as [checker|]; [|discriminate].
    destruct (Check checker _) as [vs|e]; [|discriminate].
    apply IH. intros r Hin. apply Hall. now right.
Qed.

Lemma runRules_first_error before rule after changedFiles diffContent acc err :
  (forall r, In r before -> errorOf changedFiles diffContent r = None) ->
  errorOf changedFiles diffContent rule = Some err ->
  runAll (before ++ rule :: after) changedFiles diffContent acc = Err err.
Proof.
  intros Hb Hr.
  destruct (runRules_skip before (rule :: after) changedFiles diffContent acc Hb)
    as [acc' ->].
  unfold ruleError in Hr. simpl.
  destruct (registry !! Rule.Type' rule) as [checker|]; [|congruence].
  destruct (Check checker _) as [vs|e]; [discriminate|congruence].
Qed.

Lemma Registry_lookup ty :
  registry !! ty =
  if String.eqb ty "diff_pattern_requires" then
    Some (mkRuleChecker
            (DiffPatternRequires_Check Regexp regexp_Compile MatchString)
            "diff_pattern_requires")
  else if String.eqb ty "diff_pattern_forbidden" then
    Some (mkRuleChecker
            (DiffPatternForbidden_Check Regexp regexp_Compile MatchString)
            "diff_pattern_forbidden")
  else if String.eqb ty "imports_forbidden" then
    Some (mkRuleChecker ImportsForbidden_Check "imports_forbidden")
  else None.
Proof.
  unfold Registry, RegisterChecker. simpl.
  rewrite !lookup_insert, lookup_empty.
  destruct (String.eqb_spec ty "diff_pattern_requires") as [->|H1].
  { now rewrite decide_True. }
  rewrite decide_False by congruence.
  destruct (String.eqb_spec ty "diff_pattern_forbidden") as [->|H2].
  { now rewrite decide_True. }
  rewrite decide_False by congruence.
  destruct (String.eqb_spec ty "imports_forbidden") as [->|H3].
  { now rewrite decide_True. }
  now rewrite decide_False by congruence.
Qed.

Lemma wrapErr_is_Err {A} context (r : result A) : is_Err (wrapErr context r) = is_Err r.
Proof. now destruct r. Qed.

Lemma ImportsForbidden_Err ctx :
  is_Err (ImportsForbidden_Check ctx) = true <->
  is_Err (getStringSlice (CheckContext.RuleConfig ctx) "from_globs") = true \/
  is_Err (getStringSlice (CheckContext.RuleConfig ctx) "forbid_globs") = true.
Proof.
  unfold ImportsForbidden_Check.
  destruct (getStringSlice _ "from_globs"); simpl; [|tauto].
  destruct (getStringSlice _ "forbid_globs"); simpl; intuition discriminate.
Qed.

Lemma DiffPatternForbidden_Err ctx :
  is_Err (DiffPatternForbidden_Check Regexp regexp_Compile MatchString ctx) = true <->
  is_Err (getStringSlice (CheckContext.RuleConfig ctx) "forbidden_regexes") = true \/
  exists patterns pattern,
    getStringSlice (CheckContext.RuleConfig ctx) "forbidden_regexes" = Ok patterns /\
    In pattern patterns /\ regexp_Compile pattern = None.
Proof.
  unfold DiffPatternForbidden_Check.
  destruct (getStringSlice _ "forbidden_regexes") as [patterns|e]; simpl.
  2:{ split; [auto|reflexivity]. }
  pose proof (compileAll_Err Regexp regexp_Compile "diff_pattern_forbidden" patterns)
    as Hc.
  destruct (compileAll _ _ _ patterns) as [compiled|e]; simpl in *.
  - split.
    + intros H. exfalso.
      destruct (getStringSlice _ "only_in_paths") as [[|p l]|];
        try discriminate H.
      destruct (filterFilesByGlobs _ _); discriminate H.
    + intros [H|(ps & p & [= <-] & Hin & Hn)]; [discriminate|].
      destruct Hc as [_ Hc]. discriminate Hc. eauto.
  - split; [|reflexivity]. intros _. right.
    destruct Hc as [Hc _]. destruct (Hc eq_refl) as (p & Hin & Hn).
    exists patterns, p. auto.
Qed.

Lemma DiffPatternRequires_Err ctx :
  is_Err (DiffPatternRequires_Check Regexp regexp_Compile MatchString ctx) = true <->
  is_Err (getStringSlice (CheckContext.RuleConfig ctx) "required_regexes") = true \/
  is_Err (getStringSlice (CheckContext.RuleConfig ctx) "only_in_paths") = true \/
  ((exists patterns pattern,
       getStringSlice (CheckContext.RuleConfig ctx) "required_regexes" = Ok patterns /\
       In pattern patterns /\ regexp_Compile pattern = None) /\
   exists paths,
     getStringSlice (CheckContext.RuleConfig ctx) "only_in_paths" = Ok paths /\
     filterFilesByGlobs (CheckContext.ChangedFiles ctx) paths <> []).
Proof.
  unfold DiffPatternRequires_Check.
  destruct (getStringSlice _ "required_regexes") as [patterns|e]; simpl.
  2:{ split; [auto|reflexivity]. }
  destruct (getStringSlice _ "only_in_paths") as [paths|e]; simpl.
  2:{ split; [auto|reflexivity]. }
  pose proof (compileAll_Err Regexp regexp_Compile "diff_pattern_requires" patterns)
    as Hc.
  destruct (filterFilesByGlobs _ paths) as [|f fs] eqn:Hf.
  - split; [discriminate|].
    intros [H|[H|(_ & ps & [= <-] & Hne)]]; try discriminate. congruence.
  - destruct (compileAll _ _ _ patterns) as [compiled|e]; simpl in *.
    + split.
      * intros H. exfalso. destruct (existsb _ _); discriminate H.
      * intros [H|[H|((ps & p & [= <-] & Hin & Hn) & _)]]; try discriminate.
        destruct Hc as [_ Hc]. discriminate Hc. eauto.
    + split; [|reflexivity]. intros _. right. right.
      destruct Hc as [Hc _]. destruct (Hc eq_refl) as (p & Hin & Hn).
      split; [exists patterns, p; auto|].
      exists paths. split; [reflexivity|]. rewrite Hf. discriminate.
Qed.

Lemma ruleError_fails changedFiles diffContent rule :
  errorOf changedFiles diffContent rule <> None <->
  ruleFails regexp_Compile changedFiles rule.
Proof.
  unfold ruleError, ruleFails. rewrite Registry_lookup.
  destruct (String.eqb_spec (Rule.Type' rule) "diff_pattern_requires") as [Ht|Ht1].
  { rewrite Ht. simpl.
    rewrite <- (DiffPatternRequires_Err (contextOf rule changedFiles diffContent)).
    destruct (DiffPatternRequires_Check _ _ _ _); simpl; intuition congruence. }
  destruct (String.eqb_spec (Rule.Type' rule) "diff_pattern_forbidden") as [Ht|Ht2].
  { rewrite Ht. simpl.
    rewrite <- (DiffPatternForbidden_Err (contextOf rule changedFiles diffContent)).
    destruct (DiffPatternForbidden_Check _ _ _ _); simpl; intuition congruence. }
  destruct (String.eqb_spec (Rule.Type' rule) "imports_forbidden") as [Ht|Ht3].
  { simpl.
    rewrite <- (ImportsForbidden_Err (contextOf rule changedFiles diffContent)).
    destruct (ImportsForbidden_Check _); simpl; intuition congruence. }
  intuition congruence.
Qed.

End RunErrors.

(** C8, as the code has it. [Engine.Run] stops at the first rule that fails
    and returns the error of that rule instead of a result; without such a
    rule it returns a result. A rule fails when its type is not registered,
    when a key its checker requires is missing or is no slice of strings, or
    when a pattern does not compile; a malformed [only_in_paths] of a
    diff_pattern_forbidden rule is no failure, and neither is a bad pattern of
    a diff_pattern_requires rule when no changed file matches
    [only_in_paths]. *)
Theorem Run_fail_fast
        (Regexp : Type) (regexp_Compile : string -> option Regexp)
        (MatchString : Regexp -> string -> bool)
        (now : Time) (e : Engine) (changedFiles : list string) (diffContent : string) :
  let outcome := Run Regexp regexp_Compile MatchString now e changedFiles diffContent in
  let error_of := ruleError regexp_Compile MatchString changedFiles diffContent in
  (forall err,
      outcome = Err err <->
      exists before rule after,
        Rules e = before ++ rule :: after /\
        (forall r, In r before -> error_of r = None) /\
        error_of rule = Some err) /\
  ((exists res, outcome = Ok res) <->
   forall rule, In rule (Rules e) -> error_of rule = None) /\
  (forall rule, error_of rule <> None <-> ruleFails regexp_Compile changedFiles rule).
Proof.
  intros outcome error_of.
  assert (Herr : forall err,
             outcome = Err err <->
             exists before rule after,
               Rules e = before ++ rule :: after /\
               (forall r, In r before -> error_of r = None) /\
               error_of rule = Some err).
  { intros err. unfold outcome, Run. split.
    - destruct (runRules _ _ _ (Rules e) _ _ []) as [vs|err'] eqn:Hr; simpl;
        [discriminate|].
      intros [= <-]. eapply runRules_Err. exact Hr.
    - intros (before & rule & after & Heq & Hb & Hr). rewrite Heq.
      rewrite (runRules_first_error _ _ _ before rule after _ _ [] err Hb Hr).
      reflexivity. }
  split; [exact Herr|]. split.
  - split.
    + intros [res Hres] rule Hin.
      destruct (error_of rule) as [err|] eqn:Hr; [exfalso|reflexivity].
      assert (Hex : exists before rule' after err',
                 Rules e = before ++ rule' :: after /\
                 (forall r, In r before -> error_of r = None) /\
                 error_of rule' = Some err').
      { clear Hres Herr. induction (Rules e) as [|r l IH]; [destruct Hin|].
        destruct (error_of r) as [er|] eqn:Her.
        - exists [], r, l, er. split; [reflexivity|]. split; [intros ? []|assumption].
        - destruct Hin as [->|Hin]; [congruence|].
          destruct (IH Hin) as (before & rule' & after & err' & -> & Hb & Hr').
          exists (r :: before), rule', after, err'. split; [reflexivity|].
          split; [|assumption]. intros r0 [<-|H0]; auto. }
      destruct Hex as (before & rule' & after & err' & Heq & Hb & Hr').
      assert (Hbad : outcome = Err err') by (apply Herr; eauto 7).
      congruence.
    + intros Hall. unfold outcome, Run.
      destruct (runRules_Ok _ _ _ (Rules e) changedFiles diffContent [] Hall)
        as [vs ->].
      simpl. eauto.
  - intros rule. apply ruleError_fails.
Qed.

(** ** The engine on the example rules *)

(** The claim that any wrong-shaped value and any bad pattern fails the run
    does not hold: the run below has a rule whose [only_in_paths] is a
    string and a rule whose pattern does not compile, and it returns a
    result. *)
Lemma Run_not_fail_fast_counterexample :
  literal_Compile "(" = None /\
  Rule.Config ruleWithMalformedPaths !! "only_in_paths" = Some (VString "src") /\
  isStringSlice (VString "src") = false /\
  Run string literal_Compile literal_MatchString 0%Z
      (NewEngine [ruleWithMalformedPaths; ruleWithBadRegex] [])
      ["main.go"] todoDiff
  = Ok (mkEngineResult
          [Violation.mk "no_todo" "warning" "no TODO in new code" "main.go"
                        "+// TODO later" ""]
          0 1).
Proof. repeat split; vm_compute; reflexivity. Qed.

(** C9 at two diffs: the first ends with a newline. *)
Lemma ParseDiff_concat_witness :
  ParseDiff (todoDiff ++ String newline importDiff)%string
    = ParseDiff todoDiff ++ ParseDiff importDiff /\
  ParseDiff (todoDiff ++ importDiff)%string
    = [mkFileDiff "main.go" ["// TODO later"];
       mkFileDiff "domain/service/User.kt"
                  ["import com.myapp.infra.database.UserRepository";
                   "import com.myapp.domain.model.User"]].
Proof.
  destruct (ParseDiff_concat todoDiff importDiff) as [Hjoin Hcat];
    [reflexivity|reflexivity|].
  split; [exact Hjoin|].
  rewrite (Hcat todoDiffBody); reflexivity.
Defined.

(** C10 at the rule whose [only_in_paths] is a string. *)
Lemma DiffPatternForbidden_malformed_only_in_paths_witness :
  DiffPatternForbidden_Check string literal_Compile literal_MatchString
    (contextOf ruleWithMalformedPaths ["main.go"] todoDiff)
  = Ok [Violation.mk "no_todo" "warning" "no TODO in new code" "main.go"
                     "+// TODO later" ""].
Proof.
  destruct (DiffPatternForbidden_malformed_only_in_paths
              string literal_Compile literal_MatchString
              (contextOf ruleWithMalformedPaths ["main.go"] todoDiff)
              (VString "src")) as [_ Hscan];
    [vm_compute; reflexivity|reflexivity|].
  rewrite (Hscan ["TODO"] ["TODO"]); vm_compute; reflexivity.
Defined.

(** C6 at a change of a Go file without a test. *)
Lemma DiffPatternRequires_spec_witness :
  DiffPatternRequires_Check string literal_Compile literal_MatchString
    (contextOf ruleNeedsTest ["README.txt"; "main.go"] todoDiff)
  = Ok [Violation.mk "needs_test" "error" "changes need a test" "main.go" "" ""].
Proof.
  destruct (DiffPatternRequires_spec
              string literal_Compile literal_MatchString
              (contextOf ruleNeedsTest ["README.txt"; "main.go"] todoDiff)
              ["func Test"] ["*.md"; "*.go"]) as (_ & _ & Hfirst).
  - vm_compute; reflexivity.
  - vm_compute; reflexivity.
  - intros pattern [<-|[]]. vm_compute. discriminate.
  - destruct (Hfirst "main.go" []) as [Hone _]; [vm_compute; reflexivity|].
    rewrite Hone; [reflexivity|].
    intros (fd & line & pattern & re & Hfd & Hline & Hp & Hc & Hm).
    destruct Hp as [<-|[]]. injection Hc as <-.
    destruct Hfd as [<-|[]]. destruct Hline as [<-|[]].
    vm_compute in Hm. discriminate.
Defined.

(** C5 at a domain file that imports the infrastructure. *)
Lemma ImportsForbidden_spec_witness :
  exists flagged : string -> bool,
    flagged "import com.myapp.infra.database.UserRepository" = true /\
    ImportsForbidden_Check
      (contextOf ruleDomainNoInfra ["domain/service/User.kt"] importDiff)
    = Ok (flat_map
            (fun file =>
               if matchesAnyGlob file ["domain/**"] then
                 match lastDiffOf file (ParseDiff importDiff) with
                 | Some fd =>
                     map (fun line =>
                            violationOf
                              (contextOf ruleDomainNoInfra ["domain/service/User.kt"]
                                         importDiff)
                              file ("+" ++ line))
                         (List.filter flagged (AddedLines fd))
                 | None => []
                 end
               else [])
            ["domain/service/User.kt"]).
Proof.
  destruct (ImportsForbidden_spec
              (contextOf ruleDomainNoInfra ["domain/service/User.kt"] importDiff)
              ["domain/**"] ["infra/**"])
    as (flagged & Hflag & Hcheck & Hexample);
    [vm_compute; reflexivity|vm_compute; reflexivity| |].
  - intros glob [<-|[]]. exists "infra", "/", "**". repeat split.
  - exists flagged. split; [|exact Hcheck].
    apply Hexample; [reflexivity|].
    exists "import ", "". reflexivity.
Defined.

Example ImportsForbidden_Check_domain :
  ImportsForbidden_Check
    (contextOf ruleDomainNoInfra ["domain/service/User.kt"] importDiff)
  = Ok [Violation.mk "domain_no_infra" "error" "no infra in domain"
                     "domain/service/User.kt"
                     "+import com.myapp.infra.database.UserRepository" ""].
Proof. vm_compute; reflexivity. Qed.

(** ** Glob matching with a double star *)

Lemma HasPrefix_stars_cons c pre rest :
  HasPrefix (String c (pre ++ "*" ++ rest)) "**" = HasPrefix (String c (pre ++ "*")) "**".
Proof.
  cbn [HasPrefix]. destruct (Ascii.eqb c "*"); [|reflexivity].
  destruct pre as [|d pre]; [reflexivity|].
  rewrite !append_cons. reflexivity.
Qed.

(** A pattern with a double star splits at the first one. *)
Lemma SplitN2_first pre post :
  Contains (pre ++ "*") "**" = false ->
  SplitN2 (pre ++ "**" ++ post) "**" = [pre; post].
Proof.
  induction pre as [|c pre IH]; intros Hfirst; [reflexivity|].
  rewrite append_cons in Hfirst. cbn [Contains] in Hfirst.
  destruct (HasPrefix (String c (pre ++ "*")) "**") eqn:Hp; [discriminate|].
  rewrite append_cons. cbn [SplitN2].
  change (pre ++ "**" ++ post)%string with (pre ++ "*" ++ ("*" ++ post))%string at 1.
  rewrite HasPrefix_stars_cons, Hp.
  change (pre ++ "*" ++ ("*" ++ post))%string with (pre ++ "**" ++ post)%string.
  now rewrite (IH Hfirst).
Qed.

Lemma Contains_double_star pre post : Contains (pre ++ "**" ++ post) "**" = true.
Proof.
  apply Contains_iff. now exists pre, post.
Qed.

Lemma first_double_star pattern :
  Contains pattern "**" = true ->
  exists pre post,
    pattern = (pre ++ "**" ++ post)%string /\ Contains (pre ++ "*") "**" = false.
Proof.
  induction pattern as [|c s IH]; [discriminate|].
  cbn [Contains]. destruct (HasPrefix (String c s) "**") eqn:Hp.
  - intros _. apply HasPrefix_iff in Hp. destruct Hp as [post Hp].
    exists "", post. split; [exact Hp|reflexivity].
  - intros Hc. destruct (IH Hc) as (pre & post & -> & Hfirst).
    exists (String c pre), post. split; [reflexivity|].
    rewrite append_cons. cbn [Contains].
    change (pre ++ "**" ++ post)%string with (pre ++ "*" ++ ("*" ++ post))%string in Hp.
    rewrite HasPrefix_stars_cons in Hp. now rewrite Hp.
Qed.

Lemma tailSubpaths_drop pathParts :
  tailSubpaths pathParts =
  map (fun i => Join (drop i pathParts) "/") (seq 0 (length pathParts)).
Proof.
  induction pathParts as [|p l IH]; [reflexivity|].
  cbn [tailSubpaths length seq map]. f_equal.
  rewrite IH, <- seq_shift, map_map. reflexivity.
Qed.

Lemma existsb_tailSubpaths (f : string -> bool) pathParts :
  existsb f (tailSubpaths pathParts) = true <->
  exists i, i < length pathParts /\ f (Join (drop i pathParts) "/") = true.
Proof.
  rewrite tailSubpaths_drop, existsb_exists. split.
  - intros (sub & Hin & Hf). apply in_map_iff in Hin.
    destruct Hin as (i & <- & Hi). apply in_seq in Hi. exists i. split; [lia|assumption].
  - intros (i & Hi & Hf). exists (Join (drop i pathParts) "/").
    split; [|assumption]. apply in_map_iff. exists i. split; [reflexivity|].
    apply in_seq. lia.
Qed.

Lemma matchOrFalse_iff pattern name :
  matchOrFalse pattern name = true <-> Filepath.Match pattern name = Some true.
Proof.
  unfold matchOrFalse. destruct (Filepath.Match pattern name) as [[]|]; simpl;
    intuition congruence.
Qed.

Lemma eqb_empty_TrimRight pre prefix :
  prefix = TrimRight pre "/" ->
  (if String.eqb pre "" then pre else TrimRight pre "/") = prefix.
Proof.
  intros ->. destruct (String.eqb_spec pre "") as [->|]; reflexivity.
Qed.

(** C4. A pattern with a double star is split once, at the first double
    star, into a prefix (without its trailing slashes) and a suffix (without
    its leading slashes).  A path that does not start with the prefix does
    not match; with an empty suffix every path that starts with the prefix
    matches; with a suffix the path matches exactly when [filepath.Match]
    accepts, for the suffix, the join of the segments from some index on of
    what is left of the path.  [src/model.kt] matches [**/*.kt] and
    [docs/readme.md] does not. *)
Theorem globMatch_doublestar (path pattern : string) :
  Contains pattern "**" = true ->
  exists pre post,
    pattern = (pre ++ "**" ++ post)%string /\
    Contains (pre ++ "*") "**" = false /\
    SplitN2 pattern "**" = [pre; post] /\
    let prefix := TrimRight pre "/" in
    let suffix := TrimLeft post "/" in
    let remaining :=
      if String.eqb prefix "" then path
      else TrimLeft (TrimPrefix path prefix) "/" in
    let pathParts := Split remaining slash in
    (HasPrefix path prefix = false -> globMatch path pattern = false) /\
    (HasPrefix path prefix = true -> suffix = "" -> globMatch path pattern = true) /\
    (HasPrefix path prefix = true -> suffix <> "" ->
     (globMatch path pattern = true <->
      exists i, i < length pathParts /\
                Filepath.Match suffix (Join (drop i pathParts) "/") = Some true)) /\
    globMatch "src/model.kt" "**/*.kt" = true /\
    globMatch "docs/readme.md" "**/*.kt" = false.
Proof.
  intros Hc. destruct (first_double_star pattern Hc) as (pre & post & -> & Hfirst).
  exists pre, post. split; [reflexivity|]. split; [assumption|].
  pose proof (SplitN2_first pre post Hfirst) as Hsplit.
  split; [assumption|]. intros prefix suffix remaining pathParts.
  assert (Hglob : globMatch path (pre ++ "**" ++ post) =
                  if negb (HasPrefix path prefix) then false
                  else if negb (String.eqb suffix "") then
                    existsb (matchOrFalse suffix) (tailSubpaths pathParts)
                  else true).
  { unfold globMatch. rewrite Hc, Hsplit. cbn [nth].
    rewrite (eqb_empty_TrimRight pre prefix eq_refl).
    fold suffix.
    destruct (String.eqb_spec pre "") as [->|Hpre]; cbn [negb andb].
    - reflexivity.
    - destruct (HasPrefix path prefix); cbn [negb]; [|reflexivity].
      unfold pathParts, remaining.
      destruct (String.eqb prefix ""); reflexivity. }
  split; [|split; [|split; [|split]]].
  - intros Hp. now rewrite Hglob, Hp.
  - intros Hp Hs. now rewrite Hglob, Hp, Hs.
  - intros Hp Hs. rewrite Hglob, Hp. cbn [negb].
    destruct (String.eqb_spec suffix "") as [|_]; [contradiction|]. cbn [negb].
    rewrite existsb_tailSubpaths.
    split; intros (i & Hi & Hm); exists i; (split; [assumption|]);
      now apply matchOrFalse_iff.
  - vm_compute; reflexivity.
  - vm_compute; reflexivity.
Qed.

(** C4 at the pattern [src/**/*.kt]. *)
Lemma globMatch_doublestar_witness :
  exists pre post,
    "src/**/*.kt" = (pre ++ "**" ++ post)%string /\
    SplitN2 "src/**/*.kt" "**" = [pre; post] /\
    (globMatch "src/app/ui/Main.kt" "src/**/*.kt" = true <->
     exists i,
       i < length (Split (TrimLeft (TrimPrefix "src/app/ui/Main.kt" (TrimRight pre "/")) "/")
                         slash) /\
       Filepath.Match (TrimLeft post "/")
         (Join (drop i (Split (TrimLeft (TrimPrefix "src/app/ui/Main.kt"
                                                    (TrimRight pre "/")) "/")
                              slash)) "/") = Some true).
Proof.
  destruct (globMatch_doublestar "src/app/ui/Main.kt" "src/**/*.kt")
    as (pre & post & Heq & Hfirst & Hsplit & H); [reflexivity|].
  exists pre, post. split; [assumption|]. split; [assumption|].
  assert (Hpre : pre = "src/" /\ post = "/*.kt").
  { vm_compute in Hsplit. now injection Hsplit as <- <-. }
  destruct Hpre as [-> ->].
  destruct H as (_ & _ & Hiff & _).
  apply Hiff; [reflexivity|discriminate].
Defined.

(** ** The rounds of [filepath.Match]

    The loops of the matcher are written with a number of rounds; the
    lemmas below show that the number given by [Match] is enough: any larger
    number gives the same answer. *)

Module MatchRounds.
Import Filepath.

Lemma drop_bytes_length n s :
  String.length (drop_bytes n s) = String.length s - n.
Proof.
  revert s; induction n as [|n IH]; intros s; simpl; [lia|].
  destruct s as [|c s]; simpl; [reflexivity|apply IH].
Qed.

Lemma DecodeRuneInString_size s :
  s <> "" -> 1 <= snd (DecodeRuneInString s).
Proof.
  intros Hs. destruct s as [|c0 s]; [contradiction|].
  unfold DecodeRuneInString.
  repeat match goal with
         | |- context [if ?b then _ else _] => destruct b
         | |- context [match ?t with EmptyString => _ | String _ _ => _ end] =>
             destruct t
         end; simpl; lia.
Qed.

Lemma getEsc_shorter chunk r nchunk :
  getEsc chunk = Some (r, nchunk) -> String.length nchunk < String.length chunk.
Proof.
  unfold getEsc. destruct chunk as [|c rest]; [discriminate|].
  destruct (Ascii.eqb c "-" || Ascii.eqb c "]"); [discriminate|].
  set (chunk1 := if Ascii.eqb c "\" then rest else String c rest).
  assert (Hlen : String.length chunk1 <= String.length (String c rest)).
  { unfold chunk1. destruct (Ascii.eqb c "\"); simpl; lia. }
  destruct chunk1 as [|d chunk1'] eqn:Hc1; [discriminate|].
  pose proof (DecodeRuneInString_size (String d chunk1') ltac:(discriminate)) as Hn.
  destruct (DecodeRuneInString (String d chunk1')) as [r' n]. simpl in Hn.
  destruct ((r' =? RuneError)%N && Nat.eqb n 1); [discriminate|].
  pose proof (drop_bytes_length n (String d chunk1')) as Hd.
  destruct (drop_bytes n (String d chunk1')) as [|e t] eqn:Hdrop; [discriminate|].
  intros [= <- <-]. simpl in *. lia.
Qed.

Lemma startsWith_drop c s :
  startsWith c s = true -> String.length (drop_bytes 1 s) < String.length s.
Proof. destruct s; simpl; [discriminate|lia]. Qed.

Lemma classRanges_rounds n m chunk r matched nrange :
  String.length chunk < n -> String.length chunk < m ->
  classRanges n chunk r matched nrange = classRanges m chunk r matched nrange.
Proof.
  revert m chunk matched nrange.
  induction n as [|n IH]; intros m chunk matched nrange Hn Hm; [lia|].
  destruct m as [|m]; [lia|]. cbn [classRanges].
  destruct (startsWith "]" chunk && Nat.ltb 0 nrange); [reflexivity|].
  destruct (getEsc chunk) as [[lo chunk1]|] eqn:Hesc; [|reflexivity].
  pose proof (getEsc_shorter _ _ _ Hesc) as H1.
  destruct (startsWith "-" chunk1) eqn:Hdash.
  - pose proof (startsWith_drop _ _ Hdash) as H2.
    destruct (getEsc (drop_bytes 1 chunk1)) as [[hi chunk2]|] eqn:Hesc2; [|reflexivity].
    pose proof (getEsc_shorter _ _ _ Hesc2) as H3.
    apply IH; lia.
  - apply IH; lia.
Qed.

Lemma classRanges_shorter n chunk r matched nrange chunk' b :
  classRanges n chunk r matched nrange = Some (chunk', b) ->
  String.length chunk' < String.length chunk.
Proof.
  revert chunk matched nrange.
  induction n as [|n IH]; intros chunk matched nrange; [discriminate|].
  cbn [classRanges].
  destruct (startsWith "]" chunk && Nat.ltb 0 nrange) eqn:Hclose.
  - intros [= <- <-]. apply andb_true_iff in Hclose.
    now apply startsWith_drop with (c := "]"%char).
  - destruct (getEsc chunk) as [[lo chunk1]|] eqn:Hesc; [|discriminate].
    pose proof (getEsc_shorter _ _ _ Hesc) as H1.
    destruct (startsWith "-" chunk1) eqn:Hdash.
    + pose proof (startsWith_drop _ _ Hdash) as H2.
      destruct (getEsc (drop_bytes 1 chunk1)) as [[hi chunk2]|] eqn:Hesc2;
        [|discriminate].
      pose proof (getEsc_shorter _ _ _ Hesc2) as H3.
      intros H. apply IH in H. lia.
    + intros H. apply IH in H. lia.
Qed.

Lemma matchChunkLoop_rounds n m chunk s failed :
  String.length chunk <= n -> String.length chunk <= m ->
  matchChunkLoop n chunk s failed = matchChunkLoop m chunk s failed.
Proof.
  revert m chunk s failed.
  induction n as [|n IH]; intros m chunk s failed Hn Hm.
  - destruct chunk; [now destruct m|simpl in Hn; lia].
  - destruct chunk as [|c chunk']; [now destruct m|].
    destruct m as [|m]; [simpl in Hm; lia|].
    simpl in Hn, Hm. cbn [matchChunkLoop].
    destruct (Ascii.eqb c "[").
    + destruct (if failed || String.eqb s "" then _ else _) as [r s1].
      assert (Hneg : String.length
                       (snd (if startsWith "^" chunk'
                             then (true, drop_bytes 1 chunk') else (false, chunk')))
                     <= String.length chunk').
      { destruct (startsWith "^" chunk') eqn:Hs; cbn [snd]; [|lia].
        apply startsWith_drop in Hs. lia. }
      destruct (if startsWith "^" chunk' then _ else _) as [negated chunk1].
      cbn [snd] in Hneg.
      destruct (classRanges _ chunk1 r false 0) as [[chunk2 matched]|] eqn:Hcl;
        [|reflexivity].
      apply classRanges_shorter in Hcl. apply IH; lia.
    + destruct (Ascii.eqb c "?").
      * destruct (failed || String.eqb s ""); [apply IH; lia|].
        destruct (DecodeRuneInString s) as [r k]. apply IH; lia.
      * destruct (Ascii.eqb c "\").
        -- destruct chunk' as [|d chunk'']; [reflexivity|]. simpl in Hn, Hm.
           destruct (failed || String.eqb s ""); [apply IH; lia|].
           destruct s; apply IH; lia.
        -- destruct (failed || String.eqb s ""); [apply IH; lia|].
           destruct s; apply IH; lia.
Qed.

Lemma TrimLeft_length s cutset :
  String.length (TrimLeft s cutset) <= String.length s.
Proof.
  induction s as [|c s IH]; simpl; [lia|].
  destruct (in_cutset c cutset); simpl; lia.
Qed.

Lemma TrimLeft_star_head s :
  startsWith "*" (TrimLeft s "*") = false.
Proof.
  induction s as [|c s IH]; [reflexivity|].
  cbn [TrimLeft in_cutset]. destruct (Ascii.eqb c "*") eqn:Hc; [exact IH|].
  cbn [startsWith]. exact Hc.
Qed.

Lemma scanBody_rest pattern inrange :
  String.length (snd (scanBody pattern inrange)) <= String.length pattern /\
  (pattern <> "" -> startsWith "*" pattern = false ->
   String.length (snd (scanBody pattern inrange)) < String.length pattern).
Proof.
  revert inrange.
  assert (H : forall n pattern inrange,
             String.length pattern <= n ->
             String.length (snd (scanBody pattern inrange)) <= String.length pattern /\
             (pattern <> "" -> startsWith "*" pattern = false ->
              String.length (snd (scanBody pattern inrange)) < String.length pattern)).
  { induction n as [|n IH]; intros pat inr Hlen.
    - destruct pat; [|simpl in Hlen; lia]. simpl. split; [lia|congruence].
    - destruct pat as [|c rest]; [simpl; split; [lia|congruence]|].
      simpl in Hlen. cbn [scanBody startsWith].
      destruct (Ascii.eqb c "\").
      + destruct rest as [|d rest']; [simpl; split; intros; lia|].
        simpl in Hlen.
        destruct (IH rest' inr ltac:(lia)) as [Hle _].
        destruct (scanBody rest' inr) as [chunk pat']. simpl in *.
        split; intros; lia.
      + destruct (Ascii.eqb c "[").
        * destruct (IH rest true ltac:(lia)) as [Hle _].
          destruct (scanBody rest true) as [chunk pat']. simpl in *.
          split; intros; lia.
        * destruct (Ascii.eqb c "]").
          -- destruct (IH rest false ltac:(lia)) as [Hle _].
             destruct (scanBody rest false) as [chunk pat']. simpl in *.
             split; intros; lia.
          -- destruct (Ascii.eqb c "*") eqn:Hstar.
             ++ destruct inr.
                ** destruct (IH rest true ltac:(lia)) as [Hle _].
                   destruct (scanBody rest true) as [chunk pat']. simpl in *.
                   split; intros; [lia|discriminate].
                ** simpl. split; intros; [lia|discriminate].
             ++ destruct (IH rest inr ltac:(lia)) as [Hle _].
                destruct (scanBody rest inr) as [chunk pat']. simpl in *.
                split; intros; lia. }
  intros inrange. apply (H (String.length pattern)). lia.
Qed.

(** Every chunk takes at least one byte of a non-empty pattern. *)
Lemma scanChunk_shorter pattern star chunk rest :
  pattern <> "" -> scanChunk pattern = (star, chunk, rest) ->
  String.length rest < String.length pattern.
Proof.
  intros Hne. unfold scanChunk.
  pose proof (TrimLeft_length pattern "*") as Hle.
  pose proof (TrimLeft_star_head pattern) as Hhead.
  destruct (scanBody_rest (TrimLeft pattern "*") false) as [Hr Hs].
  destruct (scanBody (TrimLeft pattern "*") false) as [chunk' rest'] eqn:Hsb.
  cbn [snd] in Hr, Hs. intros [= _ _ <-].
  destruct (String.eqb_spec (TrimLeft pattern "*") pattern) as [Heq|Hneq].
  - rewrite Heq in *. apply Hs; assumption.
  - assert (String.length (TrimLeft pattern "*") <> String.length pattern).
    { intros Hlen. apply Hneq. clear -Hlen.
      induction pattern as [|c s IH]; [reflexivity|].
      cbn [TrimLeft in_cutset] in *. destruct (Ascii.eqb c "*"); [|reflexivity].
      pose proof (TrimLeft_length s "*"). simpl in Hlen. lia. }
    lia.
Qed.

Lemma MatchLoop_rounds n m pattern name :
  String.length pattern <= n -> String.length pattern <= m ->
  MatchLoop n pattern name = MatchLoop m pattern name.
Proof.
  revert m pattern name. induction n as [|n IH]; intros m pattern name Hn Hm.
  - destruct pattern; [now destruct m|simpl in Hn; lia].
  - destruct pattern as [|c p]; [now destruct m|].
    destruct m as [|m]; [simpl in Hm; lia|].
    cbn [MatchLoop].
    destruct (scanChunk (String c p)) as [[star chunk] rest] eqn:Hsc.
    apply scanChunk_shorter in Hsc; [|discriminate]. simpl in Hn, Hm, Hsc.
    destruct (star && String.eqb chunk ""); [reflexivity|].
    destruct (matchChunk chunk name) as [| |t].
    + reflexivity.
    + destruct star; [|reflexivity].
      destruct (starLoop chunk (String.eqb rest "") name); try reflexivity.
      apply IH; lia.
    + destruct (String.eqb t "" || negb (String.eqb rest ""));
        [apply IH; lia|].
      destruct star; [|reflexivity].
      destruct (starLoop chunk (String.eqb rest "") name); try reflexivity.
      apply IH; lia.
Qed.

(** More rounds than the length of the pattern do not change the answer of
    [filepath.Match]. *)
Lemma Match_rounds n pattern name :
  String.length pattern <= n -> MatchLoop n pattern name = Match pattern name.
Proof. intros H. unfold Match. apply MatchLoop_rounds; lia. Qed.

End MatchRounds.

(** ** Binary64 arithmetic *)

Local Open Scope Z_scope.

Lemma Zdigits2_log2 p : Zdigits2 (Z.pos p) = Z.log2 (2 * Z.pos p).
Proof.
  change (2 * Z.pos p) with (Z.pos p~0). unfold Zdigits2. cbn [Z.log2].
  reflexivity.
Qed.

Lemma Zdigits2_bounds q k :
  0 < k -> 2 ^ (k - 1) <= q < 2 ^ k -> Zdigits2 q = k.
Proof.
  intros Hk [Hlo Hhi].
  assert (Hq : 0 < q) by (pose proof (Z.pow_pos_nonneg 2 (k - 1)); lia).
  destruct q as [|p|p]; try lia.
  rewrite Zdigits2_log2. apply Z.log2_unique; [lia|].
  replace (k + 1) with (Z.succ k) by lia. rewrite Z.pow_succ_r by lia.
  replace k with (Z.succ (k - 1)) at 1 by lia. rewrite Z.pow_succ_r by lia.
  lia.
Qed.

Lemma fexp_normal e : -1021 <= e -> fexp Float64.prec Float64.emax e = e - 53.
Proof. unfold fexp, emin, Float64.prec, Float64.emax. lia. Qed.

Lemma loc_of_record_of_loc m l :
  loc_of_shr_record (shr_record_of_loc m l) = l.
Proof. destruct l as [|[]]; reflexivity. Qed.

Lemma shr_m_record_of_loc m l : shr_m (shr_record_of_loc m l) = m.
Proof. destruct l as [|[]]; reflexivity. Qed.

(** A mantissa of 53 digits is not shifted. *)
Lemma shr_fexp_53 q ex l :
  2 ^ 52 <= q < 2 ^ 53 -> -1074 <= ex ->
  shr_fexp Float64.prec Float64.emax q ex l = (shr_record_of_loc q l, ex).
Proof.
  intros Hq Hex. unfold shr_fexp.
  rewrite (Zdigits2_bounds q 53) by lia.
  rewrite fexp_normal by lia.
  replace (53 + ex - 53 - ex) with 0 by lia. reflexivity.
Qed.

(** A mantissa of 54 digits is shifted by one digit. *)
Lemma shr_fexp_54 q ex l :
  2 ^ 53 <= q < 2 ^ 54 -> -1075 <= ex ->
  shr_fexp Float64.prec Float64.emax q ex l =
  (shr_1 (shr_record_of_loc q l), ex + 1).
Proof.
  intros Hq Hex. unfold shr_fexp.
  rewrite (Zdigits2_bounds q 54) by lia.
  rewrite fexp_normal by lia.
  replace (54 + ex - 53 - ex) with 1 by lia. reflexivity.
Qed.

Lemma binary_round_aux_finish q ex l :
  binary_round_aux Float64.prec Float64.emax false q ex l =
  round_finish
    (round_nearest_even
       (shr_m (fst (shr_fexp Float64.prec Float64.emax q ex l)))
       (loc_of_shr_record (fst (shr_fexp Float64.prec Float64.emax q ex l))))
    (snd (shr_fexp Float64.prec Float64.emax q ex l)).
Proof.
  unfold binary_round_aux, round_finish.
  destruct (shr_fexp Float64.prec Float64.emax q ex l) as [mrs' e']. reflexivity.
Qed.

Lemma round_finish_53 m e :
  2 ^ 52 <= m < 2 ^ 53 -> -1074 <= e <= 971 ->
  exists M, m = Z.pos M /\ round_finish m e = S754_finite false M e.
Proof.
  intros Hm He. unfold round_finish. rewrite shr_fexp_53 by lia.
  cbn [shr_record_of_loc shr_m].
  destruct m as [|M|M]; try lia. exists M. split; [reflexivity|].
  unfold Float64.emax, Float64.prec.
  destruct (Z.leb_spec e (1024 - 53)); [reflexivity|lia].
Qed.

Lemma round_finish_pow53 e :
  -1074 <= e <= 970 ->
  round_finish (2 ^ 53) e = S754_finite false (2 ^ 52)%positive (e + 1).
Proof.
  intros He. unfold round_finish. rewrite shr_fexp_54 by lia.
  change (shr_m (shr_1 (shr_record_of_loc (2 ^ 53) loc_Exact))) with (Z.pos (2 ^ 52)).
  unfold Float64.emax, Float64.prec.
  destruct (Z.leb_spec (e + 1) (1024 - 53)); [reflexivity|lia].
Qed.

(** The first shift and the rounding of a mantissa of 53 or 54 digits: the
    rounded mantissa [q'] at the exponent [e1] is within one unit in the last
    place of [q] at [ex], and equal to it when nothing is lost. *)
Lemma round_first_pass q ex l :
  2 ^ 52 <= q < 2 ^ 54 -> -1074 <= ex ->
  let sh := shr_fexp Float64.prec Float64.emax q ex l in
  let q' := round_nearest_even (shr_m (fst sh)) (loc_of_shr_record (fst sh)) in
  let e1 := snd sh in
  2 ^ 52 <= q' <= 2 ^ 53 /\
  ((e1 = ex /\ q <= q' <= q + 1 /\ (l = loc_Exact -> q' = q) /\ q < 2 ^ 53) \/
   (e1 = ex + 1 /\ q - 1 <= 2 * q' <= q + 2 /\
    (l = loc_Exact -> Z.even q = true -> 2 * q' = q) /\ 2 ^ 53 <= q)).
Proof.
  intros Hq Hex sh q' e1. subst sh q' e1.
  destruct (Z_lt_le_dec q (2 ^ 53)) as [Hlt|Hge].
  - rewrite shr_fexp_53 by lia. cbn [fst snd].
    rewrite shr_m_record_of_loc, loc_of_record_of_loc.
    assert (Hr : q <= round_nearest_even q l <= q + 1 /\
                 (l = loc_Exact -> round_nearest_even q l = q)).
    { destruct l as [|[]]; cbn [round_nearest_even];
        try destruct (Z.even q); split; try lia; try discriminate; reflexivity. }
    split; [lia|]. left. intuition lia.
  - rewrite shr_fexp_54 by lia. cbn [fst snd].
    destruct q as [|p|p]; try lia.
    destruct p as [p|p|]; [| |lia].
    + assert (Hp : 2 ^ 52 <= Z.pos p < 2 ^ 53) by lia.
      assert (Hodd : Z.even (Z.pos p~1) = false) by reflexivity.
      destruct l as [|[]]; cbn [shr_record_of_loc shr_1 shr_m loc_of_shr_record
                                 round_nearest_even orb];
        try destruct (Z.even (Z.pos p));
        (split; [lia|]); right;
        (split; [reflexivity|]); (split; [lia|]);
        (split; [|lia]); intros; try discriminate; congruence.
    + assert (Hp : 2 ^ 52 <= Z.pos p < 2 ^ 53) by lia.
      destruct l as [|[]]; cbn [shr_record_of_loc shr_1 shr_m loc_of_shr_record
                                 round_nearest_even orb];
        try destruct (Z.even (Z.pos p));
        (split; [lia|]); right;
        (split; [reflexivity|]); (split; [lia|]);
        (split; [|lia]); intros; try discriminate; lia.
Qed.

(** [binary_round_aux] on a positive mantissa of 53 or 54 digits. *)
Lemma binary_round_aux_bounds q ex l :
  2 ^ 52 <= q < 2 ^ 54 -> -1074 <= ex <= 969 ->
  exists M E,
    binary_round_aux Float64.prec Float64.emax false q ex l = S754_finite false M E /\
    2 ^ 52 <= Z.pos M < 2 ^ 53 /\ ex <= E <= ex + 2 /\
    q - 1 <= Z.pos M * 2 ^ (E - ex) <= q + 2 /\
    (l = loc_Exact -> q < 2 ^ 53 \/ Z.even q = true -> Z.pos M * 2 ^ (E - ex) = q) /\
    (l = loc_Exact -> q < 2 ^ 53 -> E = ex).
Proof.
  intros Hq Hex. rewrite binary_round_aux_finish.
  destruct (round_first_pass q ex l Hq (proj1 Hex)) as [Hq' Hcase].
  set (q' := round_nearest_even _ _) in *.
  set (e1 := snd _) in *.
  assert (He1 : ex <= e1 <= ex + 1) by (destruct Hcase as [[-> _]|[-> _]]; lia).
  destruct (Z_lt_le_dec q' (2 ^ 53)) as [Hlt|Hge].
  - destruct (round_finish_53 q' e1) as (M & HM & ->); [lia|lia|].
    exists M, e1. split; [reflexivity|]. rewrite <- HM.
    split; [lia|]. split; [lia|].
    destruct Hcase as [(-> & Hb & Hx & Hs)|(-> & Hb & Hx & Hs)].
    + replace (ex - ex) with 0 by lia. rewrite Z.pow_0_r, Z.mul_1_r.
      split; [lia|]. split; [auto|reflexivity].
    + replace (ex + 1 - ex) with 1 by lia. rewrite Z.pow_1_r.
      split; [lia|]. split; [|lia].
      intros Hl [Hs'|He]; [lia|]. rewrite Z.mul_comm. auto.
  - assert (Hq53 : q' = 2 ^ 53) by lia. rewrite Hq53, round_finish_pow53 by lia.
    exists (2 ^ 52)%positive, (e1 + 1).
    split; [reflexivity|]. split; [lia|]. split; [lia|].
    destruct Hcase as [(-> & Hb & Hx & Hs)|(-> & Hb & Hx & Hs)].
    + replace (ex + 1 - ex) with 1 by lia. rewrite Z.pow_1_r.
      split; [lia|]. split; [|intros Hl; specialize (Hx Hl); lia].
      intros Hl _. specialize (Hx Hl). lia.
    + replace (ex + 1 + 1 - ex) with 2 by lia.
      split; [lia|]. split; [|lia].
      intros Hl [Hs'|He]; [lia|]. specialize (Hx Hl He). lia.
Qed.

Lemma Pos_iter_xO p k : Z.pos (Pos.iter xO p k) = Z.pos p * 2 ^ Z.pos k.
Proof.
  induction k as [|k IH] using Pos.peano_ind.
  - cbn [Pos.iter]. lia.
  - rewrite Pos.iter_succ, Pos2Z.inj_xO, IH, Pos2Z.inj_succ, Z.pow_succ_r by lia.
    lia.
Qed.

Lemma shl_align_spec p ex ex' :
  ex' <= ex ->
  snd (shl_align p ex ex') = ex' /\
  Z.pos (fst (shl_align p ex ex')) = Z.pos p * 2 ^ (ex - ex').
Proof.
  intros H. unfold shl_align.
  destruct (ex' - ex) as [|d|d] eqn:Hd; try lia.
  - assert (ex' = ex) by lia. subst ex'. rewrite Z.sub_diag. cbn [fst snd]. lia.
  - cbn [fst snd]. split; [reflexivity|].
    rewrite Pos_iter_xO. f_equal. f_equal. lia.
Qed.

Lemma Zdigits2_spec p :
  2 ^ (Zdigits2 (Z.pos p) - 1) <= Z.pos p < 2 ^ Zdigits2 (Z.pos p) /\
  0 < Zdigits2 (Z.pos p).
Proof.
  rewrite Zdigits2_log2.
  pose proof (Z.log2_spec (2 * Z.pos p) ltac:(lia)) as [Hlo Hhi].
  assert (Hpos : 0 < Z.log2 (2 * Z.pos p)).
  { apply Z.log2_pos. lia. }
  rewrite Z.pow_succ_r in Hhi by lia.
  replace (Z.log2 (2 * Z.pos p)) with (Z.succ (Z.log2 (2 * Z.pos p) - 1)) in Hlo at 1
    by lia.
  rewrite Z.pow_succ_r in Hlo by lia. lia.
Qed.

(** The conversion of a positive integer below [2^53] is exact. *)
Lemma of_int_exact c :
  0 < c < 2 ^ 53 ->
  exists M E,
    Float64.of_int c = S754_finite false M E /\
    2 ^ 52 <= Z.pos M < 2 ^ 53 /\ -52 <= E <= 0 /\
    Z.pos M = c * 2 ^ (- E).
Proof.
  intros Hc. destruct c as [|p|p]; try lia.
  unfold Float64.of_int, binary_normalize, binary_round.
  destruct (Zdigits2_spec p) as [Hd Hdpos].
  change (Z.pos (digits2_pos p)) with (Zdigits2 (Z.pos p)).
  set (d := Zdigits2 (Z.pos p)) in *.
  assert (Hd53 : d <= 53).
  { destruct (Z_le_gt_dec d 53) as [|Hgt]; [assumption|exfalso].
    assert (2 ^ 53 <= 2 ^ (d - 1)) by (apply Z.pow_le_mono_r; lia). lia. }
  rewrite Z.add_0_r, fexp_normal by lia.
  destruct (shl_align_spec p 0 (d - 53)) as [He Hm]; [lia|].
  destruct (shl_align p 0 (d - 53)) as [mz ez]. cbn [fst snd] in He, Hm. subst ez.
  replace (0 - (d - 53)) with (53 - d) in Hm by lia.
  assert (Hmz : 2 ^ 52 <= Z.pos mz < 2 ^ 53).
  { assert (Hp52 : 2 ^ 52 = 2 ^ (d - 1) * 2 ^ (53 - d))
      by (rewrite <- Z.pow_add_r by lia; f_equal; lia).
    assert (Hp53 : 2 ^ 53 = 2 ^ d * 2 ^ (53 - d))
      by (rewrite <- Z.pow_add_r by lia; f_equal; lia).
    assert (Hpos : 0 < 2 ^ (53 - d)) by (apply Z.pow_pos_nonneg; lia).
    rewrite Hm, Hp52, Hp53.
    split; [apply Z.mul_le_mono_nonneg_r; lia|apply Z.mul_lt_mono_pos_r; lia]. }
  destruct (binary_round_aux_bounds (Z.pos mz) (d - 53) loc_Exact)
    as (M & E & Hr & HM & HE & _ & Hexact & HEeq); [lia|lia|].
  specialize (HEeq eq_refl ltac:(lia)). subst E.
  specialize (Hexact eq_refl ltac:(lia)).
  rewrite Z.sub_diag, Z.pow_0_r, Z.mul_1_r in Hexact.
  exists M, (d - 53). split; [exact Hr|]. split; [lia|]. split; [lia|].
  rewrite Hexact, Hm. f_equal. f_equal. lia.
Qed.

Lemma iter_shr_52 M :
  SpecFloat.iter_pos shr_1 52 (Build_shr_record (Z.pos (4503599627370496 * M)) false false) =
  Build_shr_record (Z.pos M) false false.
Proof. reflexivity. Qed.

(** The product by [2.0] adds one to the exponent. *)
Lemma mul_two_exact M E :
  2 ^ 52 <= Z.pos M < 2 ^ 53 -> -1000 <= E <= 900 ->
  Float64.mul (S754_finite false M E) Float64.two = S754_finite false M (E + 1).
Proof.
  intros HM HE.
  change Float64.two with (S754_finite false 4503599627370496 (-51)).
  unfold Float64.mul. cbn [SFmul xorb].
  fold Float64.prec Float64.emax. rewrite binary_round_aux_finish.
  assert (Hsh : shr_fexp Float64.prec Float64.emax
                         (Z.pos (M * 4503599627370496)) (E + -51) loc_Exact =
                (Build_shr_record (Z.pos M) false false, E + 1)).
  { unfold shr_fexp.
    rewrite (Zdigits2_bounds (Z.pos (M * 4503599627370496)) 105) by lia.
    rewrite fexp_normal by lia.
    replace (105 + (E + -51) - 53 - (E + -51)) with 52 by lia.
    cbn [shr shr_record_of_loc]. rewrite Pos.mul_comm, iter_shr_52.
    f_equal. lia. }
  rewrite Hsh. cbn [fst snd shr_m loc_of_shr_record round_nearest_even].
  destruct (round_finish_53 (Z.pos M) (E + 1)) as (M' & [= <-] & ->); [lia|lia|].
  reflexivity.
Qed.

Lemma div_eucl_div_mod a b : Z.div_eucl a b = (a / b, a mod b).
Proof. unfold Z.div, Z.modulo. now destruct (Z.div_eucl a b). Qed.

Lemma SFdiv_core_three M E :
  2 ^ 52 <= Z.pos M < 2 ^ 53 -> -1000 <= E ->
  SFdiv_core_binary Float64.prec Float64.emax (Z.pos M) E
                    (Z.pos 6755399441055744) (-51) =
  (Z.pos M * 2 ^ 53 / (3 * 2 ^ 51), E - 2,
   new_location (3 * 2 ^ 51) (Z.pos M * 2 ^ 53 mod (3 * 2 ^ 51))).
Proof.
  intros HM HE. unfold SFdiv_core_binary.
  rewrite (Zdigits2_bounds (Z.pos M) 53) by lia.
  change (Zdigits2 (Z.pos 6755399441055744)) with 53.
  rewrite fexp_normal by lia.
  replace (Z.min (53 + E - (53 + -51) - 53) (E - -51)) with (E - 2) by lia.
  replace (E - -51 - (E - 2)) with 53 by lia.
  rewrite Z.shiftl_mul_pow2 by lia.
  change (Z.pos 6755399441055744) with (3 * 2 ^ 51).
  now rewrite div_eucl_div_mod.
Qed.

Lemma new_location_exact nb : new_location nb 0 = loc_Exact.
Proof. unfold new_location, new_location_even, new_location_odd. now destruct (Z.even nb). Qed.

(** The quotient by [3.0] of a float with a 53-digit mantissa [M]: the
    result is finite; counted in units of the exponent [E - 2], it is within
    two units of the integer quotient [q] of [4 M] by 3, and it is [q] when the
    division is exact. *)
Lemma div_three_bounds M E :
  2 ^ 52 <= Z.pos M < 2 ^ 53 -> -1000 <= E <= 900 ->
  let q := 4 * Z.pos M / 3 in
  exists M' E',
    Float64.div (S754_finite false M E) Float64.three = S754_finite false M' E' /\
    2 ^ 52 <= Z.pos M' < 2 ^ 53 /\ E - 2 <= E' <= E /\
    q - 1 <= Z.pos M' * 2 ^ (E' - (E - 2)) <= q + 2 /\
    ((4 * Z.pos M) mod 3 = 0 -> Z.pos M' * 2 ^ (E' - (E - 2)) = q).
Proof.
  intros HM HE q.
  change Float64.three with (S754_finite false 6755399441055744 (-51)).
  unfold Float64.div. cbn [SFdiv xorb].
  change (SFdiv_core_binary 53 1024) with (SFdiv_core_binary Float64.prec Float64.emax).
  change (binary_round_aux 53 1024) with (binary_round_aux Float64.prec Float64.emax).
  rewrite SFdiv_core_three by lia.
  assert (Hq : Z.pos M * 2 ^ 53 / (3 * 2 ^ 51) = q).
  { unfold q. replace (Z.pos M * 2 ^ 53) with (4 * Z.pos M * 2 ^ 51) by lia.
    rewrite Z.div_mul_cancel_r by lia. reflexivity. }
  assert (Hr : Z.pos M * 2 ^ 53 mod (3 * 2 ^ 51) = (4 * Z.pos M) mod 3 * 2 ^ 51).
  { replace (Z.pos M * 2 ^ 53) with (4 * Z.pos M * 2 ^ 51) by lia.
    rewrite Z.mul_mod_distr_r by lia. reflexivity. }
  rewrite Hq, Hr.
  assert (Hq4 : q = 4 * Z.pos M / 3) by reflexivity.
  assert (Hqb : 2 ^ 52 <= q < 2 ^ 54).
  { unfold q. pose proof (Z.div_mod (4 * Z.pos M) 3 ltac:(lia)).
    pose proof (Z.mod_pos_bound (4 * Z.pos M) 3 ltac:(lia)). lia. }
  destruct (binary_round_aux_bounds
              q (E - 2) (new_location (3 * 2 ^ 51) ((4 * Z.pos M) mod 3 * 2 ^ 51)))
    as (M' & E' & Hres & HM' & HE' & Hb & Hexact & _); [exact Hqb|lia|].
  clearbody q.
  exists M', E'. split; [exact Hres|]. split; [lia|].
  assert (HE'' : E' <= E).
  { destruct (Z_le_gt_dec E' E) as [|Hgt]; [assumption|exfalso].
    assert (HEE : E' - (E - 2) = 3 \/ E' - (E - 2) = 4) by lia.
    destruct HEE as [HEE|HEE]; rewrite HEE in Hb; lia. }
  split; [lia|]. split; [exact Hb|].
  intros Hmod. rewrite Hmod, Z.mul_0_l, new_location_exact in Hexact.
  apply Hexact; [reflexivity|].
  right.
  assert (Hdiv : 4 * Z.pos M = 3 * q).
  { pose proof (Z.div_mod (4 * Z.pos M) 3 ltac:(lia)) as Hdm.
    rewrite Hmod, <- Hq4 in Hdm. lia. }
  assert (He4 : Z.even (4 * Z.pos M) = true).
  { replace (4 * Z.pos M) with (2 * (2 * Z.pos M)) by lia.
    now rewrite Z.even_mul. }
  rewrite Hdiv, Z.even_mul in He4. exact He4.
Qed.

Lemma to_int_of_int indefinite c :
  0 < c < 2 ^ 53 -> Float64.to_int indefinite (Float64.of_int c) = c.
Proof.
  intros Hc. destruct (of_int_exact c Hc) as (M & E & -> & HM & HE & Hval).
  unfold Float64.to_int, Float64.truncate.
  assert (Htr : (if 0 <=? E then Z.pos M * 2 ^ E else Z.pos M / 2 ^ (- E)) = c).
  { destruct (Z.leb_spec 0 E).
    - assert (E = 0) by lia. subst E. rewrite Hval. cbn. lia.
    - rewrite Hval. apply Z.div_mul.
      pose proof (Z.pow_pos_nonneg 2 (- E)). lia. }
  rewrite Htr. unfold min_int, max_int.
  destruct (Z.leb_spec (- 2 ^ 63) c); [|lia].
  destruct (Z.leb_spec c (2 ^ 63 - 1)); [reflexivity|lia].
Qed.

Lemma Ceil_positive M E :
  E < 0 ->
  Float64.Ceil (S754_finite false M E) =
  Float64.of_int ((Z.pos M + 2 ^ (- E) - 1) / 2 ^ (- E)).
Proof.
  intros HE. unfold Float64.Ceil.
  destruct (Z.leb_spec 0 E); [lia|reflexivity].
Qed.

Lemma ceil_div_unique a D c :
  0 < D -> (c - 1) * D < a <= c * D -> (a + D - 1) / D = c.
Proof.
  intros HD H. symmetry. apply (Z.div_unique_pos _ _ _ (a + D - 1 - c * D)); lia.
Qed.

(** The expression of the two-thirds quorum, for a count below [2^51]: the
    floating-point computation gives the integer ceiling of [2 n / 3]. *)
Lemma two_thirds_exact indefinite n :
  0 <= n < 2 ^ 51 ->
  Float64.to_int indefinite
    (Float64.Ceil
       (Float64.div (Float64.mul (Float64.of_int n) Float64.two) Float64.three))
  = (2 * n + 2) / 3.
Proof.
  intros Hn. destruct (Z.eq_dec n 0) as [->|Hn0]; [reflexivity|].
  destruct (of_int_exact n ltac:(lia)) as (M & E & -> & HM & HE & Hval).
  set (H := 2 ^ (- E)) in *.
  assert (HH : 4 <= H).
  { destruct (Z_le_gt_dec (- E) 1) as [Hle|Hgt].
    - assert (H <= 2 ^ 1) by (apply Z.pow_le_mono_r; lia). nia.
    - assert (2 ^ 2 <= H) by (apply Z.pow_le_mono_r; lia). lia. }
  assert (HE2 : E <= -2).
  { destruct (Z_le_gt_dec E (-2)) as [|Hgt]; [assumption|exfalso].
    assert (H <= 2 ^ 1) by (apply Z.pow_le_mono_r; lia). lia. }
  rewrite mul_two_exact by lia.
  destruct (div_three_bounds M (E + 1) HM ltac:(lia))
    as (M' & E' & -> & HM' & HE' & Hb & Hexact).
  rewrite Ceil_positive by lia.
  set (D := 2 ^ (- E')) in *.
  assert (HD : 0 < D) by (apply Z.pow_pos_nonneg; lia).
  set (S := 2 ^ (E' - (E + 1 - 2))) in *.
  (* the unit of the quotient, [K = 2 H], is [D S] *)
  assert (HK : 2 * H = D * S).
  { unfold H, D, S. rewrite <- Z.pow_add_r by lia.
    replace (- E' + (E' - (E + 1 - 2))) with (Z.succ (- E)) by lia.
    now rewrite Z.pow_succ_r by lia. }
  assert (HS : S = 1 \/ S = 2 \/ S = 4).
  { unfold S.
    assert (Hc : E' - (E + 1 - 2) = 0 \/ E' - (E + 1 - 2) = 1 \/ E' - (E + 1 - 2) = 2)
      by lia.
    destruct Hc as [-> | [-> | ->]]; auto. }
  set (q := 4 * Z.pos M / 3) in *.
  pose proof (Z.div_mod (4 * Z.pos M) 3 ltac:(lia)) as Hdm. fold q in Hdm.
  pose proof (Z.mod_pos_bound (4 * Z.pos M) 3 ltac:(lia)) as Hmb.
  set (r := (4 * Z.pos M) mod 3) in *.
  (* [2 n = 3 k + j] *)
  pose proof (Z.div_mod (2 * n) 3 ltac:(lia)) as Hkj.
  pose proof (Z.mod_pos_bound (2 * n) 3 ltac:(lia)) as Hj.
  set (k := 2 * n / 3) in *. set (j := (2 * n) mod 3) in *.
  assert (Hgoal : (2 * n + 2) / 3 = if Z.eq_dec j 0 then k else k + 1).
  { destruct (Z.eq_dec j 0).
    - symmetry. apply (Z.div_unique_pos _ _ _ 2); lia.
    - symmetry. apply (Z.div_unique_pos _ _ _ (j - 1)); lia. }
  assert (Hc : 0 < (Z.pos M' + D - 1) / D < 2 ^ 53).
  { split.
    - apply Z.div_str_pos. lia.
    - apply Z.div_lt_upper_bound; [lia|]. nia. }
  rewrite to_int_of_int by exact Hc. rewrite Hgoal.
  (* [4 M = 2 n K = (3 k + j) K], with [K = 2 H] *)
  assert (H4M : 4 * Z.pos M = 3 * (k * (D * S)) + j * (D * S)).
  { rewrite Hval, <- HK. nia. }
  set (P := k * D) in *.
  assert (HP : k * (D * S) = P * S) by (unfold P; ring).
  rewrite HP in H4M.
  apply ceil_div_unique; [exact HD|].
  destruct (Z.eq_dec j 0) as [Hj0|Hj0].
  - (* exact division *)
    assert (Hr0 : r = 0).
    { assert (Hq' : 4 * Z.pos M = 3 * (P * S)) by (rewrite H4M, Hj0; lia).
      unfold r. rewrite Hq', Z.mul_comm. apply Z.mod_mul. lia. }
    specialize (Hexact Hr0).
    assert (Hq' : q = P * S) by lia.
    fold P. destruct HS as [HS | [HS | HS]]; rewrite HS in *; nia.
  - assert (Hj12 : j = 1 \/ j = 2) by lia.
    replace ((k + 1 - 1) * D) with P by (unfold P; ring).
    replace ((k + 1) * D) with (P + D) by (unfold P; ring).
    destruct Hj12 as [Hj1|Hj1]; rewrite Hj1 in H4M;
      destruct HS as [HS | [HS | HS]]; rewrite HS in *; lia.
Qed.

(** ** The quorum *)

Lemma wrap_int_range z : min_int <= wrap_int z <= max_int.
Proof.
  unfold wrap_int, min_int, max_int.
  pose proof (Z.mod_pos_bound (z + 2 ^ 63) (2 ^ 64) ltac:(lia)). lia.
Qed.

Lemma to_int_range indefinite x :
  min_int <= Float64.to_int indefinite x <= max_int.
Proof.
  unfold Float64.to_int. destruct (Float64.truncate x) as [z|].
  - destruct (Z.leb_spec min_int z); cbn [andb]; [|apply wrap_int_range].
    destruct (Z.leb_spec z max_int); [lia|apply wrap_int_range].
  - apply wrap_int_range.
Qed.

Lemma ceiling_quotient_thirds a : ceiling_quotient a 3 = (a + 2) / 3.
Proof.
  unfold ceiling_quotient.
  pose proof (Z.div_mod (- a) 3 ltac:(lia)).
  pose proof (Z.mod_pos_bound (- a) 3 ltac:(lia)).
  pose proof (Z.div_mod (a + 2) 3 ltac:(lia)).
  pose proof (Z.mod_pos_bound (a + 2) 3 ltac:(lia)).
  lia.
Qed.

Lemma calculateRequired_range indefinite qc totalEligible :
  min_int <= totalEligible <= max_int ->
  min_int <= calculateRequired indefinite qc totalEligible <= max_int.
Proof.
  intros Hn. unfold calculateRequired.
  repeat match goal with
         | |- context [if ?b then _ else _] => destruct b
         end;
    try apply wrap_int_range; try apply to_int_range; exact Hn.
Qed.

(** The majority formula on a count: the division of Go and the floor
    agree, and nothing wraps. *)
Lemma majority_required totalEligible :
  0 <= totalEligible <= max_int ->
  wrap_int (Z.quot totalEligible 2 + 1) = totalEligible / 2 + 1.
Proof.
  intros Hn. rewrite Z.quot_div_nonneg by lia.
  apply wrap_int_small. unfold min_int, max_int in *.
  pose proof (Z.div_mod totalEligible 2 ltac:(lia)).
  pose proof (Z.mod_pos_bound totalEligible 2 ltac:(lia)). lia.
Qed.

(** X30. What [CalculateQuorum] computes.  For counts of voters and votes it
    requires
    [totalEligible / 2 + 1] votes (floor) for the type majority and for any
    type it does not know, the ceiling of [totalEligible * 2 / 3] for
    two_thirds, [totalEligible] for unanimous and the ceiling of the
    [float64] product [totalEligible * threshold] for custom; the result is
    ACCEPTED iff [yesVotes >= required], else REJECTED iff
    [noVotes > totalEligible - required], else PENDING; a majority among no
    voters requires one vote and is REJECTED.  The two-thirds expression is
    computed in [float64]: it is the integer ceiling for every count below
    [2^51]. *)
Theorem CalculateQuorum_spec
        (indefinite : Float64.t -> Z) (qc : QuorumConfig.t)
        (totalEligible yesVotes noVotes : Z) :
  0 <= totalEligible <= max_int ->
  0 <= yesVotes <= max_int ->
  0 <= noVotes <= max_int ->
  let res := CalculateQuorum indefinite qc totalEligible yesVotes noVotes in
  let required := QuorumResult.Required res in
  let result := QuorumResult.Result res in
  let type := QuorumConfig.Type' qc in
  (type <> "two_thirds"%string -> type <> "unanimous"%string ->
   type <> "custom"%string -> required = totalEligible / 2 + 1) /\
  (type = "two_thirds"%string ->
   required =
     Float64.to_int indefinite
       (Float64.Ceil
          (Float64.div (Float64.mul (Float64.of_int totalEligible) Float64.two)
                       Float64.three)) /\
   (totalEligible < 2 ^ 51 -> required = ceiling_quotient (totalEligible * 2) 3)) /\
  (type = "unanimous"%string -> required = totalEligible) /\
  (type = "custom"%string ->
   required =
     Float64.to_int indefinite
       (Float64.Ceil
          (Float64.mul (Float64.of_int totalEligible) (QuorumConfig.Threshold qc)))) /\
  (result = "ACCEPTED"%string <-> yesVotes >= required) /\
  (result = "REJECTED"%string <->
   yesVotes < required /\ noVotes > totalEligible - required) /\
  (result = "PENDING"%string <->
   yesVotes < required /\ noVotes <= totalEligible - required) /\
  (type = "majority"%string -> totalEligible = 0 -> yesVotes = 0 -> noVotes = 0 ->
   required = 1 /\ result = "REJECTED"%string).
Proof.
  intros Hn Hyes Hno res required result type.
  assert (Hreq : required = calculateRequired indefinite qc totalEligible)
    by reflexivity.
  assert (Hrange : min_int <= required <= max_int).
  { rewrite Hreq. apply calculateRequired_range. unfold min_int. lia. }
  assert (Hmaj : type <> "two_thirds"%string -> type <> "unanimous"%string ->
                 type <> "custom"%string -> required = totalEligible / 2 + 1).
  { intros H2 Hu Hc. rewrite Hreq. unfold calculateRequired. fold type.
    destruct (String.eqb_spec type "majority"); [now apply majority_required|].
    destruct (String.eqb_spec type "two_thirds"); [contradiction|].
    destruct (String.eqb_spec type "unanimous"); [contradiction|].
    destruct (String.eqb_spec type "custom"); [contradiction|].
    now apply majority_required. }
  assert (Hres : result =
                 if yesVotes >=? required then "ACCEPTED"%string
                 else if noVotes >? wrap_int (totalEligible - required)
                      then "REJECTED"%string else "PENDING"%string)
    by reflexivity.
  assert (Hwrap : yesVotes < required ->
                  wrap_int (totalEligible - required) = totalEligible - required).
  { intros Hlt. apply wrap_int_small. unfold min_int, max_int in *. lia. }
  split; [exact Hmaj|]. split; [|split; [|split; [|split; [|split; [|split]]]]].
  - intros Ht. assert (Hfloat : required =
      Float64.to_int indefinite
        (Float64.Ceil
           (Float64.div (Float64.mul (Float64.of_int totalEligible) Float64.two)
                        Float64.three))).
    { rewrite Hreq. unfold calculateRequired. fold type. now rewrite Ht. }
    split; [exact Hfloat|]. intros Hlt.
    rewrite Hfloat, ceiling_quotient_thirds, two_thirds_exact by lia.
    f_equal. lia.
  - intros Ht. rewrite Hreq. unfold calculateRequired. fold type. now rewrite Ht.
  - intros Ht. rewrite Hreq. unfold calculateRequired. fold type. now rewrite Ht.
  - rewrite Hres. destruct (Z.geb_spec yesVotes required) as [Hge|Hlt].
    + split; [lia|reflexivity].
    + split; [|lia].
      destruct (noVotes >? _); discriminate.
  - rewrite Hres. destruct (Z.geb_spec yesVotes required) as [Hge|Hlt].
    + split; [discriminate|lia].
    + rewrite (Hwrap Hlt).
      destruct (Z.gtb_spec noVotes (totalEligible - required)).
      * split; [lia|reflexivity].
      * split; [discriminate|lia].
  - rewrite Hres. destruct (Z.geb_spec yesVotes required) as [Hge|Hlt].
    + split; [discriminate|lia].
    + rewrite (Hwrap Hlt).
      destruct (Z.gtb_spec noVotes (totalEligible - required)).
      * split; [discriminate|lia].
      * split; [lia|reflexivity].
  - intros Ht -> -> ->.
    assert (Hone : required = 1).
    { rewrite Hmaj by (rewrite Ht; discriminate). reflexivity. }
    split; [exact Hone|]. rewrite Hres, Hone. reflexivity.
Qed.

(** [CalculateQuorum_spec] at three voters under a two-thirds quorum, with two
    yes votes. *)
Lemma CalculateQuorum_spec_witness :
  let res := CalculateQuorum (fun _ => min_int)
                             (QuorumConfig.mk "two_thirds" (S754_zero false)) 3 2 1 in
  QuorumResult.Required res = 2 /\ QuorumResult.Result res = "ACCEPTED"%string.
Proof.
  intros res.
  destruct (CalculateQuorum_spec (fun _ => min_int)
              (QuorumConfig.mk "two_thirds" (S754_zero false)) 3 2 1)
    as (_ & Htwo & _ & _ & Hacc & _); [unfold max_int; lia..|].
  destruct (Htwo eq_refl) as [_ Hceil].
  assert (Hreq : QuorumResult.Required res = 2)
    by (unfold res; rewrite Hceil by lia; reflexivity).
  split; [exact Hreq|]. apply Hacc. fold res. rewrite Hreq. lia.
Defined.

(** The examples of the specification. *)
Example CalculateQuorum_majority_accepted :
  CalculateQuorum (fun _ => min_int) (QuorumConfig.mk "majority" (S754_zero false)) 5 3 2
  = QuorumResult.mk 3 3 2 5 "ACCEPTED".
Proof. reflexivity. Qed.

Example CalculateQuorum_majority_rejected :
  CalculateQuorum (fun _ => min_int) (QuorumConfig.mk "majority" (S754_zero false)) 5 1 3
  = QuorumResult.mk 3 1 3 5 "REJECTED".
Proof. reflexivity. Qed.

Example CalculateQuorum_no_voters :
  CalculateQuorum (fun _ => min_int) (QuorumConfig.mk "" (S754_zero false)) 0 0 0
  = QuorumResult.mk 1 0 0 0 "REJECTED".
Proof. reflexivity. Qed.

(** The custom threshold is a [float64]: with the float nearest to 0.07 and
    100 voters the product is just above 7 and 8 votes are required. *)
Example calculateRequired_custom_rounding :
  calculateRequired (fun _ => min_int)
    (QuorumConfig.mk "custom" (Float64.div (Float64.of_int 7) (Float64.of_int 100)))
    100 = 8.
Proof. vm_compute. reflexivity. Qed.

(** C1, where the code departs from it.  The custom threshold 0.07 is the
    [float64] nearest to it, [5044031582654956 * 2^-56], a little above
    0.07; its product by 100 is rounded to the [float64] next above 7, and
    the ceiling of that is 8.  So with 100 voters 8 yes votes are required and
    7 leave the proposal PENDING, where the ceiling of [100 * 0.07] is 7. *)
Theorem CalculateQuorum_custom_rounding (indefinite : Float64.t -> Z) :
  let threshold := S754_finite false 5044031582654956 (-56) in
  Float64.div (Float64.of_int 7) (Float64.of_int 100) = threshold /\
  Z.abs (100 * 5044031582654956 - 7 * 2 ^ 56) <= 50 /\
  ceiling_quotient (100 * 7) 100 = 7 /\
  CalculateQuorum indefinite (QuorumConfig.mk "custom" threshold) 100 7 0 =
  QuorumResult.mk 8 7 0 100 "PENDING".
Proof. repeat split; vm_compute; congruence. Qed.

Local Close Scope Z_scope.

(** * More properties *)

(** ** Voters and roles *)

Lemma hasMember_iff role email :
  hasMember role email = true <->
  exists member, member ∈ Role.Members role /\ RoleMember.Email member = email.
Proof.
  unfold hasMember. rewrite existsb_exists. split.
  - intros (member & Hin & Heq). apply String.eqb_eq in Heq.
    exists member. rewrite list_elem_of_In. auto.
  - intros (member & Hin & Heq). exists member.
    rewrite <- list_elem_of_In. split; [assumption|]. now apply String.eqb_eq.
Qed.

Lemma GetEligibleVoters_elem constitution email :
  email ∈ GetEligibleVoters constitution <-> email ∈ voterEmails constitution.
Proof.
  assert (Hinit : seen_agrees (∅, [])).
  { intros e. unfold lookup_bool. simpl. rewrite lookup_empty, elem_of_nil.
    simpl. intuition discriminate. }
  destruct (addVoterRefs_spec (Constitution.Roles constitution)
              (Governance.Voters (Constitution.Governance constitution))
              (∅, []) Hinit) as [_ Heq].
  unfold GetEligibleVoters. rewrite Heq. simpl.
  rewrite dedup_onto_elem, elem_of_nil. unfold voterEmails. tauto.
Qed.

(** X1. [IsVoter] holds exactly of the emails that [GetEligibleVoters] lists. *)
Theorem IsVoter_eligible (constitution : Constitution.t) (email : string) :
  IsVoter constitution email = true <-> email ∈ GetEligibleVoters constitution.
Proof.
  rewrite GetEligibleVoters_elem. unfold IsVoter, voterEmails.
  rewrite existsb_exists, list_elem_of_In, in_flat_map.
  split; intros (voterRef & Hin & H); exists voterRef; (split; [assumption|]).
  - destruct (Constitution.Roles constitution !! VoterRef.Role voterRef) as [role|];
      [|discriminate].
    apply hasMember_iff in H. destruct H as (member & Hm & Heq).
    apply in_map_iff. exists member. rewrite <- list_elem_of_In. auto.
  - destruct (Constitution.Roles constitution !! VoterRef.Role voterRef) as [role|];
      [|destruct H].
    apply in_map_iff in H. destruct H as (member & Heq & Hm).
    apply hasMember_iff. exists member. rewrite list_elem_of_In. auto.
Qed.

Section RangeOrder.

Variable rangeOrder : gmap string Role.t -> list (string * Role.t).
Hypothesis rangeOrder_enumerates : forall m, rangeOrder m ≡ₚ map_to_list m.

Lemma rangeOrder_elem m name role :
  (name, role) ∈ rangeOrder m <-> m !! name = Some role.
Proof. rewrite rangeOrder_enumerates. apply elem_of_map_to_list. Qed.

Lemma rangeOrder_NoDup m : NoDup (map fst (rangeOrder m)).
Proof.
  assert (H : map fst (rangeOrder m) ≡ₚ map fst (map_to_list m))
    by (apply fmap_Permutation, rangeOrder_enumerates).
  rewrite H. apply NoDup_fst_map_to_list.
Qed.

(** X2. Whatever the order in which the map of roles is ranged over,
    [GetUserRoles] lists, each once, the names of the roles that have the
    email among their members; and the email is a voter exactly when one of
    these roles is a voter role. *)
Theorem GetUserRoles_spec (constitution : Constitution.t) (email : string) :
  (forall name,
      name ∈ GetUserRoles rangeOrder constitution email <->
      exists role,
        Constitution.Roles constitution !! name = Some role /\
        exists member, member ∈ Role.Members role /\ RoleMember.Email member = email) /\
  NoDup (GetUserRoles rangeOrder constitution email) /\
  (IsVoter constitution email = true <->
   exists voterRef,
     voterRef ∈ Governance.Voters (Constitution.Governance constitution) /\
     VoterRef.Role voterRef ∈ GetUserRoles rangeOrder constitution email).
Proof.
  assert (Hmem : forall name,
             name ∈ GetUserRoles rangeOrder constitution email <->
             exists role,
               Constitution.Roles constitution !! name = Some role /\
               hasMember role email = true).
  { intros name. unfold GetUserRoles. rewrite list_elem_of_In, in_flat_map. split.
    - intros ([n role] & Hin & H). cbn [fst snd] in H.
      destruct (hasMember role email) eqn:Hm; [|destruct H].
      destruct H as [<-|[]]. exists role. split; [|assumption].
      apply rangeOrder_elem. now apply list_elem_of_In.
    - intros (role & Hl & Hm). exists (name, role). cbn [fst snd].
      rewrite Hm. split; [|now left].
      apply list_elem_of_In, rangeOrder_elem. assumption. }
  split; [|split].
  - intros name. rewrite Hmem. split; intros (role & Hl & H); exists role;
      (split; [assumption|]); now apply hasMember_iff.
  - unfold GetUserRoles.
    pose proof (rangeOrder_NoDup (Constitution.Roles constitution)) as Hnd.
    induction (rangeOrder (Constitution.Roles constitution)) as [|[n role] l IH];
      [constructor|].
    cbn [map fst] in Hnd. apply NoDup_cons in Hnd. destruct Hnd as [Hn Hnd].
    cbn [flat_map fst snd]. destruct (hasMember role email); [|now apply IH].
    cbn [app]. apply NoDup_cons. split; [|now apply IH].
    intros Hin. apply Hn. apply list_elem_of_In, in_flat_map in Hin.
    destruct Hin as ([n' role'] & Hin & H). cbn [fst snd] in H.
    destruct (hasMember role' email); [|destruct H]. destruct H as [<-|[]].
    apply list_elem_of_In, in_map_iff. now exists (n', role').
  - unfold IsVoter. rewrite existsb_exists. split.
    + intros (voterRef & Hin & H). exists voterRef.
      split; [now apply list_elem_of_In|]. apply Hmem.
      destruct (Constitution.Roles constitution !! VoterRef.Role voterRef) as [role|];
        [|discriminate].
      now exists role.
    + intros (voterRef & Hin & H). exists voterRef.
      split; [now apply list_elem_of_In|]. apply Hmem in H.
      destruct H as (role & -> & Hm). exact Hm.
Qed.

End RangeOrder.

(** [GetUserRoles_spec] with the enumeration [map_to_list]. *)
Lemma GetUserRoles_spec_witness :
  NoDup (GetUserRoles map_to_list exampleConstitution "bob@x.io") /\
  (IsVoter exampleConstitution "bob@x.io" = true <->
   exists voterRef,
     voterRef ∈ Governance.Voters (Constitution.Governance exampleConstitution) /\
     VoterRef.Role voterRef ∈ GetUserRoles map_to_list exampleConstitution "bob@x.io").
Proof.
  destruct (GetUserRoles_spec map_to_list (fun m => reflexivity _)
                              exampleConstitution "bob@x.io") as (_ & Hnd & Hv).
  split; assumption.
Defined.

(** ** The tally *)

Local Open Scope Z_scope.

Lemma eligibleSet_lookup (emails : list string) email :
  lookup_bool (fold_left (fun m e => <[e := true]> m) emails ∅) email = true <->
  email ∈ emails.
Proof.
  assert (H : forall m : gmap string bool,
             lookup_bool (fold_left (fun m e => <[e := true]> m) emails m) email = true
             <-> email ∈ emails \/ lookup_bool m email = true).
  { induction emails as [|e emails IH]; intros m; cbn [fold_left].
    - rewrite elem_of_nil. tauto.
    - rewrite IH, lookup_bool_insert, elem_of_cons. intuition. }
  rewrite H. unfold lookup_bool. rewrite lookup_empty.
  split; [intros [?|?]; [assumption|discriminate]|auto].
Qed.

Lemma countVote_counts eligibleSet constitution votes yes no :
  (forall email, lookup_bool eligibleSet email = true <->
                 email ∈ GetEligibleVoters constitution) ->
  0 <= yes -> 0 <= no ->
  yes + no + Z.of_nat (length votes) <= max_int ->
  fold_left (countVote eligibleSet) votes (yes, no) =
  (yes + Z.of_nat (length (countedVotes constitution "yes" votes)),
   no + Z.of_nat (length (countedVotes constitution "no" votes))).
Proof.
  intros Hset. revert yes no.
  induction votes as [|vote votes IH]; intros yes no Hyes Hno Hlen.
  - simpl. f_equal; lia.
  - cbn [fold_left]. unfold countedVotes in *. cbn [List.filter].
    assert (Hel : bool_decide (Vote.VoterEmail vote ∈ GetEligibleVoters constitution)
                  = lookup_bool eligibleSet (Vote.VoterEmail vote)).
    { destruct (lookup_bool eligibleSet (Vote.VoterEmail vote)) eqn:Hl.
      - apply bool_decide_eq_true, Hset, Hl.
      - apply bool_decide_eq_false. intros Hin. apply Hset in Hin. congruence. }
    rewrite !Hel. unfold countVote at 2.
    cbn [length] in Hlen. rewrite Nat2Z.inj_succ in Hlen.
    destruct (lookup_bool eligibleSet (Vote.VoterEmail vote)); cbn [negb andb].
    + destruct (String.eqb_spec (Vote.Decision vote) "yes") as [Hd|Hd].
      * rewrite Hd. cbn [String.eqb Ascii.eqb Bool.eqb andb length].
        rewrite wrap_int_small by (unfold min_int, max_int in *; lia).
        rewrite IH by lia. f_equal; lia.
      * destruct (String.eqb_spec (Vote.Decision vote) "no") as [Hd'|Hd'].
        -- cbn [length].
           rewrite wrap_int_small by (unfold min_int, max_int in *; lia).
           rewrite IH by lia. f_equal; lia.
        -- rewrite IH by lia. reflexivity.
    + rewrite IH by lia. reflexivity.
Qed.

Lemma countedVotes_bound constitution votes :
  (length (countedVotes constitution "yes" votes) +
   length (countedVotes constitution "no" votes) <= length votes)%nat.
Proof.
  unfold countedVotes. induction votes as [|vote votes IH]; [reflexivity|].
  cbn [List.filter length].
  destruct (bool_decide _); cbn [andb]; [|lia].
  destruct (String.eqb_spec (Vote.Decision vote) "yes") as [Hy|Hy].
  - destruct (String.eqb_spec (Vote.Decision vote) "no") as [Hn|Hn];
      [congruence|]. cbn [length]. lia.
  - destruct (String.eqb (Vote.Decision vote) "no"); cbn [length]; lia.
Qed.

(** X3. [ComputeTally] counts every vote of an eligible voter whose decision is
    "yes" or "no", one by one: votes of other people and other decisions are
    left out, and two votes of the same voter count twice. The number of
    eligible voters is the length of [GetEligibleVoters]. *)
Theorem ComputeTally_counts
        (indefinite : Float64.t -> Z) (now : Time) (proposal : Proposal.t)
        (votes : list Vote.t) (constitution : Constitution.t) :
  Z.of_nat (length votes) <= max_int ->
  let quorumResult :=
    TallyResult.QuorumResult (ComputeTally indefinite now proposal votes constitution) in
  QuorumResult.YesVotes quorumResult =
    Z.of_nat (length (countedVotes constitution "yes" votes)) /\
  QuorumResult.NoVotes quorumResult =
    Z.of_nat (length (countedVotes constitution "no" votes)) /\
  QuorumResult.TotalEligible quorumResult =
    Z.of_nat (length (GetEligibleVoters constitution)) /\
  QuorumResult.YesVotes quorumResult + QuorumResult.NoVotes quorumResult
    <= Z.of_nat (length votes).
Proof.
  intros Hlen quorumResult. subst quorumResult. unfold ComputeTally.
  rewrite (countVote_counts _ constitution votes 0 0
             (eligibleSet_lookup (GetEligibleVoters constitution)))
    by lia.
  cbn [Z.add].
  match goal with
  | |- context [if ?b then _ else _] => destruct b
  end; cbn [TallyResult.QuorumResult QuorumResult.YesVotes QuorumResult.NoVotes
            QuorumResult.TotalEligible CalculateQuorum];
    (split; [reflexivity|]); (split; [reflexivity|]); (split; [reflexivity|]).
  all: pose proof (countedVotes_bound constitution votes); lia.
Qed.

(** [ComputeTally_counts] at three votes of which one is cast by somebody who
    is no voter, and two by the same voter. *)
Lemma ComputeTally_counts_witness :
  let votes := [Vote.mk "p1" "bob@x.io" "yes" "" 5; Vote.mk "p1" "dan@x.io" "yes" "" 6;
                Vote.mk "p1" "bob@x.io" "yes" "" 7; Vote.mk "p1" "cy@x.io" "no" "" 8] in
  let quorumResult :=
    TallyResult.QuorumResult
      (ComputeTally (fun _ => min_int) 100
                    (Proposal.mk "p1" "r1" "modify" "" "" "ann@x.io" 0 "proposed")
                    votes exampleConstitution) in
  QuorumResult.YesVotes quorumResult = 2 /\ QuorumResult.NoVotes quorumResult = 1 /\
  QuorumResult.TotalEligible quorumResult = 3.
Proof.
  intros votes quorumResult.
  destruct (ComputeTally_counts (fun _ => min_int) 100
              (Proposal.mk "p1" "r1" "modify" "" "" "ann@x.io" 0 "proposed")
              votes exampleConstitution) as (Hy & Hn & Ht & _);
    [vm_compute; discriminate|].
  fold quorumResult in Hy, Hn, Ht. rewrite Hy, Hn, Ht.
  repeat split; vm_compute; reflexivity.
Defined.

(** ** The quorum: what the results mean *)

Lemma quorum_result indefinite qc totalEligible yesVotes noVotes :
  0 <= totalEligible <= max_int -> 0 <= yesVotes ->
  let required := calculateRequired indefinite qc totalEligible in
  QuorumResult.Result (CalculateQuorum indefinite qc totalEligible yesVotes noVotes) =
  if yesVotes >=? required then "ACCEPTED"%string
  else if noVotes >? totalEligible - required then "REJECTED"%string
       else "PENDING"%string.
Proof.
  intros Hn Hyes required. unfold CalculateQuorum. cbn [QuorumResult.Result].
  fold required.
  destruct (Z.geb_spec yesVotes required) as [|Hlt]; [reflexivity|].
  pose proof (calculateRequired_range indefinite qc totalEligible) as Hr.
  fold required in Hr. unfold min_int, max_int in *.
  rewrite wrap_int_small by (unfold min_int, max_int; lia). reflexivity.
Qed.

(** X4. Once every eligible voter has voted, the result is ACCEPTED or REJECTED,
    never PENDING, whatever the type of quorum and its threshold. *)
Theorem CalculateQuorum_decisive
        (indefinite : Float64.t -> Z) (qc : QuorumConfig.t)
        (totalEligible yesVotes noVotes : Z) :
  0 <= totalEligible <= max_int -> 0 <= yesVotes -> 0 <= noVotes ->
  yesVotes + noVotes = totalEligible ->
  let result :=
    QuorumResult.Result (CalculateQuorum indefinite qc totalEligible yesVotes noVotes) in
  result = "ACCEPTED"%string \/ result = "REJECTED"%string.
Proof.
  intros Hn Hyes Hno Hall result. subst result.
  rewrite quorum_result by lia. cbv zeta.
  destruct (Z.geb_spec yesVotes (calculateRequired indefinite qc totalEligible));
    [now left|].
  destruct (Z.gtb_spec noVotes
              (totalEligible - calculateRequired indefinite qc totalEligible));
    [now right|lia].
Qed.

(** X5. REJECTED means that the yes votes can no longer reach the quorum: even
    with the yes votes of all who have not voted yet the proposal would not be
    accepted; PENDING means that they still can. *)
Theorem CalculateQuorum_reachable
        (indefinite : Float64.t -> Z) (qc : QuorumConfig.t)
        (totalEligible yesVotes noVotes : Z) :
  0 <= totalEligible <= max_int -> 0 <= yesVotes -> 0 <= noVotes ->
  yesVotes + noVotes <= totalEligible ->
  let result votes :=
    QuorumResult.Result (CalculateQuorum indefinite qc totalEligible votes noVotes) in
  let remaining := totalEligible - yesVotes - noVotes in
  (result yesVotes = "REJECTED"%string <->
   result (yesVotes + remaining) <> "ACCEPTED"%string) /\
  (result yesVotes = "PENDING"%string <->
   result yesVotes <> "ACCEPTED"%string /\
   result (yesVotes + remaining) = "ACCEPTED"%string).
Proof.
  intros Hn Hyes Hno Hsum result remaining. subst result remaining. cbv beta.
  rewrite !quorum_result by lia. cbv zeta.
  set (required := calculateRequired indefinite qc totalEligible).
  destruct (Z.geb_spec yesVotes required) as [Hge|Hlt].
  - destruct (Z.geb_spec (yesVotes + (totalEligible - yesVotes - noVotes)) required);
      [|lia].
    split; split; try discriminate; intuition congruence.
  - destruct (Z.geb_spec (yesVotes + (totalEligible - yesVotes - noVotes)) required);
      destruct (Z.gtb_spec noVotes (totalEligible - required)); try lia;
      split; split; try discriminate; intuition congruence.
Qed.

(** [CalculateQuorum_decisive] at five voters of whom three said yes, two no,
    under the unanimous quorum. *)
Lemma CalculateQuorum_decisive_witness :
  let result :=
    QuorumResult.Result
      (CalculateQuorum (fun _ => min_int) (QuorumConfig.mk "unanimous" Float64.two) 5 3 2) in
  result = "ACCEPTED"%string \/ result = "REJECTED"%string.
Proof.
  apply CalculateQuorum_decisive; vm_compute; try split; congruence.
Defined.

(** [CalculateQuorum_reachable] at five voters under a majority quorum: with
    one yes and two no the vote is pending, since two more yes would do. *)
Lemma CalculateQuorum_reachable_witness :
  let result votes :=
    QuorumResult.Result
      (CalculateQuorum (fun _ => min_int) (QuorumConfig.mk "majority" Float64.two) 5 votes 2) in
  (result 1 = "REJECTED"%string <-> result (1 + (5 - 1 - 2)) <> "ACCEPTED"%string) /\
  (result 1 = "PENDING"%string <->
   result 1 <> "ACCEPTED"%string /\ result (1 + (5 - 1 - 2)) = "ACCEPTED"%string).
Proof.
  apply (CalculateQuorum_reachable (fun _ => min_int)
           (QuorumConfig.mk "majority" Float64.two) 5 1 2);
    vm_compute; try split; congruence.
Defined.

Lemma calculateRequired_fixed indefinite qc totalEligible :
  QuorumConfig.Type' qc <> "custom"%string ->
  0 <= totalEligible < 2 ^ 51 ->
  let required := calculateRequired indefinite qc totalEligible in
  required = totalEligible / 2 + 1 \/ required = (2 * totalEligible + 2) / 3 \/
  required = totalEligible.
Proof.
  intros Hcustom Hn. cbv zeta. unfold calculateRequired.
  assert (Hmax : 0 <= totalEligible <= max_int) by (unfold max_int; lia).
  rewrite majority_required by exact Hmax.
  rewrite two_thirds_exact by exact Hn.
  destruct (String.eqb_spec (QuorumConfig.Type' qc) "custom"); [contradiction|].
  repeat match goal with
         | |- context [if ?b then _ else _] => destruct b
         end; auto.
Qed.

(** X6. For every type of quorum but the custom one and at least one eligible
    voter, the number of yes votes required is between one and the number of
    voters; so the vote is pending while nobody has voted, accepted when all
    vote yes, and rejected when all vote no. *)
Theorem CalculateQuorum_extremes
        (indefinite : Float64.t -> Z) (qc : QuorumConfig.t) (totalEligible : Z) :
  QuorumConfig.Type' qc <> "custom"%string ->
  1 <= totalEligible < 2 ^ 51 ->
  let result yesVotes noVotes :=
    QuorumResult.Result (CalculateQuorum indefinite qc totalEligible yesVotes noVotes) in
  1 <= calculateRequired indefinite qc totalEligible <= totalEligible /\
  result 0 0 = "PENDING"%string /\
  result totalEligible 0 = "ACCEPTED"%string /\
  result 0 totalEligible = "REJECTED"%string.
Proof.
  intros Hcustom Hn result. subst result. cbv beta.
  assert (Hmax : 0 <= totalEligible <= max_int) by (unfold max_int; lia).
  rewrite !quorum_result by lia. cbv zeta.
  pose proof (calculateRequired_fixed indefinite qc totalEligible Hcustom ltac:(lia))
    as Hreq. cbv zeta in Hreq.
  set (required := calculateRequired indefinite qc totalEligible) in *.
  assert (Hbounds : 1 <= required <= totalEligible).
  { pose proof (Z.div_mod totalEligible 2 ltac:(lia)).
    pose proof (Z.mod_pos_bound totalEligible 2 ltac:(lia)).
    pose proof (Z.div_mod (2 * totalEligible + 2) 3 ltac:(lia)).
    pose proof (Z.mod_pos_bound (2 * totalEligible + 2) 3 ltac:(lia)).
    lia. }
  split; [exact Hbounds|].
  destruct (Z.geb_spec 0 required); [lia|].
  destruct (Z.geb_spec totalEligible required); [|lia].
  destruct (Z.gtb_spec 0 (totalEligible - required)); [lia|].
  destruct (Z.gtb_spec totalEligible (totalEligible - required)); [|lia].
  repeat split.
Qed.

(** [CalculateQuorum_extremes] at seven voters and the two-thirds quorum. *)
Lemma CalculateQuorum_extremes_witness :
  let result yesVotes noVotes :=
    QuorumResult.Result
      (CalculateQuorum (fun _ => min_int) (QuorumConfig.mk "two_thirds" Float64.two)
                       7 yesVotes noVotes) in
  1 <= calculateRequired (fun _ => min_int) (QuorumConfig.mk "two_thirds" Float64.two) 7 <= 7 /\
  result 0 0 = "PENDING"%string /\
  result 7 0 = "ACCEPTED"%string /\
  result 0 7 = "REJECTED"%string.
Proof.
  apply (CalculateQuorum_extremes (fun _ => min_int)
           (QuorumConfig.mk "two_thirds" Float64.two) 7);
    [vm_compute; congruence | lia].
Defined.

(** X7. Under the majority quorum (and under a type the code does not know) a
    proposal is ACCEPTED exactly when the yes votes are more than half the
    number of eligible voters; it is REJECTED exactly when the yes votes are
    at most half and the no votes at least half of that number, and PENDING
    when both stay below.  So a tie of all voters rejects, and no votes
    cannot reject what the yes votes have accepted. *)
Theorem CalculateQuorum_majority_halves
        (indefinite : Float64.t -> Z) (qc : QuorumConfig.t)
        (totalEligible yesVotes noVotes : Z) :
  QuorumConfig.Type' qc <> "two_thirds"%string ->
  QuorumConfig.Type' qc <> "unanimous"%string ->
  QuorumConfig.Type' qc <> "custom"%string ->
  0 <= totalEligible <= max_int -> 0 <= yesVotes -> 0 <= noVotes ->
  let result :=
    QuorumResult.Result (CalculateQuorum indefinite qc totalEligible yesVotes noVotes) in
  (result = "ACCEPTED"%string <-> totalEligible < 2 * yesVotes) /\
  (result = "REJECTED"%string <->
   2 * yesVotes <= totalEligible /\ totalEligible <= 2 * noVotes) /\
  (result = "PENDING"%string <->
   2 * yesVotes <= totalEligible /\ 2 * noVotes < totalEligible).
Proof.
  intros Htwo Hunanimous Hcustom Hn Hyes Hno result. subst result.
  rewrite quorum_result by lia. cbv zeta.
  assert (Hreq : calculateRequired indefinite qc totalEligible = totalEligible / 2 + 1).
  { unfold calculateRequired. rewrite majority_required by exact Hn.
    destruct (String.eqb_spec (QuorumConfig.Type' qc) "two_thirds"); [contradiction|].
    destruct (String.eqb_spec (QuorumConfig.Type' qc) "unanimous"); [contradiction|].
    destruct (String.eqb_spec (QuorumConfig.Type' qc) "custom"); [contradiction|].
    destruct (String.eqb (QuorumConfig.Type' qc) "majority"); reflexivity. }
  rewrite Hreq.
  pose proof (Z.div_mod totalEligible 2 ltac:(lia)).
  pose proof (Z.mod_pos_bound totalEligible 2 ltac:(lia)).
  destruct (Z.geb_spec yesVotes (totalEligible / 2 + 1)).
  - repeat split; intros; try discriminate; try reflexivity; lia.
  - destruct (Z.gtb_spec noVotes (totalEligible - (totalEligible / 2 + 1)));
      repeat split; intros; try discriminate; try reflexivity; lia.
Qed.

(** [CalculateQuorum_majority_halves] at a tie of four voters. *)
Lemma CalculateQuorum_majority_halves_witness :
  let result :=
    QuorumResult.Result
      (CalculateQuorum (fun _ => min_int) (QuorumConfig.mk "majority" Float64.two) 4 2 2) in
  (result = "ACCEPTED"%string <-> 4 < 2 * 2) /\
  (result = "REJECTED"%string <-> 2 * 2 <= 4 /\ 4 <= 2 * 2) /\
  (result = "PENDING"%string <-> 2 * 2 <= 4 /\ 2 * 2 < 4).
Proof.
  apply (CalculateQuorum_majority_halves (fun _ => min_int)
           (QuorumConfig.mk "majority" Float64.two) 4 2 2);
    vm_compute; try split; congruence.
Defined.

(** X8. Under the unanimous quorum a proposal is ACCEPTED exactly when the
    yes votes reach the number of eligible voters; short of that, one no vote
    makes it REJECTED, and without a no vote it is PENDING. *)
Theorem CalculateQuorum_unanimous_veto
        (indefinite : Float64.t -> Z) (qc : QuorumConfig.t)
        (totalEligible yesVotes noVotes : Z) :
  QuorumConfig.Type' qc = "unanimous"%string ->
  0 <= totalEligible <= max_int -> 0 <= yesVotes -> 0 <= noVotes ->
  let result :=
    QuorumResult.Result (CalculateQuorum indefinite qc totalEligible yesVotes noVotes) in
  (result = "ACCEPTED"%string <-> totalEligible <= yesVotes) /\
  (result = "REJECTED"%string <-> yesVotes < totalEligible /\ 1 <= noVotes) /\
  (result = "PENDING"%string <-> yesVotes < totalEligible /\ noVotes = 0).
Proof.
  intros Htype Hn Hyes Hno result. subst result.
  rewrite quorum_result by lia. cbv zeta.
  assert (Hreq : calculateRequired indefinite qc totalEligible = totalEligible).
  { unfold calculateRequired. rewrite Htype. reflexivity. }
  rewrite Hreq.
  destruct (Z.geb_spec yesVotes totalEligible).
  - repeat split; intros; try discriminate; try reflexivity; lia.
  - destruct (Z.gtb_spec noVotes (totalEligible - totalEligible));
      repeat split; intros; try discriminate; try reflexivity; lia.
Qed.

(** [CalculateQuorum_unanimous_veto] at three voters, two yes and one no. *)
Lemma CalculateQuorum_unanimous_veto_witness :
  let result :=
    QuorumResult.Result
      (CalculateQuorum (fun _ => min_int) (QuorumConfig.mk "unanimous" Float64.two) 3 2 1) in
  (result = "ACCEPTED"%string <-> 3 <= 2) /\
  (result = "REJECTED"%string <-> 2 < 3 /\ 1 <= 1) /\
  (result = "PENDING"%string <-> 2 < 3 /\ 1 = 0).
Proof.
  apply (CalculateQuorum_unanimous_veto (fun _ => min_int)
           (QuorumConfig.mk "unanimous" Float64.two) 3 2 1);
    vm_compute; try split; congruence.
Defined.

Local Close Scope Z_scope.

(** ** ParseDiff by sections *)

Lemma HasPrefix_plus line :
  HasPrefix line "+" = true -> line = String "+" (drop_bytes 1 line).
Proof.
  destruct line as [|c line]; [discriminate|].
  cbn. destruct (Ascii.eqb_spec c "+"); [|discriminate].
  intros _. now subst.
Qed.

Lemma extendFile_nil cur : extendFile cur [] = cur.
Proof.
  destruct cur. unfold extendFile, sectionAdded. cbn. now rewrite app_nil_r.
Qed.

Lemma extendFile_cons cur line section :
  extendFile (extendFile cur [line]) section = extendFile cur (line :: section).
Proof.
  unfold extendFile, sectionAdded. cbn [Path AddedLines sectionPath fold_left].
  f_equal. rewrite <- app_assoc. f_equal.
  cbn [List.filter]. destruct (isAdded line); reflexivity.
Qed.

Lemma parseLine_body r cur line :
  isHeader line = false ->
  parseLine (r, Some cur) line = (r, Some (extendFile cur [line])).
Proof.
  unfold isHeader. intros Hh. unfold parseLine. rewrite Hh.
  unfold extendFile, sectionAdded, sectionPath, isAdded. cbn [fold_left List.filter Path].
  destruct (HasPrefix line "+++ b/") eqn:Hp.
  - rewrite andb_false_r. cbn. now rewrite app_nil_r.
  - rewrite andb_true_r.
    destruct (HasPrefix line "--- ") eqn:Hm.
    { destruct line as [|c line]; [discriminate|]. cbn in Hm |- *.
      destruct (Ascii.eqb_spec c "-"); [subst|discriminate].
      cbn. rewrite app_nil_r. now destruct cur. }
    destruct (HasPrefix line "@@") eqn:Ha.
    { destruct line as [|c line]; [discriminate|]. cbn in Ha |- *.
      destruct (Ascii.eqb_spec c "@"); [subst|discriminate].
      cbn. rewrite app_nil_r. now destruct cur. }
    destruct (HasPrefix line "+"); cbn; [reflexivity|].
    rewrite app_nil_r. now destruct cur.
Qed.

Lemma parseLine_outside r line :
  isHeader line = false -> parseLine (r, None) line = (r, None).
Proof.
  unfold isHeader. intros Hh. unfold parseLine. rewrite Hh.
  repeat match goal with
         | |- context [if ?b then _ else _] => destruct b
         end; reflexivity.
Qed.

Lemma parseLines_sections lines :
  forall r current,
    flush (parseLines lines (r, current)) =
    r ++ match current with
         | Some cur => [extendFile cur (untilHeader lines)]
         | None => []
         end ++ map fileOfSection (sections lines).
Proof.
  induction lines as [|line lines IH]; intros r current.
  - cbn. destruct current as [cur|]; cbn; [now rewrite extendFile_nil|].
    now rewrite app_nil_r.
  - rewrite parseLines_cons. cbn [untilHeader sections].
    destruct (isHeader line) eqn:Hh.
    + rewrite (parseLine_header _ _ _ Hh), IH. cbn [map].
      change (fileOfSection (untilHeader lines))
        with (extendFile emptyFileDiff (untilHeader lines)).
      destruct current as [cur|]; [|reflexivity].
      rewrite extendFile_nil, <- app_assoc. reflexivity.
    + destruct current as [cur|].
      * rewrite (parseLine_body _ _ _ Hh), IH, extendFile_cons. reflexivity.
      * rewrite (parseLine_outside _ _ Hh), IH. reflexivity.
Qed.

Lemma sections_length lines :
  length (sections lines) = length (List.filter isHeader lines).
Proof.
  induction lines as [|line lines IH]; [reflexivity|].
  cbn [sections List.filter]. destruct (isHeader line); cbn [length]; now rewrite IH.
Qed.

Lemma untilHeader_incl lines line : In line (untilHeader lines) -> In line lines.
Proof.
  induction lines as [|l lines IH]; [now cbn|].
  cbn [untilHeader]. destruct (isHeader l); [now cbn|].
  intros [->|H]; [now left|right; auto].
Qed.

Lemma sections_incl lines section line :
  In section (sections lines) -> In line section -> In line lines.
Proof.
  induction lines as [|l lines IH]; [now cbn|].
  cbn [sections]. destruct (isHeader l); [|intros; right; auto].
  intros [<-|Hs] Hl; right; [now apply untilHeader_incl|auto].
Qed.

Lemma sectionPath_origin section : forall path,
  sectionPath path section = path \/
  exists line, In line section /\ HasPrefix line "+++ b/" = true /\
               sectionPath path section = TrimPrefix line "+++ b/".
Proof.
  induction section as [|l section IH]; intros path; [now left|].
  cbn [sectionPath fold_left].
  destruct (IH (if HasPrefix l "+++ b/" then TrimPrefix l "+++ b/" else path))
    as [Heq|(line & Hin & Hp & Heq)].
  - unfold sectionPath in Heq. rewrite Heq.
    destruct (HasPrefix l "+++ b/") eqn:Hp; [|now left].
    right. exists l. split; [now left|]. now split.
  - right. exists line. split; [now right|]. split; [exact Hp|exact Heq].
Qed.

Lemma TrimPrefix_append s prefix :
  HasPrefix s prefix = true -> s = (prefix ++ TrimPrefix s prefix)%string.
Proof.
  unfold TrimPrefix. intros H. rewrite H. revert s H.
  induction prefix as [|p prefix IH]; intros s H; [reflexivity|].
  destruct s as [|c s]; [discriminate|]. cbn in H.
  destruct (Ascii.eqb_spec c p); [subst|discriminate].
  cbn [String.length drop_bytes]. rewrite append_cons. f_equal. now apply IH.
Qed.

(** X9. [ParseDiff] splits the diff into its sections: it returns one file for
    each line that starts with [diff --git ], in the order of these lines;
    the path of a file is the rest of the last [+++ b/] line of its section
    (empty if there is none), its added lines are the lines of the section
    that start with [+], the [+++ b/] lines apart, without that [+].  Lines
    before the first section are dropped. *)
Theorem ParseDiff_sections (diffContent : string) :
  ParseDiff diffContent = map fileOfSection (sections (Split diffContent newline)).
Proof.
  rewrite ParseDiff_unfold, parseLines_sections. reflexivity.
Qed.

(** X10. [ParseDiff] reports as many files as the diff has lines that start with
    [diff --git ], and nothing that the diff does not say: every added line
    of a file is, after a [+], a line of the diff, and a path that is not
    empty follows [+++ b/] on a line of the diff. *)
Theorem ParseDiff_sound (diffContent : string) :
  let lines := Split diffContent newline in
  length (ParseDiff diffContent) = length (List.filter isHeader lines) /\
  forall file, In file (ParseDiff diffContent) ->
    (forall added, In added (AddedLines file) -> In (String "+" added) lines) /\
    (Path file <> "" -> In ("+++ b/" ++ Path file)%string lines).
Proof.
  intros lines. rewrite ParseDiff_unfold, parseLines_sections. cbn [app].
  fold lines. split; [now rewrite length_map, sections_length|].
  intros file Hfile. apply in_map_iff in Hfile as (section & <- & Hsection).
  split.
  - intros added Hadded. cbn in Hadded. unfold sectionAdded in Hadded.
    apply in_map_iff in Hadded as (line & <- & Hline).
    apply filter_In in Hline as [Hline Hplus].
    unfold isAdded in Hplus. apply andb_true_iff in Hplus as [Hplus _].
    rewrite <- (HasPrefix_plus _ Hplus).
    exact (sections_incl _ _ _ Hsection Hline).
  - cbn [Path fileOfSection]. intros Hpath.
    destruct (sectionPath_origin section "") as [Heq|(line & Hin & Hp & Heq)];
      [congruence|].
    rewrite Heq, <- (TrimPrefix_append _ _ Hp).
    exact (sections_incl _ _ _ Hsection Hin).
Qed.
Local Open Scope Z_scope.

(** * The engine: what a run reports *)

Section RunReports.

Variable Regexp : Type.
Variable regexp_Compile : string -> option Regexp.
Variable MatchString : Regexp -> string -> bool.

Local Abbreviation checkers := (Registry Regexp regexp_Compile MatchString).
Local Abbreviation runLoop := (runRules Regexp regexp_Compile MatchString).
Local Abbreviation run := (Run Regexp regexp_Compile MatchString).

Lemma ImportsForbidden_stamped ctx violations v :
  ImportsForbidden_Check ctx = Ok violations -> In v violations -> stamped ctx v.
Proof.
  unfold ImportsForbidden_Check.
  destruct (getStringSlice _ "from_globs") as [fromGlobs|]; [|discriminate].
  destruct (getStringSlice _ "forbid_globs") as [forbidGlobs|]; [|discriminate].
  cbn. intros [= <-] Hv.
  apply in_flat_map in Hv as (file & Hfile & Hv).
  destruct (matchesAnyGlob file fromGlobs); cbn in Hv; [|contradiction].
  destruct (buildDiffMap _ !! file) as [fd|]; [|contradiction].
  unfold importViolations in Hv.
  apply in_flat_map in Hv as (addedLine & _ & Hv).
  destruct (existsb _ _); [|contradiction].
  destruct Hv as [<-|[]]. now exists file, ("+" ++ addedLine)%string.
Qed.

Lemma DiffPatternForbidden_stamped ctx violations v :
  DiffPatternForbidden_Check Regexp regexp_Compile MatchString ctx = Ok violations ->
  In v violations -> stamped ctx v.
Proof.
  unfold DiffPatternForbidden_Check.
  destruct (getStringSlice _ "forbidden_regexes") as [patterns|]; [|discriminate].
  cbn [wrapErr bind].
  destruct (compileAll _ _ _ patterns) as [compiled|]; [|discriminate].
  cbn [bind].
  set (onlyInPaths := match getStringSlice _ "only_in_paths" with
                      | Ok l => l | Err _ => [] end).
  set (filesToCheck := match onlyInPaths with
                       | [] => CheckContext.ChangedFiles ctx
                       | _ :: _ => filterFilesByGlobs (CheckContext.ChangedFiles ctx)
                                                      onlyInPaths
                       end).
  assert (Hsub : forall file, In file filesToCheck ->
                              In file (CheckContext.ChangedFiles ctx)).
  { intros file. subst filesToCheck. destruct onlyInPaths; [auto|].
    unfold filterFilesByGlobs. rewrite filter_In. tauto. }
  intros Hcheck Hv.
  assert (Hin : In v (flat_map
            (fun fd =>
               if negb (lookup_bool (buildFileSet filesToCheck) (Path fd)) then []
               else
                 flat_map (fun addedLine =>
                             if matchesAnyRegexp Regexp MatchString compiled addedLine
                             then [violationOf ctx (Path fd) ("+" ++ addedLine)]
                             else [])
                          (AddedLines fd))
            (ParseDiff (CheckContext.DiffContent ctx)))).
  { destruct onlyInPaths; [injection Hcheck as <-; exact Hv|].
    destruct filesToCheck; injection Hcheck as <-; [contradiction|exact Hv]. }
  apply in_flat_map in Hin as (fd & _ & Hin).
  destruct (lookup_bool _ (Path fd)) eqn:Hl; cbn in Hin; [|contradiction].
  apply (buildFileSet_In Regexp regexp_Compile) in Hl.
  apply in_flat_map in Hin as (addedLine & _ & Hin).
  destruct (matchesAnyRegexp _ _ _ _); [|contradiction].
  destruct Hin as [<-|[]]. exists (Path fd), ("+" ++ addedLine)%string. auto.
Qed.

Lemma DiffPatternRequires_stamped ctx violations v :
  DiffPatternRequires_Check Regexp regexp_Compile MatchString ctx = Ok violations ->
  In v violations -> stamped ctx v.
Proof.
  unfold DiffPatternRequires_Check.
  destruct (getStringSlice _ "required_regexes") as [patterns|]; [|discriminate].
  destruct (getStringSlice _ "only_in_paths") as [onlyInPaths|]; [|discriminate].
  cbn [wrapErr bind].
  destruct (filterFilesByGlobs _ onlyInPaths) as [|firstMatched rest] eqn:Hf.
  { intros [= <-] []. }
  destruct (compileAll _ _ _ patterns) as [compiled|]; [|discriminate].
  cbn [bind]. destruct (existsb _ _); intros [= <-]; [intros []|].
  intros [<-|[]]. exists firstMatched, "". split; [reflexivity|].
  assert (H : In firstMatched (filterFilesByGlobs (CheckContext.ChangedFiles ctx)
                                                   onlyInPaths))
    by (rewrite Hf; now left).
  unfold filterFilesByGlobs in H. apply filter_In in H. tauto.
Qed.

Lemma Registry_stamped ty checker ctx violations v :
  checkers !! ty = Some checker ->
  Check checker ctx = Ok violations -> In v violations -> stamped ctx v.
Proof.
  rewrite Registry_lookup.
  destruct (String.eqb ty "diff_pattern_requires");
    [intros [= <-]; apply DiffPatternRequires_stamped|].
  destruct (String.eqb ty "diff_pattern_forbidden");
    [intros [= <-]; apply DiffPatternForbidden_stamped|].
  destruct (String.eqb ty "imports_forbidden");
    [intros [= <-]; apply ImportsForbidden_stamped|discriminate].
Qed.

Lemma runRules_acc rules changedFiles diffContent : forall acc,
  runLoop rules changedFiles diffContent acc =
  (violations <- runLoop rules changedFiles diffContent [] ;; Ok (acc ++ violations)).
Proof.
  induction rules as [|rule rules IH]; intros acc; cbn [runRules].
  - cbn. now rewrite app_nil_r.
  - destruct (checkers !! Rule.Type' rule) as [checker|]; [|reflexivity].
    destruct (Check checker _) as [vs|]; [|reflexivity].
    rewrite IH, (IH ([] ++ vs)). cbn [app].
    destruct (runLoop rules changedFiles diffContent []); cbn; [|reflexivity].
    now rewrite app_assoc.
Qed.

Lemma runRules_app rules1 rules2 changedFiles diffContent : forall acc,
  runLoop (rules1 ++ rules2) changedFiles diffContent acc =
  (violations <- runLoop rules1 changedFiles diffContent acc ;;
   runLoop rules2 changedFiles diffContent violations).
Proof.
  induction rules1 as [|rule rules1 IH]; intros acc; cbn [runRules app]; [reflexivity|].
  destruct (checkers !! Rule.Type' rule) as [checker|]; [|reflexivity].
  destruct (Check checker _) as [vs|]; [|reflexivity].
  apply IH.
Qed.

Lemma runRules_stamped rules changedFiles diffContent : forall acc violations v,
  runLoop rules changedFiles diffContent acc = Ok violations ->
  In v violations ->
  In v acc \/
  exists rule, In rule rules /\ stamped (contextOf rule changedFiles diffContent) v.
Proof.
  induction rules as [|rule rules IH]; intros acc violations v; cbn [runRules].
  - intros [= <-]. now left.
  - destruct (checkers !! Rule.Type' rule) as [checker|] eqn:Hc; [|discriminate].
    destruct (Check checker _) as [vs|] eqn:Hvs; [|discriminate].
    intros Hrun Hv. destruct (IH _ _ _ Hrun Hv) as [Hacc|(r & Hr & Hst)].
    + apply in_app_or in Hacc as [Hacc|Hnew]; [now left|].
      right. exists rule. split; [now left|].
      exact (Registry_stamped _ _ _ _ _ Hc Hvs Hnew).
    + right. exists r. split; [now right|exact Hst].
Qed.

Lemma applyExceptions_incl now e violations v :
  In v (applyExceptions now e violations) -> In v violations.
Proof. rewrite applyExceptions_filter, filter_In. tauto. Qed.

Lemma countSeverity_count severity violations :
  Z.of_nat (length violations) <= max_int ->
  countSeverity severity violations = severityCount severity violations.
Proof.
  unfold countSeverity, severityCount.
  assert (H : forall n, 0 <= n -> n + Z.of_nat (length violations) <= max_int ->
            fold_left (fun n v => if String.eqb (Violation.Severity v) severity
                                  then wrap_int (n + 1) else n) violations n =
            n + Z.of_nat (length (List.filter
                                    (fun v => String.eqb (Violation.Severity v) severity)
                                    violations))).
  { induction violations as [|v vs IH]; intros n Hn Hlen; cbn [fold_left List.filter].
    - cbn. lia.
    - cbn [length] in Hlen.
      destruct (String.eqb (Violation.Severity v) severity).
      + rewrite wrap_int_small by (unfold min_int, max_int in *; lia).
        rewrite IH by lia. cbn [length]. lia.
      + rewrite IH by lia. lia. }
  intros Hlen. rewrite H by lia. lia.
Qed.

(** X11. Every violation of a run belongs to one of the rules of the engine, whose
    ID, severity and description it carries, and to one of the changed
    files; it comes without an explanation. *)
Theorem Run_attributed (now : Time) (e : Engine) (changedFiles : list string)
        (diffContent : string) (res : EngineResult) (v : Violation.t) :
  run now e changedFiles diffContent = Ok res ->
  In v (Violations res) ->
  (exists rule, In rule (Rules e) /\
                Violation.RuleID v = Rule.ID rule /\
                Violation.Severity v = Rule.Severity rule /\
                Violation.Description v = Rule.Description rule) /\
  In (Violation.FilePath v) changedFiles /\
  Violation.LLMExplanation v = "".
Proof.
  unfold Run.
  destruct (runLoop (Rules e) changedFiles diffContent []) as [all|] eqn:Hrun;
    [|discriminate].
  cbn [bind]. intros [= <-]. cbn [Violations]. intros Hv.
  apply applyExceptions_incl in Hv.
  destruct (runRules_stamped _ _ _ _ _ _ Hrun Hv)
    as [[]|(rule & Hrule & file & snippet & -> & Hfile)].
  split; [exists rule; repeat split; [exact Hrule]|split; [exact Hfile|reflexivity]].
Qed.

(** X12. The counters of a run are the numbers of its violations of severity
    error and of severity warning; when every rule of the engine has one of
    these two severities, they add up to the number of violations. *)
Theorem Run_counts (now : Time) (e : Engine) (changedFiles : list string)
        (diffContent : string) (res : EngineResult) :
  run now e changedFiles diffContent = Ok res ->
  Z.of_nat (length (Violations res)) <= max_int ->
  Errors res = severityCount "error" (Violations res) /\
  Warnings res = severityCount "warning" (Violations res) /\
  ((forall rule, In rule (Rules e) ->
                 Rule.Severity rule = "error" \/ Rule.Severity rule = "warning") ->
   Errors res + Warnings res = Z.of_nat (length (Violations res))).
Proof.
  unfold Run.
  destruct (runLoop (Rules e) changedFiles diffContent []) as [all|] eqn:Hrun;
    [|discriminate].
  cbn [bind]. intros [= <-]. cbn [Violations Errors Warnings]. intros Hlen.
  rewrite !countSeverity_count by exact Hlen.
  split; [reflexivity|]. split; [reflexivity|]. intros Hsev.
  assert (Hall : forall v, In v (applyExceptions now e all) ->
                           Violation.Severity v = "error" \/
                           Violation.Severity v = "warning").
  { intros v Hv. apply applyExceptions_incl in Hv.
    destruct (runRules_stamped _ _ _ _ _ _ Hrun Hv)
      as [[]|(rule & Hrule & file & snippet & -> & _)].
    exact (Hsev rule Hrule). }
  clear Hlen. unfold severityCount.
  induction (applyExceptions now e all) as [|v vs IH]; [reflexivity|].
  cbn [List.filter].
  specialize (IH (fun w Hw => Hall w (or_intror Hw))).
  pose proof (Hall v (or_introl eq_refl)) as Hv.
  destruct (String.eqb_spec (Violation.Severity v) "error") as [He|He];
    destruct (String.eqb_spec (Violation.Severity v) "warning") as [Hw|Hw];
    cbn [length]; try lia; [congruence|tauto].
Qed.

(** X13. Rules run independently and in order: the run of two lists of rules, one
    after the other, reports the violations of the first list followed by
    those of the second; it fails when a run of one of them fails, with the
    error of the first list if there is one. *)
Theorem Run_app (now : Time) (rules1 rules2 : list Rule.t)
        (exceptions : list Exception.t) (changedFiles : list string)
        (diffContent : string) :
  let runOf rules := run now (NewEngine rules exceptions) changedFiles diffContent in
  match runOf rules1, runOf rules2 with
  | Ok res1, Ok res2 =>
      exists res, runOf (rules1 ++ rules2) = Ok res /\
                  Violations res = Violations res1 ++ Violations res2
  | Ok _, Err err => runOf (rules1 ++ rules2) = Err err
  | Err err, _ => runOf (rules1 ++ rules2) = Err err
  end.
Proof.
  intros runOf. subst runOf. unfold Run. cbn [Rules].
  rewrite runRules_app.
  destruct (runLoop rules1 changedFiles diffContent []) as [vs1|err1]; cbn [bind];
    [|destruct (runLoop rules2 changedFiles diffContent []); reflexivity].
  rewrite (runRules_acc rules2 _ _ vs1).
  destruct (runLoop rules2 changedFiles diffContent []) as [vs2|err2]; cbn [bind];
    [|reflexivity].
  eexists. split; [reflexivity|]. cbn [Violations].
  rewrite !applyExceptions_filter. cbn [Exceptions]. apply List.filter_app.
Qed.

End RunReports.

(** [Run_attributed] at the rule without a test and the rule with a
    malformed [only_in_paths], on a change of [main.go]. *)
Lemma Run_attributed_witness :
  let v := Violation.mk "needs_test" "error" "changes need a test" "main.go" "" "" in
  (exists rule, In rule [ruleWithMalformedPaths; ruleNeedsTest] /\
                Violation.RuleID v = Rule.ID rule /\
                Violation.Severity v = Rule.Severity rule /\
                Violation.Description v = Rule.Description rule) /\
  In (Violation.FilePath v) ["main.go"] /\
  Violation.LLMExplanation v = "".
Proof.
  intros v.
  apply (Run_attributed string literal_Compile literal_MatchString 0%Z
           (NewEngine [ruleWithMalformedPaths; ruleNeedsTest] [])
           ["main.go"] todoDiff
           (mkEngineResult
              [Violation.mk "no_todo" "warning" "no TODO in new code" "main.go"
                            "+// TODO later" ""; v] 1 1) v).
  - vm_compute. reflexivity.
  - right. left. reflexivity.
Defined.

(** [Run_counts] at the same run. *)
Lemma Run_counts_witness :
  let violations :=
    [Violation.mk "no_todo" "warning" "no TODO in new code" "main.go"
                  "+// TODO later" "";
     Violation.mk "needs_test" "error" "changes need a test" "main.go" "" ""] in
  1 = severityCount "error" violations /\
  1 = severityCount "warning" violations /\
  ((forall rule, In rule [ruleWithMalformedPaths; ruleNeedsTest] ->
                 Rule.Severity rule = "error" \/ Rule.Severity rule = "warning") ->
   1 + 1 = Z.of_nat (length violations)).
Proof.
  intros violations.
  apply (Run_counts string literal_Compile literal_MatchString 0%Z
           (NewEngine [ruleWithMalformedPaths; ruleNeedsTest] [])
           ["main.go"] todoDiff (mkEngineResult violations 1 1)).
  - vm_compute. reflexivity.
  - vm_compute. discriminate.
Defined.

(** ** Exceptions over time *)

Lemma filter_sublist {A : Type} (p q : A -> bool) (l : list A) :
  (forall x, In x l -> p x = true -> q x = true) ->
  sublist (List.filter p l) (List.filter q l).
Proof.
  induction l as [|x l IH]; intros Hpq; cbn [List.filter]; [constructor|].
  specialize (IH (fun y Hy => Hpq y (or_intror Hy))).
  destruct (p x) eqn:Hp.
  - rewrite (Hpq x (or_introl eq_refl) Hp). now constructor.
  - destruct (q x); [now constructor|exact IH].
Qed.

Lemma isExcepted_incl v exceptions1 exceptions2 :
  (forall exc, In exc exceptions1 -> In exc exceptions2) ->
  isExcepted v exceptions1 = true -> isExcepted v exceptions2 = true.
Proof.
  intros Hincl. rewrite !isExcepted_covers.
  intros (exc & Hin & Hc). exists exc. auto.
Qed.

(** X14. Exceptions only expire: what a run reports at one time it reports at
    every later time, in the same order and maybe among more; and an engine
    with more exceptions reports no violation that the engine without them
    does not report. *)
Theorem applyExceptions_monotone (now later : Time) (rules : list Rule.t)
        (exceptions more : list Exception.t) (violations : list Violation.t) :
  now <= later ->
  sublist (applyExceptions now (NewEngine rules exceptions) violations)
          (applyExceptions later (NewEngine rules exceptions) violations) /\
  sublist (applyExceptions now (NewEngine rules (exceptions ++ more)) violations)
          (applyExceptions now (NewEngine rules exceptions) violations).
Proof.
  intros Hlater. rewrite !applyExceptions_filter. cbn [Exceptions].
  split; apply filter_sublist; intros v _ Hv;
    apply negb_true_iff; apply negb_true_iff in Hv;
    destruct (isExcepted v _) eqn:Hex in |- *; try reflexivity;
    rewrite <- Hv; symmetry; revert Hex; apply isExcepted_incl; intros exc;
    rewrite !filter_In.
  - intros [Hin Hact]. split; [exact Hin|].
    apply negb_true_iff. apply negb_true_iff in Hact.
    unfold isExpired, Before in *.
    destruct (Exception.ExpiresAt exc) as [expiresAt|]; [|reflexivity].
    apply Z.ltb_ge. apply Z.ltb_ge in Hact. lia.
  - intros [Hin Hact]. split; [apply in_or_app; now left|exact Hact].
Qed.

(** [applyExceptions_monotone] at the exception that expires at 100: the
    violation it covers at 100 is reported at 101. *)
Lemma applyExceptions_monotone_witness :
  sublist (applyExceptions 100 (NewEngine [] [boundaryException]) [legacyViolation])
          (applyExceptions 101 (NewEngine [] [boundaryException]) [legacyViolation]) /\
  sublist (applyExceptions 100 (NewEngine [] ([boundaryException] ++ [])) [legacyViolation])
          (applyExceptions 100 (NewEngine [] [boundaryException]) [legacyViolation]).
Proof.
  apply (applyExceptions_monotone 100 101 [] [boundaryException] [] [legacyViolation]).
  lia.
Defined.

Local Close Scope Z_scope.

(** * Patterns without special characters *)

Module LiteralPatterns.
Import Filepath.

Lemma literal_cons c pattern :
  literal (String c pattern) = true ->
  Ascii.eqb c "*" = false /\ Ascii.eqb c "?" = false /\ Ascii.eqb c "[" = false /\
  Ascii.eqb c "\" = false /\ literal pattern = true.
Proof.
  cbn [literal]. unfold isMeta. intros H.
  apply andb_true_iff in H as [H Hl]. apply negb_true_iff in H.
  repeat (apply orb_false_iff in H as [H ?]). auto.
Qed.

Lemma scanBody_literal pattern :
  literal pattern = true -> scanBody pattern false = (pattern, "").
Proof.
  induction pattern as [|c pattern IH]; [reflexivity|].
  intros H. apply literal_cons in H as (Hs & _ & Hb & He & Hl).
  cbn [scanBody]. rewrite He, Hb, Hs.
  destruct (Ascii.eqb c "]"); now rewrite (IH Hl).
Qed.

Lemma scanChunk_literal pattern :
  literal pattern = true -> scanChunk pattern = (false, pattern, "").
Proof.
  intros H. unfold scanChunk.
  assert (Ht : TrimLeft pattern "*" = pattern).
  { destruct pattern as [|c pattern]; [reflexivity|].
    apply literal_cons in H as (Hs & _). cbn [TrimLeft in_cutset]. now rewrite Hs. }
  rewrite Ht, String.eqb_refl, (scanBody_literal _ H). reflexivity.
Qed.

Lemma matchChunkLoop_literal chunk :
  literal chunk = true ->
  forall rounds s failed,
    String.length chunk <= rounds ->
    matchChunkLoop rounds chunk s failed =
    if failed then ChunkNo
    else if HasPrefix s chunk then ChunkYes (drop_bytes (String.length chunk) s)
         else ChunkNo.
Proof.
  induction chunk as [|c chunk IH]; intros Hl rounds s failed Hr.
  - destruct rounds; reflexivity.
  - apply literal_cons in Hl as (_ & Hq & Hb & He & Hl).
    destruct rounds as [|rounds]; [cbn in Hr; lia|].
    cbn [String.length] in Hr. cbn [matchChunkLoop]. rewrite Hb, Hq, He.
    destruct failed; cbn [orb].
    + now rewrite (IH Hl) by lia.
    + destruct s as [|e s]; cbn [String.eqb].
      * now rewrite (IH Hl) by lia.
      * rewrite (IH Hl) by lia. cbn [HasPrefix String.length drop_bytes].
        rewrite (Ascii.eqb_sym e c). now destruct (Ascii.eqb c e).
Qed.

Lemma HasPrefix_whole name pattern :
  (HasPrefix name pattern && String.eqb (drop_bytes (String.length pattern) name) "")
  = String.eqb pattern name.
Proof.
  revert name; induction pattern as [|c pattern IH]; intros name.
  - cbn. now destruct name.
  - destruct name as [|e name]; [reflexivity|].
    cbn [HasPrefix String.length drop_bytes String.eqb].
    rewrite (Ascii.eqb_sym e c). destruct (Ascii.eqb c e); [apply IH|reflexivity].
Qed.

Lemma Match_literal pattern name :
  literal pattern = true -> Match pattern name = Some (String.eqb pattern name).
Proof.
  intros Hl. unfold Match.
  destruct pattern as [|c pattern]; [now destruct name|].
  set (p := String c pattern) in *.
  change (String.length p) with (S (String.length pattern)).
  change (MatchLoop (S (String.length pattern)) p name)
    with (let '(star, chunk, rest) := scanChunk p in
          if star && String.eqb chunk "" then Some (negb (Contains name "/"))
          else
            let lastChunk := String.eqb rest "" in
            let afterFirst :=
              match matchChunk chunk name with
              | ChunkYes t =>
                  if String.eqb t "" || negb lastChunk then inl t else inr false
              | ChunkBad => inr true
              | ChunkNo => inr false
              end in
            match afterFirst with
            | inl t => MatchLoop (String.length pattern) rest t
            | inr true => None
            | inr false =>
                if star then
                  match starLoop chunk lastChunk name with
                  | StarFound t => MatchLoop (String.length pattern) rest t
                  | StarBad => None
                  | StarNone => Some false
                  end
                else Some false
            end).
  rewrite (scanChunk_literal _ Hl). cbn [andb]. cbv zeta.
  unfold matchChunk. rewrite (matchChunkLoop_literal _ Hl) by lia.
  rewrite <- (HasPrefix_whole name p).
  destruct (HasPrefix name p); [|reflexivity].
  cbn [andb String.eqb negb orb].
  destruct (String.eqb_spec (drop_bytes (String.length p) name) "") as [->|Hne].
  - cbn [orb]. destruct (String.length pattern); reflexivity.
  - rewrite orb_false_r.
    destruct (drop_bytes (String.length p) name); [congruence|reflexivity].
Qed.

Lemma literal_no_stars pattern :
  literal pattern = true -> Contains pattern "**" = false.
Proof.
  induction pattern as [|c pattern IH]; [reflexivity|].
  intros H. apply literal_cons in H as (Hs & _ & _ & _ & Hl).
  cbn [Contains HasPrefix]. rewrite Hs. exact (IH Hl).
Qed.

End LiteralPatterns.

(** X15. A glob without [*], [?], [[] and backslash names one path: it matches
    the path that is equal to it and no other, under [filepath.Match] and so
    under [globMatch]; an exception whose paths are such globs covers the
    violations of its rule in exactly these files. *)
Theorem globMatch_literal (pattern path : string) :
  literal pattern = true ->
  Filepath.Match pattern path = Some (String.eqb pattern path) /\
  globMatch path pattern = String.eqb pattern path /\
  forall exc v,
    Exception.Paths exc = [pattern] ->
    (isExcepted v [exc] = true <->
     Exception.RuleID exc = Violation.RuleID v /\ Violation.FilePath v = pattern).
Proof.
  intros Hl. split; [now apply LiteralPatterns.Match_literal|]. split.
  - unfold globMatch. rewrite (LiteralPatterns.literal_no_stars _ Hl).
    unfold matchOrFalse. now rewrite (LiteralPatterns.Match_literal _ _ Hl).
  - intros exc v Hpaths. rewrite isExcepted_covers. unfold covers. split.
    + intros (exc' & [<-|[]] & Hid & p & Hp & Hm). split; [exact Hid|].
      rewrite Hpaths in Hp. destruct Hp as [<-|[]].
      rewrite (LiteralPatterns.Match_literal _ _ Hl) in Hm.
      injection Hm as Hm. apply String.eqb_eq in Hm. now symmetry.
    + intros [Hid Hpath]. exists exc. split; [now left|]. split; [exact Hid|].
      exists pattern. rewrite Hpaths. split; [now left|].
      rewrite (LiteralPatterns.Match_literal _ _ Hl), Hpath, String.eqb_refl.
      reflexivity.
Qed.

(** [globMatch_literal] at the path of a Go file. *)
Lemma globMatch_literal_witness :
  Filepath.Match "cmd/main.go" "cmd/main.go" = Some true /\
  globMatch "cmd/main_test.go" "cmd/main.go" = false.
Proof.
  destruct (globMatch_literal "cmd/main.go" "cmd/main.go") as (Hm & _);
    [reflexivity|].
  destruct (globMatch_literal "cmd/main.go" "cmd/main_test.go") as (_ & Hg & _);
    [reflexivity|].
  split; [exact Hm|exact Hg].
Defined.

(** * Rule configuration and the forbidden patterns *)

Lemma stringElements_map key l : stringElements key (map VString l) = Ok l.
Proof.
  induction l as [|s l IH]; [reflexivity|]. cbn [map stringElements].
  now rewrite IH.
Qed.

Lemma stringElements_inv key items l :
  stringElements key items = Ok l -> items = map VString l.
Proof.
  revert l; induction items as [|item items IH]; intros l.
  - intros [= <-]. reflexivity.
  - destruct item; try discriminate. cbn [stringElements].
    destruct (stringElements key items) as [l'|]; [|discriminate].
    intros [= <-]. cbn [map]. now rewrite (IH l' eq_refl).
Qed.

(** X16. A list of strings stored under a key, as a [[]string] or as a
    [[]interface{}] of strings, is read back by [getStringSlice]; and these
    are the only two shapes it reads a list from.  Otherwise the error tells
    what is wrong: the key is missing, or an element is no string, or the
    value is no list. *)
Theorem getStringSlice_round_trip (cfg : gmap string value) (key : string) :
  (forall l key',
      getStringSlice (<[key := VStrings l]> cfg) key' =
        (if String.eqb key key' then Ok l else getStringSlice cfg key') /\
      getStringSlice (<[key := VSlice (map VString l)]> cfg) key' =
        (if String.eqb key key' then Ok l else getStringSlice cfg key')) /\
  match getStringSlice cfg key with
  | Ok l => cfg !! key = Some (VStrings l) \/ cfg !! key = Some (VSlice (map VString l))
  | Err e =>
      (e = ErrMissingKey key /\ cfg !! key = None) \/
      (e = ErrStringElements key /\
       exists items, cfg !! key = Some (VSlice items) /\
                     forall l, items <> map VString l) \/
      (e = ErrStringSlice key /\
       exists v, cfg !! key = Some v /\
                 (forall items, v <> VSlice items) /\ (forall l, v <> VStrings l))
  end.
Proof.
  split.
  - intros l key'. unfold getStringSlice.
    destruct (String.eqb_spec key key') as [<-|Hne].
    + rewrite !lookup_insert_eq. split; [reflexivity|apply stringElements_map].
    + rewrite !lookup_insert_ne by exact Hne. split; reflexivity.
  - unfold getStringSlice. destruct (cfg !! key) as [v|] eqn:Hv; [|now left].
    destruct v as [| | | |items|items|];
      try (right; right; split; [reflexivity|]; eexists; split; [reflexivity|];
           split; discriminate).
    + destruct (stringElements key items) as [l|e] eqn:Hl.
      * right. now rewrite (stringElements_inv _ _ _ Hl).
      * right. left.
        assert (He : e = ErrStringElements key).
        { clear Hv. revert e Hl.
          induction items as [|item items IH]; intros e; [discriminate|].
          destruct item; cbn [stringElements]; try (now intros [= <-]).
          destruct (stringElements key items); [discriminate|].
          cbn [bind]. intros [= <-]. now apply IH. }
        split; [exact He|]. exists items. split; [reflexivity|].
        intros l ->. rewrite stringElements_map in Hl. discriminate.
    + now left.
Qed.

Section ForbiddenPatterns.

Variable Regexp : Type.
Variable regexp_Compile : string -> option Regexp.
Variable MatchString : Regexp -> string -> bool.

(** X17. With a well-formed configuration, a diff_pattern_forbidden rule reports
    every added line that one of its patterns matches, once, in the files of
    the diff that are changed files and that [only_in_paths] lets through,
    in the order of the diff.  An empty [only_in_paths] restricts nothing. *)
Theorem DiffPatternForbidden_scoped
        (ctx : CheckContext.t) (forbiddenRegexes onlyInPaths : list string) :
  getStringSlice (CheckContext.RuleConfig ctx) "forbidden_regexes" = Ok forbiddenRegexes ->
  getStringSlice (CheckContext.RuleConfig ctx) "only_in_paths" = Ok onlyInPaths ->
  (forall pattern, In pattern forbiddenRegexes -> regexp_Compile pattern <> None) ->
  exists flagged : string -> bool,
    (forall line,
        flagged line = true <->
        exists pattern re,
          In pattern forbiddenRegexes /\ regexp_Compile pattern = Some re /\
          MatchString re line = true) /\
    DiffPatternForbidden_Check Regexp regexp_Compile MatchString ctx =
      Ok (flat_map
            (fun fd =>
               if inScope (CheckContext.ChangedFiles ctx) onlyInPaths (Path fd)
               then map (fun line => violationOf ctx (Path fd) ("+" ++ line))
                        (List.filter flagged (AddedLines fd))
               else [])
            (ParseDiff (CheckContext.DiffContent ctx))).
Proof.
  intros Hregs Hpaths Hwf.
  destruct (compileAll_Ok Regexp regexp_Compile MatchString
              "diff_pattern_forbidden" forbiddenRegexes Hwf)
    as (compiled & Hcomp & Hin).
  exists (matchesAnyRegexp Regexp MatchString compiled). split.
  - intros line. unfold matchesAnyRegexp. rewrite existsb_exists. split.
    + intros (re & Hre & Hm). apply Hin in Hre as (pattern & Hp & Hc). eauto.
    + intros (pattern & re & Hp & Hc & Hm). exists re. split; [|exact Hm].
      apply Hin. eauto.
  - unfold DiffPatternForbidden_Check. rewrite Hregs. cbn [wrapErr bind].
    rewrite Hcomp. cbn [bind]. rewrite Hpaths.
    set (filesToCheck := match onlyInPaths with
                         | [] => CheckContext.ChangedFiles ctx
                         | _ :: _ => filterFilesByGlobs (CheckContext.ChangedFiles ctx)
                                                        onlyInPaths
                         end).
    assert (Hscope : forall path,
               lookup_bool (buildFileSet filesToCheck) path =
               inScope (CheckContext.ChangedFiles ctx) onlyInPaths path).
    { intros path. apply eq_true_iff_eq.
      rewrite (buildFileSet_In Regexp regexp_Compile). unfold inScope.
      rewrite andb_true_iff, bool_decide_eq_true, list_elem_of_In.
      subst filesToCheck. destruct onlyInPaths; [tauto|].
      unfold filterFilesByGlobs. rewrite filter_In. tauto. }
    assert (Hbody :
              flat_map
                (fun fd =>
                   if negb (lookup_bool (buildFileSet filesToCheck) (Path fd)) then []
                   else
                     flat_map (fun addedLine =>
                                 if matchesAnyRegexp Regexp MatchString compiled addedLine
                                 then [violationOf ctx (Path fd) ("+" ++ addedLine)]
                                 else [])
                              (AddedLines fd))
                (ParseDiff (CheckContext.DiffContent ctx)) =
              flat_map
                (fun fd =>
                   if inScope (CheckContext.ChangedFiles ctx) onlyInPaths (Path fd)
                   then map (fun line => violationOf ctx (Path fd) ("+" ++ line))
                            (List.filter (matchesAnyRegexp Regexp MatchString compiled)
                                         (AddedLines fd))
                   else [])
                (ParseDiff (CheckContext.DiffContent ctx))).
    { apply flat_map_ext. intros fd. rewrite Hscope.
      destruct (inScope _ _ _); [|reflexivity]. apply flat_map_filter_map. }
    destruct onlyInPaths as [|glob globs]; [now rewrite Hbody|].
    destruct filesToCheck as [|file files] eqn:Hfiles; [|now rewrite Hbody].
    f_equal. rewrite <- Hbody. clear Hbody.
    induction (ParseDiff (CheckContext.DiffContent ctx)) as [|fd fileDiffs IH];
      [reflexivity|].
    cbn [flat_map]. rewrite <- IH.
    unfold lookup_bool, buildFileSet. cbn [fold_left]. rewrite lookup_empty.
    reflexivity.
Qed.

End ForbiddenPatterns.

(** [DiffPatternForbidden_scoped] at a rule that forbids TODO in Go files. *)
Lemma DiffPatternForbidden_scoped_witness :
  exists flagged : string -> bool,
    flagged "// TODO later" = true /\
    DiffPatternForbidden_Check string literal_Compile literal_MatchString
      (contextOf ruleNoTodoInGo ["main.go"; "README.md"] todoDiff) =
      Ok (flat_map
            (fun fd =>
               if inScope ["main.go"; "README.md"] ["*.go"] (Path fd)
               then map (fun line =>
                           violationOf (contextOf ruleNoTodoInGo ["main.go"; "README.md"]
                                                  todoDiff)
                                       (Path fd) ("+" ++ line))
                        (List.filter flagged (AddedLines fd))
               else [])
            (ParseDiff todoDiff)).
Proof.
  destruct (DiffPatternForbidden_scoped string literal_Compile literal_MatchString
              (contextOf ruleNoTodoInGo ["main.go"; "README.md"] todoDiff)
              ["TODO"] ["*.go"])
    as (flagged & Hflag & Hcheck).
  - vm_compute; reflexivity.
  - vm_compute; reflexivity.
  - intros pattern [<-|[]]. vm_compute. discriminate.
  - exists flagged. split; [|exact Hcheck].
    apply Hflag. exists "TODO", "TODO". split; [now left|].
    split; vm_compute; reflexivity.
Defined.

(** * The governance files *)

Section MetaCheckerProperties.

Variable PathError : Type.
Variable ReadDir : string -> readDir PathError.
Variable ReadFile : string -> option string.
Variable Join : string -> string -> string.
Variable ToLower : string -> string.

Local Abbreviation accepted := (hasAcceptedProposal PathError ReadDir ReadFile Join ToLower).
Local Abbreviation checkMeta := (MetaChecker_Check PathError ReadDir ReadFile Join ToLower).
Local Abbreviation loopMeta := (metaLoop PathError ReadDir ReadFile Join ToLower).

Lemma isProtectedFile_iff file :
  isProtectedFile file = true <->
  file = ".agreements/constitution.yml" \/ file = ".agreements/rules.yml".
Proof.
  unfold isProtectedFile, ToSlash, protectedFiles. cbn [existsb].
  rewrite !orb_true_iff, !String.eqb_eq. intuition discriminate.
Qed.

Lemma metaLoop_none changedFiles proposalsDir : forall violations,
  List.filter isProtectedFile changedFiles = [] ->
  loopMeta changedFiles proposalsDir violations = Success violations.
Proof.
  induction changedFiles as [|file rest IH]; intros violations; [reflexivity|].
  cbn [List.filter metaLoop]. destruct (isProtectedFile file); [discriminate|].
  apply IH.
Qed.

Lemma metaLoop_Success changedFiles proposalsDir hasProposal : forall violations,
  accepted proposalsDir = Success hasProposal ->
  loopMeta changedFiles proposalsDir violations =
  Success (violations ++
           if hasProposal then []
           else map metaViolation (List.filter isProtectedFile changedFiles)).
Proof.
  intros violations Hacc. revert violations.
  induction changedFiles as [|file rest IH]; intros violations.
  - cbn. destruct hasProposal; now rewrite app_nil_r.
  - cbn [List.filter metaLoop]. destruct (isProtectedFile file); cbn [negb].
    + rewrite Hacc, IH. destruct hasProposal; cbn [negb]; [reflexivity|].
      cbn [map]. now rewrite <- app_assoc.
    + apply IH.
Qed.

Lemma metaLoop_Failure changedFiles proposalsDir err : forall violations,
  accepted proposalsDir = Failure err ->
  List.filter isProtectedFile changedFiles <> [] ->
  loopMeta changedFiles proposalsDir violations = Failure err.
Proof.
  intros violations Hacc. revert violations.
  induction changedFiles as [|file rest IH]; intros violations; [now cbn|].
  cbn [List.filter metaLoop]. destruct (isProtectedFile file); cbn [negb].
  - now rewrite Hacc.
  - apply IH.
Qed.

(** X18. [MetaChecker.Check] protects two files: the constitution and the rules.
    When neither is among the changed files it reports nothing, whatever the
    state of the proposals directory.  Otherwise it fails when the directory
    cannot be read, reports nothing when an accepted proposal is found, and
    else reports each protected file that changed, as an error of the rule
    [meta_check]. *)
Theorem MetaChecker_Check_spec (changedFiles : list string) (proposalsDir : string) :
  let protected := List.filter isProtectedFile changedFiles in
  (forall file, In file protected <->
                In file changedFiles /\
                (file = ".agreements/constitution.yml" \/ file = ".agreements/rules.yml")) /\
  (protected = [] -> checkMeta changedFiles proposalsDir = Success []) /\
  (protected <> [] ->
   match accepted proposalsDir with
   | Failure err => checkMeta changedFiles proposalsDir = Failure err
   | Success true => checkMeta changedFiles proposalsDir = Success []
   | Success false =>
       checkMeta changedFiles proposalsDir =
       Success (map (fun file =>
                       Violation.mk "meta_check" "error"
                                    ("Changes to " ++ file ++ " require an accepted proposal")
                                    file "" "")
                    protected)
   end).
Proof.
  intros protected. split; [|split].
  - intros file. subst protected. rewrite filter_In, isProtectedFile_iff. tauto.
  - intros Hnone. now apply metaLoop_none.
  - intros Hsome. unfold MetaChecker_Check.
    destruct (accepted proposalsDir) as [hasProposal|err] eqn:Hacc.
    + rewrite (metaLoop_Success _ _ _ _ Hacc). now destruct hasProposal.
    + now apply metaLoop_Failure.
Qed.

(** X19. A proposal counts as accepted by its text alone: [hasAcceptedProposal]
    says yes exactly when the directory can be read and has an entry that is
    no directory, whose name ends in [.yml] or [.yaml] (in any case of the
    letters), that can be read and whose text contains [status: accepted]
    somewhere.  A directory that does not exist has no accepted proposal;
    any other failure to read it is an error. *)
Theorem hasAcceptedProposal_spec (proposalsDir : string) :
  (accepted proposalsDir = Success true <->
   exists entries entry content,
     ReadDir proposalsDir = DirEntries entries /\ In entry entries /\
     DirEntry.IsDir entry = false /\
     (ToLower (Ext (DirEntry.Name entry)) = ".yml" \/
      ToLower (Ext (DirEntry.Name entry)) = ".yaml") /\
     ReadFile (Join proposalsDir (DirEntry.Name entry)) = Some content /\
     substring "status: accepted" content) /\
  (forall err, accepted proposalsDir = Failure err <-> ReadDir proposalsDir = DirError err) /\
  (forall err, ReadDir proposalsDir = DirNotExist err ->
               accepted proposalsDir = Success false).
Proof.
  unfold hasAcceptedProposal. split; [|split].
  - destruct (ReadDir proposalsDir) as [entries|err|err].
    + split.
      * intros [= Hex]. apply existsb_exists in Hex as (entry & Hin & Hacc).
        unfold isAcceptedEntry in Hacc.
        destruct (DirEntry.IsDir entry) eqn:Hdir; [discriminate|].
        destruct (String.eqb_spec (ToLower (Ext (DirEntry.Name entry))) ".yml")
          as [Hyml|Hyml];
          destruct (String.eqb_spec (ToLower (Ext (DirEntry.Name entry))) ".yaml")
          as [Hyaml|Hyaml]; cbn [negb andb] in Hacc; try discriminate;
          (destruct (ReadFile _) as [content|] eqn:Hread; [|discriminate]);
          apply Contains_iff in Hacc;
          exists entries, entry, content; auto 10.
      * intros (entries' & entry & content & [= <-] & Hin & Hdir & Hext & Hread & Hsub).
        f_equal. apply existsb_exists. exists entry. split; [exact Hin|].
        unfold isAcceptedEntry. rewrite Hdir, Hread.
        apply Contains_iff in Hsub. rewrite Hsub.
        destruct Hext as [-> | ->]; reflexivity.
    + split; [discriminate|]. intros (? & ? & ? & [=] & _).
    + split; [discriminate|]. intros (? & ? & ? & [=] & _).
  - intros err. destruct (ReadDir proposalsDir); split; congruence.
  - intros err ->. reflexivity.
Qed.

End MetaCheckerProperties.

(** * The inbox *)

Local Open Scope Z_scope.

Lemma isEligibleVoter_eligible constitution userEmail :
  isEligibleVoter constitution userEmail = true <->
  userEmail ∈ GetEligibleVoters constitution.
Proof.
  rewrite GetEligibleVoters_elem. unfold isEligibleVoter, voterEmails.
  rewrite existsb_exists, list_elem_of_In, in_flat_map.
  split; intros (voterRef & Hin & H); exists voterRef; (split; [assumption|]).
  - destruct (Constitution.Roles constitution !! VoterRef.Role voterRef) as [role|];
      [|discriminate].
    apply existsb_exists in H as (member & Hm & Heq). apply String.eqb_eq in Heq.
    apply in_map_iff. exists member. auto.
  - destruct (Constitution.Roles constitution !! VoterRef.Role voterRef) as [role|];
      [|destruct H].
    apply in_map_iff in H as (member & Heq & Hm).
    apply existsb_exists. exists member. split; [exact Hm|]. now apply String.eqb_eq.
Qed.

Lemma hasVoted_false votes userEmail :
  hasVoted votes userEmail = false <->
  forall vote, In (Some vote) votes -> Vote.VoterEmail vote <> userEmail.
Proof.
  unfold hasVoted. split.
  - intros H vote Hin Heq.
    assert (Ht : existsb (fun v => match v with
                                   | Some vote => String.eqb (Vote.VoterEmail vote) userEmail
                                   | None => false
                                   end) votes = true).
    { apply existsb_exists. exists (Some vote). split; [exact Hin|].
      now apply String.eqb_eq. }
    congruence.
  - intros H. apply not_true_is_false. intros Ht.
    apply existsb_exists in Ht as ([vote|] & Hin & Heq); [|discriminate].
    apply String.eqb_eq in Heq. exact (H vote Hin Heq).
Qed.

(** Within the days a duration can hold, the inbox and the tally agree on
    when a proposal has expired. *)
Lemma Sub_expired now createdAt ttlDays :
  0 < ttlDays <= max_ttl_days ->
  (Sub now createdAt >? ttlDuration ttlDays) =
  After now (Add createdAt (ttlDuration ttlDays)).
Proof.
  intros Hdays. rewrite ttlDuration_days by lia.
  unfold Sub, After, Add, max_ttl_days, Hour, min_int, max_int in *.
  rewrite Z.gtb_ltb. apply eq_true_iff_eq. rewrite !Z.ltb_lt. lia.
Qed.

Lemma inboxItem_Some now votes constitution userEmail sinceLastCheck p item :
  Governance.ProposalTTLDays (Constitution.Governance constitution) <= max_ttl_days ->
  inboxItem now votes constitution userEmail sinceLastCheck p = Some item <->
  p = Some (InboxItem.Proposal item) /\
  Proposal.Status (InboxItem.Proposal item) = "proposed"%string /\
  (forall indefinite tallyVotes,
      TallyResult.IsExpired
        (ComputeTally indefinite now (InboxItem.Proposal item) tallyVotes constitution)
      = false) /\
  (forall since, sinceLastCheck = Some since ->
                 since < Proposal.CreatedAt (InboxItem.Proposal item)) /\
  (forall vote,
      In (Some vote) (default [] (votes !! Proposal.ID (InboxItem.Proposal item))) ->
      Vote.VoterEmail vote <> userEmail) /\
  InboxItem.Age item = Sub now (Proposal.CreatedAt (InboxItem.Proposal item)) /\
  InboxItem.IsOld item = (InboxItem.Age item >? oldThreshold).
Proof.
  intros Hmax. unfold inboxItem.
  set (ttlDays := Governance.ProposalTTLDays (Constitution.Governance constitution)) in *.
  assert (Hexp : forall q indefinite tallyVotes,
             TallyResult.IsExpired (ComputeTally indefinite now q tallyVotes constitution) =
             (ttlDays >? 0) && (Sub now (Proposal.CreatedAt q) >? ttlDuration ttlDays)).
  { intros q indefinite tallyVotes. rewrite ComputeTally_IsExpired. cbv zeta.
    fold ttlDays. destruct (Z.gtb_spec ttlDays 0); [|reflexivity].
    cbn [andb]. symmetry. apply Sub_expired. lia. }
  split.
  - destruct p as [q|]; [|discriminate].
    destruct (String.eqb_spec (Proposal.Status q) "proposed") as [Hst|];
      [|discriminate]. cbn [negb].
    destruct ((ttlDays >? 0) && (Sub now (Proposal.CreatedAt q) >? ttlDuration ttlDays))
      eqn:Hex; [discriminate|].
    destruct sinceLastCheck as [since|].
    + destruct (After (Proposal.CreatedAt q) since) eqn:Haft; [|discriminate].
      cbn [negb].
      destruct (hasVoted _ userEmail) eqn:Hv; [discriminate|].
      intros [= <-]. cbn [InboxItem.Proposal InboxItem.Age InboxItem.IsOld].
      repeat split; try assumption.
      * intros; now rewrite Hexp.
      * intros t [= <-]. unfold After in Haft. now apply Z.ltb_lt in Haft.
      * now apply hasVoted_false.
    + destruct (hasVoted _ userEmail) eqn:Hv; [discriminate|].
      intros [= <-]. cbn [InboxItem.Proposal InboxItem.Age InboxItem.IsOld].
      repeat split; try assumption.
      * intros; now rewrite Hexp.
      * discriminate.
      * now apply hasVoted_false.
  - destruct item as [q age isOld]. cbn [InboxItem.Proposal InboxItem.Age InboxItem.IsOld].
    intros (-> & Hst & Hnot & Hsince & Hvote & -> & ->).
    rewrite Hst. cbn [String.eqb negb].
    rewrite <- (Hexp q (fun _ => 0) []), (Hnot (fun _ => 0) []).
    apply hasVoted_false in Hvote. rewrite Hvote.
    destruct sinceLastCheck as [since|]; [|reflexivity].
    unfold After. destruct (Z.ltb_spec since (Proposal.CreatedAt q)) as [|Hge];
      [reflexivity|].
    specialize (Hsince since eq_refl). lia.
Qed.

(** X20. The inbox of a user holds, in the order of the proposals, those that
    still need the user's vote: the user is one of the eligible voters of the
    constitution, the status of the proposal is [proposed], the tally does not
    call it expired, it was created after the last check if there was one,
    and no vote filed under its ID bears the user's email.  The age of an
    item is the time since the creation, and an item is old after more than
    seven days. *)
Theorem GetInbox_spec (now : Time) (proposals : list (option Proposal.t))
        (votes : gmap string (list (option Vote.t))) (constitution : Constitution.t)
        (userEmail : string) (sinceLastCheck : option Time) :
  Governance.ProposalTTLDays (Constitution.Governance constitution) <= max_ttl_days ->
  exists items,
    GetInbox now proposals votes (Some constitution) userEmail sinceLastCheck = Some items /\
    sublist (map (fun item => Some (InboxItem.Proposal item)) items) proposals /\
    (forall p,
        In p (map InboxItem.Proposal items) <->
        In (Some p) proposals /\
        userEmail ∈ GetEligibleVoters constitution /\
        Proposal.Status p = "proposed"%string /\
        (forall indefinite tallyVotes,
            TallyResult.IsExpired (ComputeTally indefinite now p tallyVotes constitution)
            = false) /\
        (forall since, sinceLastCheck = Some since -> since < Proposal.CreatedAt p) /\
        (forall vote, In (Some vote) (default [] (votes !! Proposal.ID p)) ->
                      Vote.VoterEmail vote <> userEmail)) /\
    (forall item, In item items ->
                  InboxItem.Age item = Sub now (Proposal.CreatedAt (InboxItem.Proposal item)) /\
                  InboxItem.IsOld item = (InboxItem.Age item >? 7 * 24 * Hour)).
Proof.
  intros Hmax. unfold GetInbox.
  destruct (isEligibleVoter constitution userEmail) eqn:Hel; cbn [negb].
  - apply isEligibleVoter_eligible in Hel.
    eexists. split; [reflexivity|].
    set (itemOf := inboxItem now votes constitution userEmail sinceLastCheck).
    assert (Hitem : forall item,
               In item (flat_map (fun p => match itemOf p with
                                           | Some item => [item]
                                           | None => []
                                           end) proposals) <->
               exists p, In p proposals /\ itemOf p = Some item).
    { intros item. rewrite in_flat_map. split; intros (p & Hp & H); exists p;
        (split; [exact Hp|]).
      - destruct (itemOf p); [destruct H as [<-|[]]; reflexivity|destruct H].
      - rewrite H. now left. }
    split; [|split].
    + clear Hitem. induction proposals as [|p rest IH]; [constructor|].
      cbn [flat_map]. destruct (itemOf p) as [item|] eqn:Hp.
      * apply (inboxItem_Some _ _ _ _ _ _ _ Hmax) in Hp as (-> & _).
        cbn [app map]. now constructor.
      * cbn [app]. now constructor.
    + intros p. rewrite in_map_iff. split.
      * intros (item & <- & Hin). apply Hitem in Hin as (q & Hq & Hsome).
        apply (inboxItem_Some _ _ _ _ _ _ _ Hmax) in Hsome
          as (-> & Hst & Hexp & Hsince & Hvote & _).
        auto 10.
      * intros (Hin & _ & Hst & Hexp & Hsince & Hvote).
        exists (InboxItem.mk p (Sub now (Proposal.CreatedAt p))
                             (Sub now (Proposal.CreatedAt p) >? oldThreshold)).
        split; [reflexivity|]. apply Hitem. exists (Some p). split; [exact Hin|].
        apply (inboxItem_Some _ _ _ _ _ _ _ Hmax).
        cbn [InboxItem.Proposal InboxItem.Age InboxItem.IsOld]. auto 10.
    + intros item Hin. apply Hitem in Hin as (q & Hq & Hsome).
      apply (inboxItem_Some _ _ _ _ _ _ _ Hmax) in Hsome
        as (_ & _ & _ & _ & _ & Hage & Hold).
      split; [exact Hage|exact Hold].
  - exists []. split; [reflexivity|]. split; [apply sublist_nil_l|]. split.
    + intros p. split; [intros []|].
      intros (_ & Hin & _). apply isEligibleVoter_eligible in Hin. congruence.
    + intros item [].
Qed.

Lemma inboxItem_since now votes constitution userEmail since p :
  inboxItem now votes constitution userEmail (Some since) p =
  match inboxItem now votes constitution userEmail None p with
  | Some item =>
      if since <? Proposal.CreatedAt (InboxItem.Proposal item) then Some item else None
  | None => None
  end.
Proof.
  unfold inboxItem. destruct p as [q|]; [|reflexivity].
  destruct (negb (String.eqb (Proposal.Status q) "proposed")); [reflexivity|].
  destruct (_ && _); [reflexivity|]. unfold After.
  destruct (since <? Proposal.CreatedAt q) eqn:Hs; cbn [negb].
  - destruct (hasVoted _ userEmail); [reflexivity|].
    cbn [InboxItem.Proposal]. now rewrite Hs.
  - destruct (hasVoted _ userEmail); [reflexivity|].
    cbn [InboxItem.Proposal]. now rewrite Hs.
Qed.

(** X21. The time of the last check only narrows the inbox: with it, the inbox
    holds the items of the full inbox whose proposal was created after that
    time, in the same order, and nothing else. *)
Theorem GetInbox_since (now : Time) (proposals : list (option Proposal.t))
        (votes : gmap string (list (option Vote.t)))
        (constitution : option Constitution.t) (userEmail : string) (since : Time) :
  match GetInbox now proposals votes constitution userEmail None,
        GetInbox now proposals votes constitution userEmail (Some since) with
  | Some all, Some recent =>
      recent = List.filter
                 (fun item => since <? Proposal.CreatedAt (InboxItem.Proposal item)) all
  | None, None => constitution = None
  | _, _ => False
  end.
Proof.
  unfold GetInbox. destruct constitution as [constitution|]; [|reflexivity].
  destruct (negb (isEligibleVoter constitution userEmail)); [reflexivity|].
  induction proposals as [|p rest IH]; [reflexivity|].
  cbn [flat_map]. rewrite List.filter_app, <- IH, inboxItem_since.
  destruct (inboxItem now votes constitution userEmail None p) as [item|];
    [|reflexivity].
  cbn [List.filter]. now destruct (since <? _).
Qed.

(** X22. An item is only marked old when proposals live longer than seven days:
    under a time to live of one to seven days no item of the inbox is old,
    since a proposal of that age has expired. *)
Theorem GetInbox_old (now : Time) (proposals : list (option Proposal.t))
        (votes : gmap string (list (option Vote.t))) (constitution : Constitution.t)
        (userEmail : string) (sinceLastCheck : option Time) (items : list InboxItem.t) :
  0 < Governance.ProposalTTLDays (Constitution.Governance constitution) <= 7 ->
  GetInbox now proposals votes (Some constitution) userEmail sinceLastCheck = Some items ->
  forall item, In item items -> InboxItem.IsOld item = false.
Proof.
  intros Hdays. unfold GetInbox.
  destruct (negb (isEligibleVoter constitution userEmail)); [now intros [= <-]|].
  intros [= <-] item Hin. apply in_flat_map in Hin as (p & _ & Hin).
  unfold inboxItem in Hin. destruct p as [q|]; [|destruct Hin].
  destruct (negb (String.eqb (Proposal.Status q) "proposed")); [destruct Hin|].
  rewrite ttlDuration_days in Hin by (unfold max_ttl_days; lia).
  destruct (Z.gtb_spec (Governance.ProposalTTLDays (Constitution.Governance constitution)) 0);
    [|lia].
  cbn [andb] in Hin.
  destruct (Z.gtb_spec (Sub now (Proposal.CreatedAt q))
                       (Governance.ProposalTTLDays (Constitution.Governance constitution)
                        * (24 * Hour))) as [|Hle]; [destruct Hin|].
  destruct (match sinceLastCheck with Some _ => _ | None => _ end); [destruct Hin|].
  destruct (hasVoted _ userEmail); [destruct Hin|].
  destruct Hin as [<-|[]]. cbn [InboxItem.IsOld].
  rewrite Z.gtb_ltb. apply Z.ltb_ge. unfold oldThreshold, Hour in *. lia.
Qed.

(** [GetInbox_spec] at a proposal that waits for the vote of bob. *)
Lemma GetInbox_spec_witness :
  exists items,
    GetInbox (1000 + Hour) [None; Some exampleProposal] ∅ (Some exampleConstitution)
             "bob@x.io" None = Some items /\
    In exampleProposal (map InboxItem.Proposal items).
Proof.
  destruct (GetInbox_spec (1000 + Hour) [None; Some exampleProposal] ∅
                          exampleConstitution "bob@x.io" None)
    as (items & Heq & _ & Hiff & _); [vm_compute; discriminate|].
  exists items. split; [exact Heq|]. apply Hiff.
  split; [right; left; reflexivity|].
  split; [apply isEligibleVoter_eligible; reflexivity|].
  split; [reflexivity|]. split; [|split].
  - intros indefinite tallyVotes. rewrite ComputeTally_IsExpired. reflexivity.
  - discriminate.
  - intros vote [].
Defined.

(** [GetInbox_old] at the same proposal, three days later. *)
Lemma GetInbox_old_witness :
  GetInbox (1000 + 72 * Hour) [None; Some exampleProposal] ∅ (Some weekConstitution)
           "bob@x.io" None
  = Some [InboxItem.mk exampleProposal (72 * Hour) false] /\
  InboxItem.IsOld (InboxItem.mk exampleProposal (72 * Hour) false) = false.
Proof.
  assert (Hitems :
            GetInbox (1000 + 72 * Hour) [None; Some exampleProposal] ∅
                     (Some weekConstitution) "bob@x.io" None
            = Some [InboxItem.mk exampleProposal (72 * Hour) false])
    by (vm_compute; reflexivity).
  split; [exact Hitems|].
  apply (GetInbox_old (1000 + 72 * Hour) [None; Some exampleProposal] ∅
                      weekConstitution "bob@x.io" None
                      [InboxItem.mk exampleProposal (72 * Hour) false]).
  - vm_compute. split; [reflexivity|discriminate].
  - exact Hitems.
  - left. reflexivity.
Defined.

Local Close Scope Z_scope.

(** * Validation *)

Lemma failWith_None {message : Type} (errs : list message) :
  failWith errs = None <-> errs = [].
Proof. destruct errs; cbn; split; congruence. Qed.

Lemma validSeverities_iff severity :
  validSeverities severity = true <-> severity = "error" \/ severity = "warning".
Proof. unfold validSeverities. now rewrite orb_true_iff, !String.eqb_eq. Qed.

Lemma validDecisions_iff decision :
  validDecisions decision = true <-> decision = "yes" \/ decision = "no".
Proof. unfold validDecisions. now rewrite orb_true_iff, !String.eqb_eq. Qed.

Lemma validateRule_step seenIDs errs i rule :
  exists new,
    snd (validateRule (seenIDs, errs) (i, rule)) = errs ++ new /\
    (new = [] <-> ruleInOrder seenIDs rule) /\
    (new = [] ->
     fst (validateRule (seenIDs, errs) (i, rule)) = <[Rule.ID rule := true]> seenIDs).
Proof.
  unfold validateRule, ruleInOrder.
  destruct (String.eqb_spec (Rule.ID rule) "") as [Hid|Hid];
    [|destruct (lookup_bool seenIDs (Rule.ID rule)) eqn:Hseen];
    destruct (String.eqb_spec (Rule.Description rule) "") as [Hd|Hd];
    destruct (String.eqb_spec (Rule.Type' rule) "") as [Ht|Ht];
    (destruct (String.eqb_spec (Rule.Severity rule) "") as [Hs|Hs];
     [rewrite Hs|destruct (validSeverities (Rule.Severity rule)) eqn:Hv]);
    cbn [negb fst snd]; rewrite <- ?app_assoc;
    try (exists []; rewrite app_nil_r; split; [reflexivity|];
         split; [|reflexivity]; split; [intros _; auto 10|reflexivity]);
    (eexists; split; [reflexivity|]; split;
     [split; [discriminate|intros (? & ? & ? & ? & ?); try congruence; discriminate]
     |discriminate]).
Qed.

Lemma lookup_bool_insert_false (m : gmap string bool) k k' :
  lookup_bool (<[k := true]> m) k' = false <-> k <> k' /\ lookup_bool m k' = false.
Proof.
  pose proof (lookup_bool_insert m k k') as H.
  destruct (lookup_bool (<[k := true]> m) k'), (lookup_bool m k');
    intuition congruence.
Qed.

Lemma validateRules_fold rules : forall k seenIDs errs,
  exists new,
    snd (fold_left validateRule (combine (seq k (length rules)) rules) (seenIDs, errs))
    = errs ++ new /\
    (new = [] <->
     NoDup (map Rule.ID rules) /\
     forall rule, In rule rules -> ruleInOrder seenIDs rule).
Proof.
  induction rules as [|rule rules IH]; intros k seenIDs errs.
  - exists []. cbn. rewrite app_nil_r. split; [reflexivity|].
    split; [intros _; split; [constructor|intros ? []]|reflexivity].
  - cbn [length seq combine fold_left map].
    destruct (validateRule_step seenIDs errs k rule) as (new1 & Herrs & Hok & Hseen).
    destruct (validateRule (seenIDs, errs) (k, rule)) as [seenIDs1 errs1].
    cbn [fst snd] in Herrs, Hseen. subst errs1.
    destruct (IH (S k) seenIDs1 (errs ++ new1)) as (new2 & -> & Hrest).
    exists (new1 ++ new2). split; [now rewrite app_assoc|].
    split.
    + intros Hnil. apply app_eq_nil in Hnil as [-> ->].
      specialize (Hseen eq_refl). subst seenIDs1.
      destruct Hok as [Hok _]. specialize (Hok eq_refl).
      destruct Hrest as [Hrest _]. destruct (Hrest eq_refl) as [Hnodup Hall].
      split.
      * constructor; [|exact Hnodup]. intros Hin.
        apply list_elem_of_In, in_map_iff in Hin as (other & Hid & Hother).
        destruct (Hall other Hother) as (_ & Hfresh & _).
        rewrite Hid in Hfresh. apply lookup_bool_insert_false in Hfresh. tauto.
      * intros r [<-|Hr]; [exact Hok|].
        destruct (Hall r Hr) as (H1 & H2 & H3). split; [exact H1|].
        split; [|exact H3]. now apply lookup_bool_insert_false in H2.
    + intros [Hnodup Hall]. inversion Hnodup as [|? ? Hnotin Hnodup']; subst.
      destruct Hok as [_ Hok]. rewrite (Hok (Hall rule (or_introl eq_refl))) in *.
      specialize (Hseen eq_refl). subst seenIDs1. cbn [app].
      apply Hrest. split; [exact Hnodup'|].
      intros r Hr. destruct (Hall r (or_intror Hr)) as (H1 & H2 & H3).
      split; [exact H1|]. split; [|exact H3].
      apply lookup_bool_insert_false. split; [|exact H2].
      intros Heq. apply Hnotin.
      apply list_elem_of_In, in_map_iff. exists r. auto.
Qed.

Lemma NoDup_map_eq {A B : Type} (f : A -> B) (l : list A) a b :
  NoDup (map f l) -> In a l -> In b l -> f a = f b -> a = b.
Proof.
  induction l as [|x l IH]; [intros _ []|].
  cbn [map]. intros Hnodup Ha Hb Heq.
  inversion Hnodup as [|? ? Hnotin Hnodup']; subst.
  destruct Ha as [->|Ha], Hb as [->|Hb]; [reflexivity| | |now apply IH].
  - exfalso. apply Hnotin. rewrite Heq. now apply list_elem_of_In, in_map.
  - exfalso. apply Hnotin. rewrite <- Heq. now apply list_elem_of_In, in_map.
Qed.

(** X23. [ValidateRules] accepts a rules file exactly when the IDs of its rules
    are not empty and differ from one another, every rule has a description
    and a type, and every severity is [error] or [warning].  It does not ask
    whether the engine knows the type. *)
Theorem ValidateRules_spec (r : RulesFile.t) :
  ValidateRules (Some r) = None <->
  NoDup (map Rule.ID (RulesFile.Rules r)) /\
  forall rule, In rule (RulesFile.Rules r) ->
               Rule.ID rule <> "" /\ Rule.Description rule <> "" /\
               Rule.Type' rule <> "" /\
               (Rule.Severity rule = "error" \/ Rule.Severity rule = "warning").
Proof.
  unfold ValidateRules, indexed. rewrite failWith_None.
  destruct (validateRules_fold (RulesFile.Rules r) 0 ∅ []) as (new & -> & Hnew).
  cbn [app]. rewrite Hnew. unfold ruleInOrder.
  split; intros [Hnodup Hall]; (split; [exact Hnodup|]); intros rule Hin.
  - destruct (Hall rule Hin) as (H1 & _ & H3 & H4 & H5).
    apply validSeverities_iff in H5. auto.
  - destruct (Hall rule Hin) as (H1 & H3 & H4 & H5).
    apply validSeverities_iff in H5. repeat split; auto.
Qed.

Local Open Scope Z_scope.

Lemma severityCount_total violations :
  (forall v, In v violations ->
             Violation.Severity v = "error"%string \/
             Violation.Severity v = "warning"%string) ->
  severityCount "error" violations + severityCount "warning" violations =
  Z.of_nat (length violations).
Proof.
  unfold severityCount.
  induction violations as [|v vs IH]; intros Hall; [reflexivity|].
  cbn [List.filter].
  specialize (IH (fun w Hw => Hall w (or_intror Hw))).
  pose proof (Hall v (or_introl eq_refl)) as Hv.
  destruct (String.eqb_spec (Violation.Severity v) "error") as [He|He];
    destruct (String.eqb_spec (Violation.Severity v) "warning") as [Hw|Hw];
    cbn [length]; try lia; [congruence|tauto].
Qed.

Section ValidatedRules.

Variable Regexp : Type.
Variable regexp_Compile : string -> option Regexp.
Variable MatchString : Regexp -> string -> bool.

(** X24. For an engine whose rules passed [ValidateRules], every violation of a
    run is the violation of exactly one rule, the one with its ID, and counts
    either as an error or as a warning: the two counters add up to the number
    of violations. *)
Theorem ValidateRules_Run (now : Time) (e : Engine) (changedFiles : list string)
        (diffContent : string) (res : EngineResult) :
  ValidateRules (Some (RulesFile.mk (Rules e))) = None ->
  Run Regexp regexp_Compile MatchString now e changedFiles diffContent = Ok res ->
  Z.of_nat (length (Violations res)) <= max_int ->
  (forall v, In v (Violations res) ->
             exists rule,
               (In rule (Rules e) /\ Rule.ID rule = Violation.RuleID v) /\
               (forall other, In other (Rules e) ->
                              Rule.ID other = Violation.RuleID v -> other = rule) /\
               Violation.Severity v = Rule.Severity rule) /\
  Errors res + Warnings res = Z.of_nat (length (Violations res)).
Proof.
  unfold ValidateRules, indexed. rewrite failWith_None. cbn [RulesFile.Rules].
  destruct (validateRules_fold (Rules e) 0%nat ∅ []) as (new & -> & Hnew).
  cbn [app]. intros Hnil. apply Hnew in Hnil as [Hnodup Hall]. clear Hnew.
  unfold Run.
  destruct (runRules Regexp regexp_Compile MatchString (Rules e) changedFiles
                     diffContent []) as [all|] eqn:Hrun; [|discriminate].
  cbn [bind]. intros [= <-]. cbn [Violations Errors Warnings]. intros Hlen.
  assert (Hrule : forall v, In v (applyExceptions now e all) ->
                            exists rule, In rule (Rules e) /\
                                         Violation.RuleID v = Rule.ID rule /\
                                         Violation.Severity v = Rule.Severity rule).
  { intros v Hv. apply applyExceptions_incl in Hv.
    destruct (runRules_stamped _ _ _ _ _ _ _ _ _ Hrun Hv)
      as [[]|(rule & Hin & file & snippet & -> & _)].
    exists rule. auto. }
  split.
  - intros v Hv. destruct (Hrule v Hv) as (rule & Hin & Hid & Hsev).
    exists rule. split; [auto|]. split; [|exact Hsev].
    intros other Hother Hoid.
    apply (NoDup_map_eq Rule.ID (Rules e)); [exact Hnodup|exact Hother|exact Hin|].
    congruence.
  - rewrite !(countSeverity_count _) by exact Hlen.
    apply severityCount_total. intros v Hv.
    destruct (Hrule v Hv) as (rule & Hin & _ & ->).
    destruct (Hall rule Hin) as (_ & _ & _ & _ & Hsev).
    now apply validSeverities_iff.
Qed.

End ValidatedRules.

(** [ValidateRules_Run] at the rule that needs a test. *)
Lemma ValidateRules_Run_witness :
  let violations :=
    [Violation.mk "needs_test" "error" "changes need a test" "main.go" "" ""] in
  (forall v, In v violations ->
             exists rule,
               (In rule [ruleNeedsTest] /\ Rule.ID rule = Violation.RuleID v) /\
               (forall other, In other [ruleNeedsTest] ->
                              Rule.ID other = Violation.RuleID v -> other = rule) /\
               Violation.Severity v = Rule.Severity rule) /\
  1 + 0 = Z.of_nat (length violations).
Proof.
  intros violations.
  apply (ValidateRules_Run string literal_Compile literal_MatchString 0
           (NewEngine [ruleNeedsTest] []) ["main.go"] todoDiff
           (mkEngineResult violations 1 0)).
  - vm_compute. reflexivity.
  - vm_compute. reflexivity.
  - vm_compute. discriminate.
Defined.

Lemma IsZero_iff t : IsZero t = true <-> t = zeroTime.
Proof. unfold IsZero. apply Z.eqb_eq. Qed.

Lemma ValidateVote_None vote :
  ValidateVote (Some vote) = None <->
  Vote.ProposalID vote <> ""%string /\ Vote.VoterEmail vote <> ""%string /\
  (Vote.Decision vote = "yes"%string \/ Vote.Decision vote = "no"%string) /\
  Vote.VotedAt vote <> zeroTime.
Proof.
  unfold ValidateVote. rewrite failWith_None, <- validDecisions_iff.
  destruct (String.eqb_spec (Vote.ProposalID vote) "");
    destruct (String.eqb_spec (Vote.VoterEmail vote) "");
    (destruct (String.eqb_spec (Vote.Decision vote) "") as [Hd|Hd];
     [rewrite Hd|destruct (validDecisions (Vote.Decision vote))]);
    (destruct (IsZero (Vote.VotedAt vote)) eqn:Hz;
     [apply IsZero_iff in Hz|
      assert (Vote.VotedAt vote <> zeroTime)
        by (intros Hzero; apply IsZero_iff in Hzero; congruence)]);
    cbn [negb app]; split; try discriminate; try tauto;
    intros (? & ? & ? & ?); try congruence; discriminate.
Qed.

Lemma countedVotes_total constitution votes :
  (forall vote, In vote votes ->
                Vote.Decision vote = "yes"%string \/ Vote.Decision vote = "no"%string) ->
  (length (countedVotes constitution "yes" votes) +
   length (countedVotes constitution "no" votes))%nat =
  length (List.filter
            (fun vote => bool_decide (Vote.VoterEmail vote ∈ GetEligibleVoters constitution))
            votes).
Proof.
  unfold countedVotes. induction votes as [|vote votes IH]; intros Hdec; [reflexivity|].
  cbn [List.filter].
  specialize (IH (fun w Hw => Hdec w (or_intror Hw))).
  destruct (bool_decide _); cbn [andb]; [|exact IH].
  destruct (Hdec vote (or_introl eq_refl)) as [-> | ->];
    cbn [String.eqb Ascii.eqb Bool.eqb length]; lia.
Qed.

(** X25. [ValidateVote] accepts a vote exactly when it names a proposal and a
    voter, its decision is [yes] or [no], and its time is not the zero time.
    So, of votes that passed it, [ComputeTally] counts every vote of an
    eligible voter, as a yes or as a no. *)
Theorem ValidateVote_spec (indefinite : Float64.t -> Z) (now : Time)
        (proposal : Proposal.t) (votes : list Vote.t) (constitution : Constitution.t) :
  (forall vote, In vote votes -> ValidateVote (Some vote) = None) ->
  Z.of_nat (length votes) <= max_int ->
  (forall vote, In vote votes ->
                Vote.ProposalID vote <> ""%string /\ Vote.VoterEmail vote <> ""%string /\
                (Vote.Decision vote = "yes"%string \/ Vote.Decision vote = "no"%string) /\
                Vote.VotedAt vote <> zeroTime) /\
  let quorumResult :=
    TallyResult.QuorumResult (ComputeTally indefinite now proposal votes constitution) in
  QuorumResult.YesVotes quorumResult + QuorumResult.NoVotes quorumResult =
  Z.of_nat (length (List.filter
                      (fun vote => bool_decide (Vote.VoterEmail vote ∈
                                                GetEligibleVoters constitution))
                      votes)).
Proof.
  intros Hvalid Hlen.
  split; [intros vote Hin; apply ValidateVote_None, Hvalid, Hin|].
  cbv zeta. unfold ComputeTally.
  rewrite (countVote_counts _ constitution votes 0 0
             (eligibleSet_lookup (GetEligibleVoters constitution)))
    by lia.
  cbn [Z.add].
  match goal with
  | |- context [if ?b then _ else _] => destruct b
  end; cbn [TallyResult.QuorumResult QuorumResult.YesVotes QuorumResult.NoVotes
            CalculateQuorum];
    rewrite !Z.add_0_l, <- Nat2Z.inj_add; f_equal; apply countedVotes_total;
    intros vote Hin; apply ValidateVote_None; auto.
Qed.

(** [ValidateVote_spec] at two votes of eligible voters and one of an
    intern. *)
Lemma ValidateVote_spec_witness :
  let votes := [Vote.mk "p1" "bob@x.io" "yes" "" 5; Vote.mk "p1" "dan@x.io" "yes" "" 6;
                Vote.mk "p1" "cy@x.io" "no" "fine as it is" 8] in
  let quorumResult :=
    TallyResult.QuorumResult
      (ComputeTally (fun _ => min_int) 100 exampleProposal votes exampleConstitution) in
  QuorumResult.YesVotes quorumResult + QuorumResult.NoVotes quorumResult = 2.
Proof.
  intros votes quorumResult.
  destruct (ValidateVote_spec (fun _ => min_int) 100 exampleProposal votes
                              exampleConstitution) as [_ Hsum].
  - intros vote [<-|[<-|[<-|[]]]]; reflexivity.
  - vm_compute. discriminate.
  - exact Hsum.
Defined.

(** X26. [ValidateException] accepts an exception exactly when it has an ID, a
    rule, at least one path, a reason and an author, its creation time is not
    the zero time, and its expiry, if it has one that is not the zero time,
    is not before its creation.  An exception that passed it and has such an
    expiry is in force when it is created, and until it expires; the patterns
    of the paths are not looked at. *)
Theorem ValidateException_spec (e : Exception.t) :
  (ValidateException (Some e) = None <->
   Exception.ID e <> ""%string /\ Exception.RuleID e <> ""%string /\
   Exception.Paths e <> [] /\ Exception.Reason e <> ""%string /\
   Exception.CreatedBy e <> ""%string /\ Exception.CreatedAt e <> zeroTime /\
   forall expiresAt, Exception.ExpiresAt e = Some expiresAt ->
                     expiresAt = zeroTime \/ Exception.CreatedAt e <= expiresAt) /\
  (ValidateException (Some e) = None ->
   forall now, isExpired now e = true ->
               exists expiresAt,
                 Exception.ExpiresAt e = Some expiresAt /\ expiresAt < now /\
                 (expiresAt = zeroTime \/ Exception.CreatedAt e < now)).
Proof.
  assert (Hiff :
    ValidateException (Some e) = None <->
    Exception.ID e <> ""%string /\ Exception.RuleID e <> ""%string /\
    Exception.Paths e <> [] /\ Exception.Reason e <> ""%string /\
    Exception.CreatedBy e <> ""%string /\ Exception.CreatedAt e <> zeroTime /\
    forall expiresAt, Exception.ExpiresAt e = Some expiresAt ->
                      expiresAt = zeroTime \/ Exception.CreatedAt e <= expiresAt).
  { unfold ValidateException. rewrite failWith_None.
    assert (Hexp :
      (match Exception.ExpiresAt e with
       | Some expiresAt => negb (IsZero expiresAt) && Before expiresAt (Exception.CreatedAt e)
       | None => false
       end) = false <->
      forall expiresAt, Exception.ExpiresAt e = Some expiresAt ->
                        expiresAt = zeroTime \/ Exception.CreatedAt e <= expiresAt).
    { destruct (Exception.ExpiresAt e) as [t|]; [|split; [discriminate|reflexivity]].
      unfold Before. rewrite andb_false_iff, negb_false_iff, IsZero_iff, Z.ltb_ge.
      split; [intros H ? [= <-]; exact H|intros H; exact (H t eq_refl)]. }
    rewrite <- Hexp. clear Hexp.
    assert (Hreshape : forall (errs : list exceptionMessage),
      match Exception.ExpiresAt e with
      | Some expiresAt =>
          if negb (IsZero expiresAt) && Before expiresAt (Exception.CreatedAt e)
          then errs ++ [ExceptionExpiresBeforeCreated] else errs
      | None => errs
      end =
      if match Exception.ExpiresAt e with
         | Some expiresAt =>
             negb (IsZero expiresAt) && Before expiresAt (Exception.CreatedAt e)
         | None => false
         end
      then errs ++ [ExceptionExpiresBeforeCreated] else errs).
    { intros errs. now destruct (Exception.ExpiresAt e). }
    rewrite Hreshape. clear Hreshape.
    destruct (match Exception.ExpiresAt e with Some _ => _ | None => _ end);
      destruct (String.eqb_spec (Exception.ID e) "");
      destruct (String.eqb_spec (Exception.RuleID e) "");
      (destruct (Exception.Paths e) as [|path paths] eqn:Hpaths; cbn [length Nat.eqb]);
      destruct (String.eqb_spec (Exception.Reason e) "");
      destruct (String.eqb_spec (Exception.CreatedBy e) "");
      (destruct (IsZero (Exception.CreatedAt e)) eqn:Hz;
       [apply IsZero_iff in Hz|
        assert (Exception.CreatedAt e <> zeroTime)
          by (intros Hzero; apply IsZero_iff in Hzero; congruence)]);
      cbn [app]; split; try discriminate;
      try (intros (? & ? & ? & ? & ? & ? & ?); try congruence; discriminate);
      intros _; repeat split; try assumption; discriminate. }
  split; [exact Hiff|].
  intros Hvalid now Hexpired. apply Hiff in Hvalid as (_ & _ & _ & _ & _ & _ & Hbound).
  unfold isExpired, Before in Hexpired.
  destruct (Exception.ExpiresAt e) as [expiresAt|]; [|discriminate].
  apply Z.ltb_lt in Hexpired. exists expiresAt. split; [reflexivity|].
  split; [exact Hexpired|]. destruct (Hbound expiresAt eq_refl); [now left|right; lia].
Qed.

Local Close Scope Z_scope.

(** * A constitution without voters *)

Local Open Scope Z_scope.

Lemma countVote_nobody votes : forall counts,
  fold_left (countVote ∅) votes counts = counts.
Proof.
  induction votes as [|vote votes IH]; intros [yesVotes noVotes]; [reflexivity|].
  cbn [fold_left]. unfold countVote at 2. unfold lookup_bool.
  rewrite lookup_empty. cbn [default negb]. apply IH.
Qed.

(** X27. When the constitution has no eligible voter (no voter role, or only
    roles that are undefined or empty), no vote counts, and a proposal that
    has not expired is ACCEPTED at once under the unanimous and the
    two-thirds quorum, which then require no vote, and REJECTED under the
    majority quorum and under an unknown type. *)
Theorem ComputeTally_no_voters
        (indefinite : Float64.t -> Z) (now : Time) (proposal : Proposal.t)
        (votes : list Vote.t) (constitution : Constitution.t) :
  GetEligibleVoters constitution = [] ->
  let tally := ComputeTally indefinite now proposal votes constitution in
  let type := QuorumConfig.Type' (TallyResult.QuorumConfig tally) in
  TallyResult.IsExpired tally = false ->
  type <> "custom"%string ->
  QuorumResult.YesVotes (TallyResult.QuorumResult tally) = 0 /\
  QuorumResult.NoVotes (TallyResult.QuorumResult tally) = 0 /\
  QuorumResult.Result (TallyResult.QuorumResult tally) =
  if String.eqb type "unanimous" || String.eqb type "two_thirds"
  then "ACCEPTED"%string else "REJECTED"%string.
Proof.
  intros Hnone tally type. subst tally type. unfold ComputeTally.
  rewrite Hnone. cbn [fold_left length Z.of_nat]. rewrite countVote_nobody.
  set (qc := match Governance.PerRuleOverrides _ !! _ with
             | Some override => RuleOverride.Quorum override
             | None => Governance.Quorum (Constitution.Governance constitution)
             end).
  cbn [TallyResult.IsExpired TallyResult.QuorumConfig TallyResult.QuorumResult].
  intros -> Hcustom.
  cbn [CalculateQuorum QuorumResult.YesVotes QuorumResult.NoVotes QuorumResult.Result].
  split; [reflexivity|]. split; [reflexivity|].
  unfold calculateRequired.
  destruct (String.eqb_spec (QuorumConfig.Type' qc) "custom"); [contradiction|].
  destruct (String.eqb (QuorumConfig.Type' qc) "majority") eqn:Hm.
  - apply String.eqb_eq in Hm. rewrite Hm. reflexivity.
  - destruct (String.eqb (QuorumConfig.Type' qc) "two_thirds").
    + rewrite orb_true_r. rewrite two_thirds_exact by lia. reflexivity.
    + destruct (String.eqb (QuorumConfig.Type' qc) "unanimous"); reflexivity.
Qed.

(** [ComputeTally_no_voters] at a constitution whose voter role is not
    defined: one no vote of a member of another role changes nothing. *)
Lemma ComputeTally_no_voters_witness :
  let tally :=
    ComputeTally (fun _ => min_int) 100 exampleProposal
                 [Vote.mk "p1" "dan@x.io" "no" "" 5] ghostConstitution in
  QuorumResult.YesVotes (TallyResult.QuorumResult tally) = 0 /\
  QuorumResult.NoVotes (TallyResult.QuorumResult tally) = 0 /\
  QuorumResult.Result (TallyResult.QuorumResult tally) = "ACCEPTED"%string.
Proof.
  apply (ComputeTally_no_voters (fun _ => min_int) 100 exampleProposal
           [Vote.mk "p1" "dan@x.io" "no" "" 5] ghostConstitution).
  - reflexivity.
  - reflexivity.
  - discriminate.
Defined.

Local Close Scope Z_scope.

(** * The order of the arguments *)

Lemma args_ind (P : list string -> Prop) :
  P [] ->
  (forall arg rest, P rest -> P (tl rest) -> P (arg :: rest)) ->
  forall args, P args.
Proof.
  intros Hnil Hcons args.
  assert (H : P args /\ P (tl args)); [|exact (proj1 H)].
  induction args as [|arg rest [IH IHtl]]; [now split|].
  split; [now apply Hcons|exact IH].
Qed.

Lemma reorderLoop_eq args : forall flags positional,
  reorderLoop args flags positional =
  (flags ++ flagsOf args) ++ (positional ++ positionalOf args).
Proof.
  induction args as [|arg rest IH IHtl] using args_ind; intros flags positional.
  - cbn. now rewrite !app_nil_r.
  - cbn [reorderLoop flagsOf positionalOf].
    destruct (HasPrefix arg "-").
    + destruct rest as [|next rest'].
      * cbn. now rewrite !app_nil_r.
      * destruct (takesValue arg next).
        -- cbn [tl] in IHtl. rewrite IHtl, <- !app_assoc. reflexivity.
        -- rewrite IH, <- !app_assoc. reflexivity.
    + rewrite IH, <- !app_assoc. reflexivity.
Qed.

Lemma reorderArgs_eq args : reorderArgs args = flagsOf args ++ positionalOf args.
Proof. unfold reorderArgs. now rewrite reorderLoop_eq. Qed.

Lemma reorder_Permutation args : flagsOf args ++ positionalOf args ≡ₚ args.
Proof.
  induction args as [|arg rest IH IHtl] using args_ind; [reflexivity|].
  cbn [flagsOf positionalOf]. destruct (HasPrefix arg "-").
  - destruct rest as [|next rest']; [reflexivity|].
    destruct (takesValue arg next).
    + cbn [tl] in IHtl. cbn [app]. now rewrite IHtl.
    + cbn [app]. now rewrite IH.
  - rewrite <- Permutation_middle. now rewrite IH.
Qed.

Lemma flagsOf_head args flag flags :
  flagsOf args = flag :: flags -> HasPrefix flag "-" = true.
Proof.
  induction args as [|arg rest IH]; [discriminate|].
  cbn [flagsOf]. destruct (HasPrefix arg "-") eqn:Harg; [|exact IH].
  destruct rest as [|next rest']; [now intros [= <- _]|].
  destruct (takesValue arg next); now intros [= <- _].
Qed.

Lemma flagsOf_shaped args : flagShaped (flagsOf args).
Proof.
  induction args as [|arg rest IH IHtl] using args_ind; [constructor|].
  cbn [flagsOf]. destruct (HasPrefix arg "-") eqn:Harg; [|exact IH].
  destruct rest as [|next rest']; [now constructor|].
  destruct (takesValue arg next) eqn:Hvalue.
  - cbn [tl] in IHtl. now constructor.
  - destruct (flagsOf (next :: rest')) as [|flag flags] eqn:Hflags; [now constructor|].
    apply shaped_flag; [exact Harg|exact (flagsOf_head _ _ _ Hflags)|exact IH].
Qed.

Lemma positionalOf_plain args :
  Forall (fun arg => HasPrefix arg "-" = false) (positionalOf args).
Proof.
  induction args as [|arg rest IH IHtl] using args_ind; [constructor|].
  cbn [positionalOf]. destruct (HasPrefix arg "-") eqn:Harg.
  - destruct rest as [|next rest']; [constructor|].
    destruct (takesValue arg next); [exact IHtl|exact IH].
  - now constructor.
Qed.

Lemma reorderLoop_plain args : forall flags positional,
  Forall (fun arg => HasPrefix arg "-" = false) args ->
  reorderLoop args flags positional = flags ++ positional ++ args.
Proof.
  induction args as [|arg rest IH]; intros flags positional Hplain.
  - cbn. now rewrite app_nil_r.
  - inversion Hplain as [|? ? Harg Hrest]; subst.
    cbn [reorderLoop]. rewrite Harg, IH by exact Hrest.
    now rewrite <- app_assoc.
Qed.

Lemma reorderLoop_flag arg next rest flags positional :
  HasPrefix arg "-" = true -> takesValue arg next = false ->
  reorderLoop (arg :: next :: rest) flags positional =
  reorderLoop (next :: rest) (flags ++ [arg]) positional.
Proof.
  intros Harg Hno. cbn [reorderLoop]. rewrite Harg, Hno. reflexivity.
Qed.

Lemma reorderLoop_shaped flagged plain :
  flagShaped flagged ->
  Forall (fun arg => HasPrefix arg "-" = false) plain ->
  forall flags, reorderLoop (flagged ++ plain) flags [] = flags ++ flagged ++ plain.
Proof.
  intros Hshaped Hplain.
  induction Hshaped as [|arg Harg|arg value rest Harg Hvalue Hrest IH
                        |arg next rest Harg Hnext Hrest IH]; intros flags.
  - cbn [app]. now rewrite reorderLoop_plain.
  - cbn [app reorderLoop]. rewrite Harg.
    destruct plain as [|next plain']; [cbn; now rewrite app_nil_r|].
    inversion Hplain as [|? ? Hnext Hplain']; subst.
    destruct (takesValue arg next).
    + rewrite reorderLoop_plain by exact Hplain'. cbn [app].
      now rewrite <- !app_assoc.
    + rewrite reorderLoop_plain by exact Hplain. cbn [app].
      now rewrite <- !app_assoc.
  - cbn [app reorderLoop]. rewrite Harg, Hvalue, IH, <- !app_assoc. reflexivity.
  - assert (Hno : takesValue arg next = false)
      by (unfold takesValue; now rewrite Hnext).
    change ((arg :: next :: rest) ++ plain) with (arg :: next :: (rest ++ plain)).
    rewrite (reorderLoop_flag _ _ _ _ _ Harg Hno).
    change (next :: rest ++ plain) with ((next :: rest) ++ plain).
    rewrite IH, <- !app_assoc. reflexivity.
Qed.

Lemma flagsOf_sublist args : sublist (flagsOf args) args.
Proof.
  induction args as [|arg rest IH IHtl] using args_ind; [constructor|].
  cbn [flagsOf]. destruct (HasPrefix arg "-"); [|now constructor].
  destruct rest as [|next rest']; [reflexivity|].
  destruct (takesValue arg next); [|now constructor].
  cbn [tl] in IHtl. now repeat constructor.
Qed.

Lemma positionalOf_sublist args : sublist (positionalOf args) args.
Proof.
  induction args as [|arg rest IH IHtl] using args_ind; [constructor|].
  cbn [positionalOf]. destruct (HasPrefix arg "-"); [|now constructor].
  destruct rest as [|next rest']; [apply sublist_nil_l|].
  destruct (takesValue arg next); [|now constructor].
  cbn [tl] in IHtl. now repeat constructor.
Qed.

Lemma takesValue_plain flag value :
  takesValue flag value = true -> HasPrefix value "-" = false.
Proof.
  unfold takesValue. intros H.
  apply andb_true_iff in H as [H _]. apply andb_true_iff in H as [H _].
  now apply negb_true_iff in H.
Qed.

Lemma isValueOf_plain arg next :
  HasPrefix arg "-" = false -> isValueOf (Some arg) next = false.
Proof. intros H. cbn [isValueOf]. now rewrite H. Qed.

(** The loop reads the arguments as [flagPart] and [positionalPart] tell,
    when the first of them is not the value of a flag before it. *)
Lemma parts_eq args : forall previous,
  (forall arg rest, args = arg :: rest -> isValueOf previous arg = false) ->
  flagPart previous args = flagsOf args /\
  positionalPart previous args = positionalOf args.
Proof.
  induction args as [|arg rest IH IHtl] using args_ind; intros previous Hfirst;
    [now split|].
  specialize (Hfirst arg rest eq_refl).
  cbn [flagPart positionalPart flagsOf positionalOf]. unfold withFlags.
  rewrite Hfirst, orb_false_r.
  destruct (HasPrefix arg "-") eqn:Harg.
  - destruct rest as [|next rest']; [now split|].
    destruct (takesValue arg next) eqn:Hvalue.
    + cbn [flagPart positionalPart]. unfold withFlags. cbn [isValueOf].
      rewrite Harg, Hvalue, orb_true_r. cbn [tl] in IHtl.
      destruct (IHtl (Some next)) as [Hf Hp].
      { intros a r _. apply isValueOf_plain. exact (takesValue_plain _ _ Hvalue). }
      now rewrite Hf, Hp.
    + destruct (IH (Some arg)) as [Hf Hp].
      { intros a r [= <- <-]. cbn [isValueOf]. now rewrite Hvalue, andb_false_r. }
      now rewrite Hf, Hp.
  - destruct (IH (Some arg)) as [Hf Hp].
    { intros a r _. now apply isValueOf_plain. }
    now rewrite Hf, Hp.
Qed.

Lemma flagPart_adjacent before : forall previous flag value after,
  HasPrefix flag "-" = true -> takesValue flag value = true ->
  exists before' after',
    flagPart previous (before ++ flag :: value :: after) =
    before' ++ flag :: value :: after'.
Proof.
  induction before as [|arg before IH]; intros previous flag value after Hflag Hvalue.
  - exists [], (flagPart (Some value) after).
    cbn [app flagPart]. unfold withFlags. cbn [isValueOf].
    now rewrite Hflag, Hvalue, orb_true_r.
  - destruct (IH (Some arg) flag value after Hflag Hvalue) as (before' & after' & Heq).
    cbn [app flagPart]. rewrite Heq.
    destruct (withFlags previous arg);
      [exists (arg :: before'), after'|exists before', after']; reflexivity.
Qed.

(** X28. [reorderArgs] returns the arguments that go with the flags, in their
    order, followed by the other arguments, in their order.  An argument goes
    with the flags when it starts with a dash, or when it comes right after a
    flag that takes it as its value; so each such flag is still followed by
    its value, and the other arguments, none of which starts with a dash,
    come last.  The result is a permutation of the arguments; reordering
    twice is reordering once, and arguments without a dash are not
    touched. *)
Theorem reorderArgs_spec (args : list string) :
  let flags := flagPart None args in
  let positional := positionalPart None args in
  reorderArgs args = flags ++ positional /\
  flagShaped flags /\
  (forall before flag value after,
      args = before ++ flag :: value :: after ->
      HasPrefix flag "-" = true -> takesValue flag value = true ->
      exists before' after', flags = before' ++ flag :: value :: after') /\
  sublist flags args /\ sublist positional args /\
  Forall (fun arg => HasPrefix arg "-" = false) positional /\
  (forall flag, head flags = Some flag -> HasPrefix flag "-" = true) /\
  reorderArgs args ≡ₚ args /\
  reorderArgs (reorderArgs args) = reorderArgs args /\
  (Forall (fun arg => HasPrefix arg "-" = false) args -> reorderArgs args = args).
Proof.
  intros flags positional.
  destruct (parts_eq args None) as [Hflags Hpositional]; [reflexivity|].
  assert (Hadjacent : forall before flag value after,
             args = before ++ flag :: value :: after ->
             HasPrefix flag "-" = true -> takesValue flag value = true ->
             exists before' after', flags = before' ++ flag :: value :: after').
  { intros before flag value after -> Hflag Hvalue.
    apply flagPart_adjacent; assumption. }
  subst flags positional. rewrite Hflags, Hpositional in *.
  split; [apply reorderArgs_eq|]. split; [apply flagsOf_shaped|].
  split; [exact Hadjacent|].
  split; [apply flagsOf_sublist|]. split; [apply positionalOf_sublist|].
  split; [apply positionalOf_plain|].
  split.
  { intros flag Hhead. destruct (flagsOf args) as [|f flags] eqn:Hf;
      [discriminate|]. injection Hhead as ->. exact (flagsOf_head _ _ _ Hf). }
  split; [rewrite reorderArgs_eq; apply reorder_Permutation|].
  split.
  - rewrite (reorderArgs_eq args). unfold reorderArgs.
    apply (reorderLoop_shaped _ _ (flagsOf_shaped args) (positionalOf_plain args)).
  - intros Hplain. unfold reorderArgs. now rewrite reorderLoop_plain.
Qed.

(** The arguments of a vote: the proposal, a comment and the decision. *)
Example reorderArgs_vote :
  reorderArgs ["p1"; "--comment"; "looks fine"; "--yes"; "extra"] =
  ["--comment"; "looks fine"; "--yes"; "p1"; "extra"].
Proof. reflexivity. Qed.
